(** * joyBox: a shallow embedding of the backend utilities, the application
      bootstrap and the observable dialog, with the properties the
      specification states about them.

    Layout:
    - [Js]      : the fragment of JavaScript the sources rely on (strings as
                  lists of characters, outcomes of calls, promises, the
                  backtracking regular expressions of [String.replace]);
    - [Util]    : backend/Src/Common/Util.ts;
    - [Dialog]  : src/Components/Observables/EditObservableDialog.vue;
    - [Router]  : the navigation guard of the client's router;
    - [Recorder], [Monitor] : collaborators of the bootstrap whose sources are
                  not part of the tree, modelled from the specification;
    - [App]     : the bootstrap class [App] (Run, PrepareFileSystem, LoadData,
                  SetupPluginManagerController, Shutdown);
    - [Samples], [Worlds] : concrete inputs the definitions are run on.
    Definitions come first, the theorems follow, a module of facts for each
    part of the sources. *)

From Stdlib Require Import ZArith NArith Ascii String List Lia.
From Stdlib Require Strings.Byte.
From Stdlib Require Import DecimalString.
From stdpp Require Import base list strings gmap.

Local Open Scope Z_scope.

(* ===================================================================== *)
(** ** JavaScript fragment *)
(* ===================================================================== *)
Module Js.

(** A JS string whose code units are all below 256, which is the case for
    the host names and paths the URL parser returns (punycode and
    percent-encoding) and for every literal of the sources. *)
Definition str := list ascii.

(** String literals. *)
Definition lit (s : string) : str := list_ascii_of_string s.

(** How a synchronous call ends. [process.exit] never returns: it is an
    outcome of its own, which no [catch] intercepts. *)
Inductive outcome (E A : Type) : Type :=
| Done (a : A)
| Thrown (e : E)
| Exited (code : Z).
Arguments Done {E A} a.
Arguments Thrown {E A} e.
Arguments Exited {E A} code.

(** The state of a promise when it is looked at. *)
Inductive promise (E A : Type) : Type :=
| Resolved (a : A)
| Rejected (e : E)
| Pending.
Arguments Resolved {E A} a.
Arguments Rejected {E A} e.
Arguments Pending {E A}.

(** What a call hands to [await]: a plain value or a promise. *)
Inductive awaitable (E A : Type) : Type :=
| Plain (a : A)
| Prom (p : promise E A).
Arguments Plain {E A} a.
Arguments Prom {E A} p.

(** [s.split(sep)] for a one-character separator: never empty. *)
Fixpoint split (sep : ascii) (s : str) : list str :=
  match s with
  | [] => [[]]
  | c :: s' =>
      if Ascii.eqb c sep then [] :: split sep s'
      else match split sep s' with
           | h :: t => (c :: h) :: t
           | [] => [[c]]
           end
  end.

(** A value interpolated in a template literal: [undefined] prints as the
    nine letters of its name. *)
Definition interpolate (v : option str) : str :=
  match v with
  | Some s => s
  | None => lit "undefined"
  end.

(** [String(n)] for a natural number. *)
Definition String_of_nat (n : nat) : str :=
  list_ascii_of_string (NilEmpty.string_of_uint (Nat.to_uint n)).

(** [s.padStart(len, '0')]. *)
Definition padStart0 (len : nat) (s : str) : str :=
  replicate (len - length s)%nat "0"%char ++ s.

(** Character classes of regular expressions. *)
Definition code (c : ascii) : N := N_of_ascii c.

Definition in_range (lo hi : N) (c : ascii) : bool :=
  ((lo <=? code c) && (code c <=? hi))%N.

(** [\d] *)
Definition is_digit (c : ascii) : bool := in_range 48 57 c.

(** [\w] *)
Definition is_word (c : ascii) : bool :=
  in_range 97 122 c || in_range 65 90 c || is_digit c || Ascii.eqb c "_"%char.

(** [.] : everything but the line terminators (of which LF and CR are the
    ones below 256). *)
Definition is_dot (c : ascii) : bool :=
  negb (Ascii.eqb c "010"%char || Ascii.eqb c "013"%char).

(** *** Backtracking regular expressions

    The fragment [String.prototype.replace] is used with: literals, a
    quantified character class (greedy or lazy, [{min,max}]), sequences and
    numbered capture groups. Matching follows the order of the ECMAScript
    backtracking semantics: a greedy quantifier tries the longest repetition
    first, a lazy one the shortest, and the first complete match wins. *)
Inductive regex : Type :=
| RLit (s : str)
| RClass (p : ascii -> bool) (min : nat) (max : option nat) (greedy : bool)
| RSeq (r1 r2 : regex)
| RGroup (i : nat) (r : regex).

Definition captures := list (nat * str).

(** [l] is the start of [s]: what is left of [s]. *)
Fixpoint strip_prefix (l s : str) : option str :=
  match l, s with
  | [], _ => Some s
  | a :: l', b :: s' => if Ascii.eqb a b then strip_prefix l' s' else None
  | _ :: _, [] => None
  end.

Definition max_allows (max : option nat) : bool :=
  match max with Some O => false | _ => true end.

Definition max_pred (max : option nat) : option nat :=
  match max with Some m => Some (Nat.pred m) | None => None end.

Section Matcher.
Context {R : Type}.

(** The rest of the pattern: called on the input that is left. *)
Definition cont := str -> captures -> option R.

(** Greedy [p{min,max}]: one more character first, stop as a fallback. *)
Fixpoint rep_greedy (p : ascii -> bool) (min : nat) (max : option nat)
    (s : str) (cs : captures) (k : cont) : option R :=
  let stop := if Nat.eqb min 0 then k s cs else None in
  match s with
  | c :: s' =>
      if p c && max_allows max then
        match rep_greedy p (Nat.pred min) (max_pred max) s' cs k with
        | Some r => Some r
        | None => stop
        end
      else stop
  | [] => stop
  end.

(** Lazy [p{min,max}?]: stop first, one more character as a fallback. *)
Fixpoint rep_lazy (p : ascii -> bool) (min : nat) (max : option nat)
    (s : str) (cs : captures) (k : cont) : option R :=
  let more :=
    match s with
    | c :: s' =>
        if p c && max_allows max
        then rep_lazy p (Nat.pred min) (max_pred max) s' cs k
        else None
    | [] => None
    end in
  if Nat.eqb min 0 then
    match k s cs with
    | Some r => Some r
    | None => more
    end
  else more.

Fixpoint rmatch (r : regex) (s : str) (cs : captures) (k : cont) : option R :=
  match r with
  | RLit l =>
      match strip_prefix l s with
      | Some s' => k s' cs
      | None => None
      end
  | RClass p min max greedy =>
      if greedy then rep_greedy p min max s cs k else rep_lazy p min max s cs k
  | RSeq r1 r2 => rmatch r1 s cs (fun s' cs' => rmatch r2 s' cs' k)
  | RGroup i r' =>
      rmatch r' s cs
        (fun s' cs' => k s' ((i, take (length s - length s')%nat s) :: cs'))
  end.
End Matcher.

(** A successful match: what precedes it, the groups, what follows it. *)
Record match_result : Type := MatchResult {
  m_before : str;
  m_groups : captures;
  m_after : str
}.

(** The leftmost match: start positions are tried from left to right. *)
Fixpoint exec_from (r : regex) (before_rev : str) (s : str) : option match_result :=
  match rmatch r s [] (fun s' cs => Some (MatchResult (rev before_rev) cs s')) with
  | Some m => Some m
  | None =>
      match s with
      | c :: s' => exec_from r (c :: before_rev) s'
      | [] => None
      end
  end.

Definition exec (r : regex) (s : str) : option match_result := exec_from r [] s.

(** Replacement templates: text and [$i]. *)
Inductive piece : Type :=
| PText (s : str)
| PGroup (i : nat).

Definition group (cs : captures) (i : nat) : str :=
  match List.find (fun c => Nat.eqb (fst c) i) cs with
  | Some c => snd c
  | None => []
  end.

Definition expand (cs : captures) (t : list piece) : str :=
  flat_map (fun p => match p with PText s => s | PGroup i => group cs i end) t.

(** [s.replace(r, t)] for a regular expression without the [g] flag: the
    first match is replaced, a string without a match is returned as is. *)
Definition replace (s : str) (r : regex) (t : list piece) : str :=
  match exec r s with
  | Some m => m_before m ++ expand (m_groups m) t ++ m_after m
  | None => s
  end.

End Js.

(* ===================================================================== *)
(** ** backend/Src/Common/Util.ts *)
(* ===================================================================== *)
Module Util.
Import Js.

(** What the sources read of a parsed [URL]. *)
Record URL : Type := mkURL {
  hostname : str;
  pathname : str
}.

(** The exceptions of this module. *)
Inductive exn : Type :=
| ERR_INVALID_URL (input : str)
| Error (msg : str).

(** What the sources read of a [dayjs()] instant (the month counted from 1). *)
Record DateTime : Type := mkDateTime {
  year : nat;
  month : nat;
  day : nat;
  hour : nat;
  minute : nat;
  second : nat
}.

(** An instant of the calendar whose year has four digits. *)
Definition DateTime_ok (t : DateTime) : Prop :=
  1000 <= Z.of_nat (year t) <= 9999 /\
  (1 <= month t <= 12 /\ 1 <= day t <= 31 /\
   hour t <= 23 /\ minute t <= 59 /\ second t <= 59)%nat.

(** [dayjs().format('DDMMYYYYHHmmss')]: every field but the year is padded
    to two digits, the year to four. *)
Definition format_DDMMYYYYHHmmss (t : DateTime) : str :=
  padStart0 2 (String_of_nat (day t)) ++
  padStart0 2 (String_of_nat (month t)) ++
  padStart0 4 (String_of_nat (year t)) ++
  padStart0 2 (String_of_nat (hour t)) ++
  padStart0 2 (String_of_nat (minute t)) ++
  padStart0 2 (String_of_nat (second t)).

(** The check that a field padded to [len] characters has [len] digits. *)
Definition padded_ok (len n : nat) : bool :=
  Nat.eqb (length (padStart0 len (String_of_nat n))) len &&
  forallb is_digit (padStart0 len (String_of_nat n)).

(** [Buffer.alloc(n)]: [n] zero bytes. *)
Definition Buffer_alloc (n : nat) : list Byte.byte := replicate n Byte.x00.

(** [Crypto.randomFillSync(buf)]: every byte of the buffer is overwritten
    with the next byte of the entropy source. *)
Definition randomFillSync (entropy : nat -> Byte.byte) (buf : list Byte.byte)
  : list Byte.byte :=
  imap (fun i _ => entropy i) buf.

Definition hex_digit (n : N) : ascii :=
  if (n <? 10)%N then ascii_of_N (48 + n) else ascii_of_N (87 + n).

(** [buf.toString('hex')]: two lowercase digits a byte. *)
Definition toString_hex (buf : list Byte.byte) : str :=
  flat_map
    (fun b => [hex_digit (Byte.to_N b / 16); hex_digit (Byte.to_N b mod 16)])
    buf.

(** The six hexadecimal digits both generators draw:
    [Crypto.randomFillSync(Buffer.alloc(3)).toString('hex')]. *)
Definition unique_suffix (entropy : nat -> Byte.byte) : str :=
  let buf := Buffer_alloc 3 in
  toString_hex (randomFillSync entropy buf).

(** [[a-f0-9]] *)
Definition is_hex (c : ascii) : bool := in_range 97 102 c || in_range 48 57 c.

(** [[\w+.]] *)
Definition is_word_plus_dot (c : ascii) : bool :=
  is_word c || Ascii.eqb c "+"%char || Ascii.eqb c "."%char.

(** [_\d{14}_], the end of the first group. *)
Definition clip_stamp : regex :=
  RSeq (RLit (lit "_"))
  (RSeq (RClass is_digit 14 (Some 14%nat) true)
        (RLit (lit "_"))).

(** [[\w+.]+_.+_\d{14}_], the inside of the first group. *)
Definition clip_head : regex :=
  RSeq (RClass is_word_plus_dot 1 None true)
  (RSeq (RLit (lit "_"))
  (RSeq (RClass is_dot 1 None true)
        clip_stamp)).

(** [([a-f0-9]{6}?)(\.mp4)], the second and third groups. *)
Definition clip_suffix : regex :=
  RSeq (RGroup 2 (RClass is_hex 6 (Some 6%nat) false))
       (RGroup 3 (RLit (lit ".mp4"))).

(** [/([\w+.]+_.+_\d{14}_)([a-f0-9]{6}?)(\.mp4)/] *)
Definition clip_regex : regex :=
  RSeq (RGroup 1 clip_head) clip_suffix.

Section WithUrlParser.
(** [new URL(url)], which Node provides: [None] when it throws. *)
Variable URL_new : str -> option URL.

Definition UsernameFromUrl (url : str) : outcome exn (option str) :=
  match URL_new url with
  | None => Thrown (ERR_INVALID_URL url)
  | Some u =>
      let path := split "/"%char (pathname u) in
      Done (path !! 1%nat)
  end.

Definition GenFilename (url : str) (entropy : nat -> Byte.byte) (now : DateTime)
  : outcome exn str :=
  match URL_new url with
  | None => Thrown (ERR_INVALID_URL url)
  | Some u =>
      let unique := unique_suffix entropy in
      match UsernameFromUrl url with
      | Done user =>
          Done (hostname u ++ lit "_" ++ interpolate user ++ lit "_" ++
                format_DDMMYYYYHHmmss now ++ lit "_" ++ unique ++ lit ".mp4")
      | Thrown e => Thrown e
      | Exited c => Exited c
      end
  end.
End WithUrlParser.

(** The replacement is [`$1${unique}$3`]: the first group, the fresh digits
    and the third group. (With three groups, [$1] followed by a digit of
    [unique] is still the first group followed by that digit.) *)
Definition GenClipFilename (filename : str) (entropy : nat -> Byte.byte) : str :=
  let unique := unique_suffix entropy in
  replace filename clip_regex [PGroup 1; PText unique; PGroup 3].

Section Wrappers.
Context {E Args Ctx V : Type}.
(** The value [null]. *)
Variable null : V.

Definition IE (fn : Args -> outcome E V) (args : Args) : outcome E V :=
  match fn args with
  | Done v => Done v
  | Thrown _ => Done null
  | Exited c => Exited c
  end.

(** [fn.bind(context)(...args)]. *)
Definition IEM (fn : Ctx -> Args -> outcome E V) (context : Ctx) (args : Args)
  : outcome E V :=
  match fn context args with
  | Done v => Done v
  | Thrown _ => Done null
  | Exited c => Exited c
  end.

(** An [async] function hands a promise back whatever its body does; the
    body awaits what [fn] returns inside the [try]. *)
Definition AIE (fn : Args -> outcome E (awaitable E V)) (args : Args)
  : outcome E (promise E V) :=
  match fn args with
  | Done (Plain v) => Done (Resolved v)
  | Done (Prom (Resolved v)) => Done (Resolved v)
  | Done (Prom (Rejected _)) => Done (Resolved null)
  | Done (Prom Pending) => Done Pending
  | Thrown _ => Done (Resolved null)
  | Exited c => Exited c
  end.
End Wrappers.

Section FolderSize.
Context {E : Type}.
(** The package get-folder-size: the arguments [(err, size)] it calls the
    callback with for a path, [None] if it never calls it. *)
Variable getFolderSize : str -> option (option E * Z).

Definition GetFolderSize (path : str) : promise E Z :=
  match getFolderSize path with
  | Some (Some err, _) => Rejected err
  | Some (None, size) => Resolved size
  | None => Pending
  end.
End FolderSize.

(** [Crypto.randomBytes(size)]: a size that is not in [0, 2^31 - 1] is
    refused with a RangeError, otherwise the buffer holds that many bytes
    of the entropy source. *)
Definition randomBytes (entropy : nat -> Byte.byte) (size : Z)
  : outcome exn (list Byte.byte) :=
  if (0 <=? size) && (size <=? 2147483647)
  then Done (map entropy (seq 0 (Z.to_nat size)))
  else Thrown (Error (lit "ERR_OUT_OF_RANGE")).

(** [buf.toString('hex')] on a buffer of any length: two digits a byte,
    and an error for a string longer than the engine allows
    ([buffer.constants.MAX_STRING_LENGTH], which depends on the platform). *)
Definition toString_hex_checked (MAX_STRING_LENGTH : Z) (buf : list Byte.byte)
  : outcome exn str :=
  if 2 * Z.of_nat (length buf) <=? MAX_STRING_LENGTH
  then Done (toString_hex buf)
  else Thrown (Error (lit "ERR_STRING_TOO_LONG")).

Definition RandomHexString (MAX_STRING_LENGTH : Z) (entropy : nat -> Byte.byte)
    (bytes : Z) : outcome exn str :=
  match randomBytes entropy bytes with
  | Done buf => toString_hex_checked MAX_STRING_LENGTH buf
  | Thrown e => Thrown e
  | Exited c => Exited c
  end.

(** [s.endsWith(suffix)]. *)
Definition endsWith (s suffix : str) : bool :=
  match strip_prefix (rev suffix) (rev s) with
  | Some _ => true
  | None => false
  end.

(** What the sources read of an [fs.Stats]. *)
Record Stats : Type := mkStats {
  size : Z;
  isDirectory : bool
}.

(** An entry of [FindDanglingEntries]. *)
Record Entry : Type := mkEntry {
  entry_filename : str;
  entry_size : Z
}.

(** [Promise.all]: the values in order once every promise is resolved, a
    rejection if one is rejected (the first of the list here; which one
    wins is a matter of timing), pending otherwise. *)
Fixpoint Promise_all {E A : Type} (ps : list (promise E A)) : promise E (list A) :=
  match ps with
  | [] => Resolved []
  | p :: ps' =>
      match p, Promise_all ps' with
      | Rejected e, _ => Rejected e
      | _, Rejected e => Rejected e
      | Resolved a, Resolved l => Resolved (a :: l)
      | _, _ => Pending
      end
  end.

Section Files.
Context {E : Type}.
(** [util.promisify(fs.lstat)] and [util.promisify(fs.readdir)], which
    return promises, and [Path.join]. *)
Variable lstat : str -> promise E Stats.
Variable readdir : str -> promise E (list str).
Variable Path_join : str -> str -> str.

(** The promise of [lstat] as [AIE] receives it; [None] is [null]. *)
Definition lstat_call (filename : str)
  : outcome E (awaitable E (option Stats)) :=
  Done (Prom match lstat filename with
             | Resolved stat => Resolved (Some stat)
             | Rejected e => Rejected e
             | Pending => Pending
             end).

(** [stat && stat.size || -1]: [null] and a size of zero are falsy. *)
Definition size_or_minus_one (stat : option Stats) : Z :=
  match stat with
  | Some s => if size s =? 0 then -1 else size s
  | None => -1
  end.

(** The promise an [async] function returns for the outcome of its body. *)
Definition async {A : Type} (body : outcome E (promise E A))
  : outcome E (promise E A) :=
  match body with
  | Done p => Done p
  | Thrown e => Done (Rejected e)
  | Exited c => Exited c
  end.

Definition FileSize (filename : str) : outcome E (promise E Z) :=
  async
    match AIE None lstat_call filename with
    | Done (Resolved stat) => Done (Resolved (size_or_minus_one stat))
    | Done (Rejected e) => Done (Rejected e)
    | Done Pending => Done Pending
    | Thrown e => Thrown e
    | Exited c => Exited c
    end.

(** [x => x.endsWith('.mp4') && !e.has(x)] *)
Definition dangling_candidate (excludes : list str) (x : str) : bool :=
  endsWith x (lit ".mp4") && negb (bool_decide (x ∈ excludes)).

(** [async (x) => ({ filename: x, stat: await AIE(async () => await
    lstat(Path.join(path, x))) })]: the promise of a name with its stat. *)
Definition stat_entry (path x : str) : promise E (str * option Stats) :=
  match AIE None (fun _ : unit => lstat_call (Path_join path x)) tt with
  | Done (Resolved stat) => Resolved (x, stat)
  | Done (Rejected e) => Rejected e
  | Done Pending => Pending
  | Thrown e => Rejected e
  | Exited _ => Pending
  end.

(** [x => x.stat && !x.stat.isDirectory()] *)
Definition is_file (x : str * option Stats) : bool :=
  match x.2 with
  | Some s => negb (isDirectory s)
  | None => false
  end.

(** [x => ({ filename: x.filename, size: x.stat!.size })]; the map runs
    after the filter, so on entries with a stat only. *)
Definition to_entry (x : str * option Stats) : Entry :=
  {| entry_filename := x.1;
     entry_size := match x.2 with Some s => size s | None => 0 end |}.

Definition FindDanglingEntries (path : str) (excludes : list str)
  : promise E (list Entry) :=
  match readdir path with
  | Rejected e => Rejected e
  | Pending => Pending
  | Resolved names =>
      match Promise_all
              (map (stat_entry path)
                   (List.filter (dangling_candidate excludes) names)) with
      | Resolved stats => Resolved (map to_entry (List.filter is_file stats))
      | Rejected e => Rejected e
      | Pending => Pending
      end
  end.
End Files.

End Util.

(* ===================================================================== *)
(** ** src/Components/Observables/EditObservableDialog.vue *)
(* ===================================================================== *)
Module Dialog.

(** The fields of the client's [Plugin] and [Stream] the dialog reads. *)
Record Plugin : Type := mkPlugin {
  name : string;
  enabled : bool
}.

Record Stream : Type := mkStream {
  uri : string;
  plugins : list Plugin
}.

(** The getter [Plugins]: the claimant list of the observable the dialog
    is opened on, in the order of precedence the store keeps it in. *)
Definition Plugins (observables : list Stream) (target : string) : list Plugin :=
  match List.find (fun o => String.eqb (uri o) target) observables with
  | Some stream => plugins stream
  | None => []
  end.

(** The getter [ActivePlugin]: [find] returns the first element the
    predicate holds of, or [undefined], which [|| null] turns into [null]
    (an object is never falsy). *)
Definition ActivePlugin (observables : list Stream) (target : string) : option Plugin :=
  List.find enabled (Plugins observables target).

End Dialog.

(* ===================================================================== *)
(** ** The router of the client (its navigation guard) *)
(* ===================================================================== *)
Module Router.
Import Js.

(** What the guard reads of the route it is asked for: [to.path] and
    [to.meta?.access], which is [undefined] for a route without [meta]
    (the levels of [AppAccessType], whose file is not in the tree, are
    the numbers the guard compares). *)
Record Route : Type := mkRoute {
  path : string;
  meta_access : option Z
}.

(** How the guard calls [next]: [next()] or [next('/')]. *)
Inductive Navigation : Type :=
| Proceed
| Redirect (to : string).

(** What the guard meets in the stores, in the order it asks:
    the promise of [app.AwaitInitialization(1000)], [access.access] when it
    is first read, the promise of [access.AwaitAccessUpgrade(500)],
    [access.access] after that wait, the promise of
    [access.RequestPassphrase()]. *)
Record Stores (E : Type) : Type := mkStores {
  AwaitInitialization : promise E unit;
  access_first : Z;
  AwaitAccessUpgrade : promise E unit;
  access_then : Z;
  RequestPassphrase : promise E bool
}.
Arguments AwaitInitialization {E} s.
Arguments access_first {E} s.
Arguments AwaitAccessUpgrade {E} s.
Arguments access_then {E} s.
Arguments RequestPassphrase {E} s.

(** [a <= b] with [a] possibly [undefined]: a comparison with [undefined]
    is false. *)
Definition le_access (a : option Z) (b : Z) : bool :=
  match a with
  | Some x => x <=? b
  | None => false
  end.

(** [a > b] with [a] possibly [undefined]. *)
Definition gt_access (a : option Z) (b : Z) : bool :=
  match a with
  | Some x => x >? b
  | None => false
  end.

(** The guard [router.beforeEach]: how [next] is called, [None] when a
    promise it awaits never settles. Every rejection inside the [try] ends
    in [next('/')]. *)
Definition beforeEach {E : Type} (to : Route) (s : Stores E)
  : option Navigation :=
  if String.eqb (path to) "/dashboard" then Some Proceed
  else
    match AwaitInitialization s with
    | Pending => None
    | Rejected _ => Some (Redirect "/")
    | Resolved _ =>
        if le_access (meta_access to) (access_first s) then Some Proceed
        else
          match AwaitAccessUpgrade s with
          | Pending => None
          | Rejected _ => Some (Redirect "/")
          | Resolved _ =>
              if gt_access (meta_access to) (access_then s) &&
                 negb (String.eqb (path to) "/dashboard")
              then
                match RequestPassphrase s with
                | Pending => None
                | Rejected _ => Some (Redirect "/")
                | Resolved true => Some Proceed
                | Resolved false => Some (Redirect "/")
                end
              else Some Proceed
          end
    end.

End Router.

(* ===================================================================== *)
(** ** Services/RecordingService (modelled) *)
(* ===================================================================== *)
Module Recorder.

(** Modelled from the spec: a session as [Records] shows it, whose type is
    not in the tree: "label (derived from observable + plugin)" and the
    source it captures. *)
Record Session : Type := mkSession {
  label : string;
  source : string
}.

(** Modelled from the spec: the stop and start events of the recording
    service, whose class is not in the tree. *)
Inductive Event : Type :=
| Started (l : string)
| Stopped (l : string).

Global Instance Event_eq_dec : EqDecision Event.
Proof. solve_decision. Defined.

(** Modelled from the spec: the class RecordingService of
    Services/RecordingService is not in the tree. The specification gives
    it the set of in-progress sessions, one per label (each with its
    source), and the events it emits. *)
Record RecordingService : Type := mkRecordingService {
  sessions : gmap string string;
  emitted : list Event
}.

(** Modelled from the spec: "Records -> sequence of active sessions
    (read-only snapshot)". *)
Definition Records (rs : RecordingService) : list Session :=
  map (fun s => mkSession s.1 s.2) (map_to_list (sessions rs)).

(** Modelled from the spec: "StopRecording(label) (idempotent: no-op and no
    error if already stopped)"; a stop releases the session slot and emits
    the stop event the capture process completes later. *)
Definition StopRecording (l : string) (rs : RecordingService)
  : Js.outcome string RecordingService :=
  match sessions rs !! l with
  | Some _ =>
      Js.Done {| sessions := delete l (sessions rs);
                 emitted := emitted rs ++ [Stopped l] |}
  | None => Js.Done rs
  end.

(** Modelled from the spec: the count of "stop events" emitted for a label,
    which the idempotence of [StopRecording] is stated on. *)
Definition stops_of (l : string) (es : list Event) : nat :=
  length (filter (fun e => e = Stopped l) es).

End Recorder.

(* ===================================================================== *)
(** ** Services/SystemResourcesMonitor (modelled) *)
(* ===================================================================== *)
Module Monitor.
Import Js.

(** Modelled from the spec: the class SystemResourcesMonitor of
    Services/SystemResourcesMonitor is not in the tree. The specification
    gives it the sample that is current, the updates it has published and
    the log; [polls] counts the turns of the loop. *)
Record SystemResourcesMonitor : Type := mkMonitor {
  current : option Z;
  published : list Z;
  log : list string;
  polls : nat
}.

Section Polling.
Context {E : Type}.
(** How an error prints in the log. *)
Variable describe : E -> string.

(** Modelled from the spec: one turn of the polling loop. "Failure to
    sample (path missing, I/O error) is logged and the previous sample is
    retained; it never crashes the polling loop." The sample is the
    promise [Util.GetFolderSize] returned for the archive root. *)
Definition Poll (sample : promise E Z) (m : SystemResourcesMonitor)
  : SystemResourcesMonitor :=
  match sample with
  | Resolved size =>
      {| current := Some size;
         published := published m ++ [size];
         log := log m;
         polls := S (polls m) |}
  | Rejected err =>
      {| current := current m;
         published := published m;
         log := log m ++ [describe err];
         polls := S (polls m) |}
  | Pending =>
      {| current := current m;
         published := published m;
         log := log m;
         polls := S (polls m) |}
  end.

(** Modelled from the spec: the polling loop ("periodically (fixed
    interval) samples disk ... usage under the archive root"), one turn a
    tick of the timer; the disk answers turn [i] with the [i]-th element. *)
Definition Loop (root : str) (disk : list (str -> option (option E * Z)))
    (m : SystemResourcesMonitor) : SystemResourcesMonitor :=
  foldl (fun m getFolderSize => Poll (Util.GetFolderSize getFolderSize root) m)
        m disk.

(** The errors of the turns that fail to sample the root, in order. *)
Definition failures (root : str) (disk : list (str -> option (option E * Z)))
  : list E :=
  omap (fun g => match Util.GetFolderSize g root with
                 | Rejected err => Some err
                 | _ => None
                 end) disk.

(** The samples of the turns that succeed, in order. *)
Definition samples (root : str) (disk : list (str -> option (option E * Z)))
  : list Z :=
  omap (fun g => match Util.GetFolderSize g root with
                 | Resolved size => Some size
                 | _ => None
                 end) disk.
End Polling.

End Monitor.

(* ===================================================================== *)
(** ** The bootstrap class [App] *)
(* ===================================================================== *)
Module App.
Import Js.

(** The fields of [Plugin] (Common/Types) the bootstrap touches. *)
Record Plugin : Type := mkPlugin {
  id : Z;
  name : string;
  enabled : bool
}.

Record ObservableStream : Type := mkObservableStream {
  url : string;
  lastSeen : Z;
  plugins : list Plugin
}.

Record ArchiveRecord : Type := mkArchiveRecord {
  filename : string;
  locked : bool;
  tags : gset string
}.

(** The rows the storage adapter fetches. *)
Record PluginRow : Type := mkPluginRow {
  row_id : Z;
  row_name : string;
  row_enabled : bool
}.

Record ObservableRow : Type := mkObservableRow {
  row_url : string;
  row_lastSeen : Z;
  row_plugins : list string
}.

Record TagRow : Type := mkTagRow {
  tag_filename : string;
  tag : string
}.

Record Settings : Type := mkSettings {
  storageQuota : Z;
  instanceQuota : Z;
  downloadSpeedQuota : Z
}.

Record Db : Type := mkDb {
  initialized : bool;
  plugin_rows : list PluginRow;
  observable_rows : list ObservableRow;
  archive_rows : list string;
  tag_rows : list TagRow;
  settings_row : Settings
}.

(** The three quota classes of Services/PluginManager/Quotas. *)
Inductive ArbiterClass : Type :=
| StorageQuota
| InstanceQuota
| DownloadSpeedQuota.

Record Arbiter : Type := mkArbiter {
  arbiter_class : ArbiterClass;
  Quota : Z
}.

(** Calls to collaborators whose effect stays outside the bootstrap. *)
Inductive Call : Type :=
| new_Sqlite3 (location : string)
| new_SqliteAdapter
| new_Settings
| AddWriter_SqliteWriter
| new_NotificationCenter
| process_on_SIGTERM
| io_on_connection
| linkedStreams_AddPlugin (id : Z)
| linkedStreams_Initialize
| pluginManager_Start
| pluginManager_Stop
| new_AppFacade
| new_RecorderListener
| new_PluginManagerListener
| server_listen (port : Z).

Global Instance Call_eq_dec : EqDecision Call.
Proof. solve_decision. Defined.

Section Bootstrap.
(** The type of the arbiter ids of Quotas/Constants. *)
Context {K : Type} `{Countable K}.

(** What the methods of [App] read and write. *)
Record World : Type := mkWorld {
  (** the entries of the file system that exist *)
  fs : gset string;
  (** the error [fs.mkdirSync] meets on a path, if any *)
  mkdir_error : string -> option string;
  (** the database file *)
  db : Db;
  (** what [Logger.Get.Log] has written *)
  logged : list string;
  (** the calls made to collaborators, oldest first *)
  calls : list Call;
  (** [pluginManager.Plugins], in the global order *)
  registry : list Plugin;
  (** the map [observables] *)
  observables : gmap string ObservableStream;
  (** the list [archive] *)
  archive : list ArchiveRecord;
  (** the arbiters of [pluginManagerController], by id *)
  arbiters : gmap K Arbiter;
  (** the interceptors of [pluginManagerListener] *)
  interceptors : list Arbiter;
  (** the static field of [RpcRequestHandlerImpl] *)
  pluginListenerInterceptFn : option Arbiter;
  (** the recording service *)
  recorder : Recorder.RecordingService;
  (** [awaitedRecordings] of every handler [Shutdown] has put on [CompleteEvent] *)
  awaiting : list Z
}.

Definition with_fs (f : gset string -> gset string)
    (w : World) : World :=
  {| fs := f (fs w);
     mkdir_error := mkdir_error w;
     db := db w;
     logged := logged w;
     calls := calls w;
     registry := registry w;
     observables := observables w;
     archive := archive w;
     arbiters := arbiters w;
     interceptors := interceptors w;
     pluginListenerInterceptFn := pluginListenerInterceptFn w;
     recorder := recorder w;
     awaiting := awaiting w |}.

Definition with_db (f : Db -> Db)
    (w : World) : World :=
  {| fs := fs w;
     mkdir_error := mkdir_error w;
     db := f (db w);
     logged := logged w;
     calls := calls w;
     registry := registry w;
     observables := observables w;
     archive := archive w;
     arbiters := arbiters w;
     interceptors := interceptors w;
     pluginListenerInterceptFn := pluginListenerInterceptFn w;
     recorder := recorder w;
     awaiting := awaiting w |}.

Definition with_logged (f : list string -> list string)
    (w : World) : World :=
  {| fs := fs w;
     mkdir_error := mkdir_error w;
     db := db w;
     logged := f (logged w);
     calls := calls w;
     registry := registry w;
     observables := observables w;
     archive := archive w;
     arbiters := arbiters w;
     interceptors := interceptors w;
     pluginListenerInterceptFn := pluginListenerInterceptFn w;
     recorder := recorder w;
     awaiting := awaiting w |}.

Definition with_calls (f : list Call -> list Call)
    (w : World) : World :=
  {| fs := fs w;
     mkdir_error := mkdir_error w;
     db := db w;
     logged := logged w;
     calls := f (calls w);
     registry := registry w;
     observables := observables w;
     archive := archive w;
     arbiters := arbiters w;
     interceptors := interceptors w;
     pluginListenerInterceptFn := pluginListenerInterceptFn w;
     recorder := recorder w;
     awaiting := awaiting w |}.

Definition with_registry (f : list Plugin -> list Plugin)
    (w : World) : World :=
  {| fs := fs w;
     mkdir_error := mkdir_error w;
     db := db w;
     logged := logged w;
     calls := calls w;
     registry := f (registry w);
     observables := observables w;
     archive := archive w;
     arbiters := arbiters w;
     interceptors := interceptors w;
     pluginListenerInterceptFn := pluginListenerInterceptFn w;
     recorder := recorder w;
     awaiting := awaiting w |}.

Definition with_observables (f : gmap string ObservableStream -> gmap string ObservableStream)
    (w : World) : World :=
  {| fs := fs w;
     mkdir_error := mkdir_error w;
     db := db w;
     logged := logged w;
     calls := calls w;
     registry := registry w;
     observables := f (observables w);
     archive := archive w;
     arbiters := arbiters w;
     interceptors := interceptors w;
     pluginListenerInterceptFn := pluginListenerInterceptFn w;
     recorder := recorder w;
     awaiting := awaiting w |}.

Definition with_archive (f : list ArchiveRecord -> list ArchiveRecord)
    (w : World) : World :=
  {| fs := fs w;
     mkdir_error := mkdir_error w;
     db := db w;
     logged := logged w;
     calls := calls w;
     registry := registry w;
     observables := observables w;
     archive := f (archive w);
     arbiters := arbiters w;
     interceptors := interceptors w;
     pluginListenerInterceptFn := pluginListenerInterceptFn w;
     recorder := recorder w;
     awaiting := awaiting w |}.

Definition with_arbiters (f : gmap K Arbiter -> gmap K Arbiter)
    (w : World) : World :=
  {| fs := fs w;
     mkdir_error := mkdir_error w;
     db := db w;
     logged := logged w;
     calls := calls w;
     registry := registry w;
     observables := observables w;
     archive := archive w;
     arbiters := f (arbiters w);
     interceptors := interceptors w;
     pluginListenerInterceptFn := pluginListenerInterceptFn w;
     recorder := recorder w;
     awaiting := awaiting w |}.

Definition with_interceptors (f : list Arbiter -> list Arbiter)
    (w : World) : World :=
  {| fs := fs w;
     mkdir_error := mkdir_error w;
     db := db w;
     logged := logged w;
     calls := calls w;
     registry := registry w;
     observables := observables w;
     archive := archive w;
     arbiters := arbiters w;
     interceptors := f (interceptors w);
     pluginListenerInterceptFn := pluginListenerInterceptFn w;
     recorder := recorder w;
     awaiting := awaiting w |}.

Definition with_pluginListenerInterceptFn (f : option Arbiter -> option Arbiter)
    (w : World) : World :=
  {| fs := fs w;
     mkdir_error := mkdir_error w;
     db := db w;
     logged := logged w;
     calls := calls w;
     registry := registry w;
     observables := observables w;
     archive := archive w;
     arbiters := arbiters w;
     interceptors := interceptors w;
     pluginListenerInterceptFn := f (pluginListenerInterceptFn w);
     recorder := recorder w;
     awaiting := awaiting w |}.

Definition with_recorder (f : Recorder.RecordingService -> Recorder.RecordingService)
    (w : World) : World :=
  {| fs := fs w;
     mkdir_error := mkdir_error w;
     db := db w;
     logged := logged w;
     calls := calls w;
     registry := registry w;
     observables := observables w;
     archive := archive w;
     arbiters := arbiters w;
     interceptors := interceptors w;
     pluginListenerInterceptFn := pluginListenerInterceptFn w;
     recorder := f (recorder w);
     awaiting := awaiting w |}.

Definition with_awaiting (f : list Z -> list Z)
    (w : World) : World :=
  {| fs := fs w;
     mkdir_error := mkdir_error w;
     db := db w;
     logged := logged w;
     calls := calls w;
     registry := registry w;
     observables := observables w;
     archive := archive w;
     arbiters := arbiters w;
     interceptors := interceptors w;
     pluginListenerInterceptFn := pluginListenerInterceptFn w;
     recorder := recorder w;
     awaiting := f (awaiting w) |}.

(** An exception is the text [`${e}`] prints. *)
Definition exn : Type := string.

(** A method of [App]: it runs in a world, and returns, throws or ends
    the process. *)
Definition M (A : Type) : Type := World -> outcome exn A * World.

Definition ret {A : Type} (a : A) : M A := fun w => (Done a, w).

Definition bind {A B : Type} (m : M A) (f : A -> M B) : M B :=
  fun w =>
    match m w with
    | (Done a, w') => f a w'
    | (Thrown e, w') => (Thrown e, w')
    | (Exited c, w') => (Exited c, w')
    end.

Definition throw {A : Type} (e : exn) : M A := fun w => (Thrown e, w).

(** [process.exit(code)]. *)
Definition process_exit {A : Type} (code : Z) : M A :=
  fun w => (Exited code, w).

(** [try { m } catch (e) { h e }]. *)
Definition try_catch {A : Type} (m : M A) (h : exn -> M A) : M A :=
  fun w =>
    match m w with
    | (Thrown e, w') => h e w'
    | r => r
    end.

Definition get {A : Type} (f : World -> A) : M A := fun w => (Done (f w), w).

Definition modify (f : World -> World) : M unit := fun w => (Done tt, f w).

(** [l.forEach(f)]. *)
Fixpoint forEach {A : Type} (l : list A) (f : A -> M unit) : M unit :=
  match l with
  | [] => ret tt
  | x :: l' => bind (f x) (fun _ => forEach l' f)
  end.

Local Notation "x <- m ;; k" := (bind m (fun x => k))
  (at level 100, m at next level, k at level 200, right associativity).
Local Notation "m >> k" := (bind m (fun _ => k))
  (at level 100, k at level 200, right associativity).

(** [Logger.Get.Log(msg)]. *)
Definition Log (msg : string) : M unit :=
  modify (with_logged (fun l => l ++ [msg])).

(** A call to a collaborator that returns nothing the bootstrap reads. *)
Definition call (c : Call) : M unit :=
  modify (with_calls (fun l => l ++ [c])).

(** [fs.existsSync(path)]. *)
Definition existsSync (path : string) : M bool :=
  get (fun w => bool_decide (path ∈ fs w)).

(** [fs.mkdirSync(path)]: throws on an entry that exists and on the
    errors of the system (permissions, a missing parent), creates the
    directory otherwise. *)
Definition mkdirSync (path : string) : M unit :=
  fun w =>
    if bool_decide (path ∈ fs w) then (Thrown ("EEXIST: " +:+ path), w)
    else match mkdir_error w path with
         | Some e => (Thrown e, w)
         | None => (Done tt, with_fs (fun s => {[path]} ∪ s) w)
         end.

(** Modelled from the spec: [pluginManager.FindPlugin(name)], of
    Services/PluginManager, which is not in the tree:
    "Find(name) -> Plugin|None". *)
Definition FindPlugin (n : string) : M (option Plugin) :=
  get (fun w => List.find (fun p => String.eqb (name p) n) (registry w)).

(** The assignments [p.id = x.id; p.enabled = x.enabled] on the plugin
    object [FindPlugin] returned: the first of that name. *)
Fixpoint assign_plugin (x : PluginRow) (l : list Plugin) : list Plugin :=
  match l with
  | [] => []
  | p :: l' =>
      if String.eqb (name p) (row_name x)
      then {| id := row_id x; name := name p; enabled := row_enabled x |} :: l'
      else p :: assign_plugin x l'
  end.

(** The place of an id in the order asked for, the length of the order
    for an id that is not listed. *)
Fixpoint rank (order : list Z) (i : Z) : nat :=
  match order with
  | [] => O
  | j :: order' => if Z.eqb i j then O else S (rank order' i)
  end.

(** Modelled from the spec: [pluginManager.ReorderPlugins(ids)], of
    Services/PluginManager, which is not in the tree: "rewrites the global
    precedence ordinal for each listed plugin; ids not listed retain
    relative order after the listed ones". *)
Definition reorder (order : list Z) (l : list Plugin) : list Plugin :=
  flat_map (fun r => List.filter (fun p => Nat.eqb (rank order (id p)) r) l)
           (seq 0 (S (length order))).

Section Constants.
(** Constants.ts and BootstrapConfiguration.ts are not in the tree. *)
Variables DATA_FOLDER ARCHIVE_FOLDER THUMBNAIL_FOLDER DB_LOCATION : string.
Variable Port : Z.
(** Quotas/Constants.ts is not in the tree. *)
Variables STORAGE_QUOTA_ID INSTANCE_QUOTA_ID DOWNLOAD_SPEED_QUOTA : K.
(** [storage.Initialize(names)] of Services/SqliteAdapter, which is not
    in the tree: what it makes of the database file. *)
Variable storage_Initialize : list string -> Db -> Db.

Definition IsDataMounted : M bool := existsSync DATA_FOLDER.

Definition InitializeDb : M unit :=
  names <- get (fun w => map name (registry w)) ;;
  modify (with_db (storage_Initialize names)).

Definition PrepareFileSystem : M unit :=
  archive_exists <- existsSync ARCHIVE_FOLDER ;;
  if negb archive_exists then
    mkdirSync ARCHIVE_FOLDER >>
    mkdirSync THUMBNAIL_FOLDER
  else
    thumbnail_exists <- existsSync THUMBNAIL_FOLDER ;;
    if negb thumbnail_exists then mkdirSync THUMBNAIL_FOLDER else ret tt.

(** [`${x.url} has missing plugin '${name}'`]. *)
Definition missing_plugin_message (x : ObservableRow) (n : string) : string :=
  row_url x +:+ " has missing plugin '" +:+ n +:+ "'".

(** The loop [for (const name of x.plugins)] of [LoadData]: [None] when
    it leaves the callback on a missing plugin. *)
Fixpoint collect_plugins (x : ObservableRow) (names : list string)
    (plugins : list Plugin) : M (option (list Plugin)) :=
  match names with
  | [] => ret (Some plugins)
  | n :: names' =>
      plugin <- FindPlugin n ;;
      match plugin with
      | None =>
          Log (missing_plugin_message x n) >>
          ret None
      | Some p => collect_plugins x names' (plugins ++ [p])
      end
  end.

(** [archive.find(y => y.filename === x.filename)?.tags.add(x.tag)]. *)
Fixpoint add_tag (x : TagRow) (l : list ArchiveRecord) : list ArchiveRecord :=
  match l with
  | [] => []
  | y :: l' =>
      if String.eqb (filename y) (tag_filename x)
      then {| filename := filename y; locked := locked y;
              tags := {[tag x]} ∪ tags y |} :: l'
      else y :: add_tag x l'
  end.

(** The callback of [pluginState.forEach]. *)
Definition load_plugin (x : PluginRow) : M unit :=
  p <- FindPlugin (row_name x) ;;
  match p with
  | None => ret tt
  | Some _ =>
      modify (with_registry (assign_plugin x)) >>
      call (linkedStreams_AddPlugin (row_id x))
  end.

(** The callback of [FetchObservables().forEach]. *)
Definition load_observable (x : ObservableRow) : M unit :=
  plugins <- collect_plugins x (row_plugins x) [] ;;
  match plugins with
  | None => ret tt
  | Some ps =>
      modify (with_observables
        (insert (row_url x)
           {| url := row_url x; lastSeen := row_lastSeen x; plugins := ps |}))
  end.

Definition LoadData : M unit :=
  pluginState <- get (fun w => plugin_rows (db w)) ;;
  forEach pluginState load_plugin >>
  modify (with_registry (reorder (map row_id pluginState))) >>
  rows <- get (fun w => observable_rows (db w)) ;;
  forEach rows load_observable >>
  records <- get (fun w => archive_rows (db w)) ;;
  modify (with_archive (fun _ =>
    map (fun x => {| filename := x; locked := false; tags := ∅ |}) records)) >>
  tagRows <- get (fun w => tag_rows (db w)) ;;
  forEach tagRows (fun x => modify (with_archive (add_tag x))).

(** The plugins of a list of names in a registry, if none is missing. *)
Fixpoint resolve (reg : list Plugin) (names : list string)
  : option (list Plugin) :=
  match names with
  | [] => Some []
  | n :: names' =>
      match List.find (fun p => String.eqb (name p) n) reg with
      | None => None
      | Some p =>
          match resolve reg names' with
          | Some ps => Some (p :: ps)
          | None => None
          end
      end
  end.

(** The first name of a list that a registry does not have. *)
Fixpoint first_missing (reg : list Plugin) (names : list string)
  : option string :=
  match names with
  | [] => None
  | n :: names' =>
      match List.find (fun p => String.eqb (name p) n) reg with
      | None => Some n
      | Some _ => first_missing reg names'
      end
  end.

(** The observables a list of rows leaves in a map, for a registry: a row
    with a missing plugin leaves none. *)
Definition loaded_observables (reg : list Plugin) (rows : list ObservableRow)
    (m : gmap string ObservableStream) : gmap string ObservableStream :=
  foldl (fun m x =>
           match resolve reg (row_plugins x) with
           | Some ps =>
               <[row_url x :=
                   {| url := row_url x; lastSeen := row_lastSeen x;
                      plugins := ps |}]> m
           | None => m
           end) m rows.

(** What [Run] does once the file system is prepared. *)
Definition serve : M unit :=
  call new_NotificationCenter >>
  LoadData >>
  call process_on_SIGTERM >>
  call io_on_connection >>
  call linkedStreams_Initialize >>
  call pluginManager_Start >>
  call new_AppFacade >>
  call new_RecorderListener >>
  call new_PluginManagerListener >>
  call (server_listen Port).

Definition Run : M unit :=
  mounted <- IsDataMounted ;;
  (if negb mounted then
     Log "'/app/data' folder doesn't exist. Maybe forgot to mount it" >>
     process_exit 1
   else ret tt) >>
  call (new_Sqlite3 DB_LOCATION) >>
  call new_SqliteAdapter >>
  isInitialized <- get (fun w => initialized (db w)) ;;
  (if negb isInitialized then
     Log "Database doesn't initialized or malformed. Initialization..." >>
     InitializeDb
   else ret tt) >>
  call new_Settings >>
  call AddWriter_SqliteWriter >>
  try_catch PrepareFileSystem (fun e =>
    Log ("Preparing filesystem error. " +:+ e) >>
    process_exit 1) >>
  serve.

(** Modelled from the spec: [pluginManagerController.AddArbiter], of
    Services/PluginManager/PluginManagerController, which is not in the
    tree: "Registry of active arbiters keyed by quota kind". *)
Definition AddArbiter (arbiter : Arbiter) (k : K) : M unit :=
  modify (with_arbiters (insert k arbiter)).

(** [new StorageQuota(..)], [new InstanceQuota(..)], [new DownloadSpeedQuota(..)]
    followed by [arbiter.Quota = settings...]: the arbiter of a class with the
    limit the settings give it. *)
Definition arbiter_for (c : ArbiterClass) (s : Settings) : Arbiter :=
  match c with
  | StorageQuota => {| arbiter_class := StorageQuota; Quota := storageQuota s |}
  | InstanceQuota => {| arbiter_class := InstanceQuota; Quota := instanceQuota s |}
  | DownloadSpeedQuota =>
      {| arbiter_class := DownloadSpeedQuota; Quota := downloadSpeedQuota s |}
  end.

Definition SetupPluginManagerController : M unit :=
  settings <- get (fun w => settings_row (db w)) ;;
  (if storageQuota settings >? 0 then
     let arbiter := arbiter_for StorageQuota settings in
     AddArbiter arbiter STORAGE_QUOTA_ID
   else ret tt) >>
  (if instanceQuota settings >? 0 then
     let arbiter := arbiter_for InstanceQuota settings in
     AddArbiter arbiter INSTANCE_QUOTA_ID
   else ret tt) >>
  (if downloadSpeedQuota settings >? 0 then
     let arbiter := arbiter_for DownloadSpeedQuota settings in
     modify (with_pluginListenerInterceptFn (fun _ => Some arbiter)) >>
     modify (with_interceptors (fun l => l ++ [arbiter])) >>
     AddArbiter arbiter DOWNLOAD_SPEED_QUOTA
   else ret tt).

(** [this.recorder.StopRecording(l)]. *)
Definition StopRecording (l : string) : M unit :=
  fun w =>
    match Recorder.StopRecording l (recorder w) with
    | Done rs => (Done tt, with_recorder (fun _ => rs) w)
    | Thrown e => (Thrown e, w)
    | Exited c => (Exited c, w)
    end.

(** What follows [await StopRecorder()] once the promise is resolved. *)
Definition Exit : M unit :=
  Log "Exit" >>
  process_exit 0.

(** [Shutdown] up to the point where it waits for the promise, or to
    the end of the process when the promise is resolved at once. *)
Definition Shutdown : M unit :=
  Log "Shutting down. Waiting for recorder stops." >>
  records <- get (fun w => Recorder.Records (recorder w)) ;;
  let awaitedRecordings := Z.of_nat (length records) in
  if awaitedRecordings =? 0 then Exit
  else
    call pluginManager_Stop >>
    records <- get (fun w => Recorder.Records (recorder w)) ;;
    forEach (map Recorder.label records) StopRecording >>
    modify (with_awaiting (fun hs => hs ++ [awaitedRecordings])).

(** One notification of [recorderListener.CompleteEvent]: every handler
    of [Shutdown] counts down, and one that reaches zero resolves the
    promise [Shutdown] waits for. *)
Definition CompleteEvent : M unit :=
  modify (with_awaiting (map Z.pred)) >>
  hs <- get awaiting ;;
  if bool_decide (0 ∈ hs) then Exit else ret tt.

(** The stop-completion notifications of a list of sessions, one after the
    other in the order of the list. *)
Definition completions (ls : list string) : M unit :=
  forEach ls (fun _ => CompleteEvent).
End Constants.
End Bootstrap.
End App.

(* ===================================================================== *)
(** ** Concrete inputs, used to run the definitions *)
(* ===================================================================== *)
Module Samples.
Import Js Util.

(** What [new URL] makes of the inputs the examples run on: the two URLs
    "https://site.com/user/" (a user) and "https://site.com/" (none), as
    the parser of Node reads them, and a text that is not a URL, such as
    "not a url", which the parser refuses. The table stands for the parser
    at these inputs only. *)
Definition parse (url : str) : option URL :=
  if decide (url = lit "https://site.com/user/") then
    Some {| hostname := lit "site.com"; pathname := lit "/user/" |}
  else if decide (url = lit "https://site.com/") then
    Some {| hostname := lit "site.com"; pathname := lit "/" |}
  else None.

(** An entropy source that yields 12, ab, ff, ff, ... *)
Definition entropy_12abff (i : nat) : Byte.byte :=
  match i with
  | O => Byte.x12
  | 1%nat => Byte.xab
  | _ => Byte.xff
  end.

(** An entropy source that yields 00, 00, ... *)
Definition entropy_zero (i : nat) : Byte.byte := Byte.x00.

(** 2 January 2020, 03:04:05. *)
Definition instant : DateTime :=
  {| year := 2020; month := 1; day := 2; hour := 3; minute := 4; second := 5 |}.

(** A function that throws on zero and returns its argument otherwise;
    [None] stands for [null]. *)
Definition inverse_like (n : nat) : outcome string (option nat) :=
  match n with
  | O => Thrown "division by zero"%string
  | S _ => Done (Some n)
  end.

(** The same function, asynchronous: a rejected promise on zero. *)
Definition inverse_like_async (n : nat)
  : outcome string (awaitable string (option nat)) :=
  match n with
  | O => Done (Prom (Rejected "division by zero"%string))
  | S _ => Done (Prom (Resolved (Some n)))
  end.

(** The claimants of an observable: the first one is disabled. *)
Definition claimed : list Dialog.Stream :=
  [ {| Dialog.uri := "https://site/user1";
       Dialog.plugins :=
         [ {| Dialog.name := "A"; Dialog.enabled := false |};
           {| Dialog.name := "B"; Dialog.enabled := true |};
           {| Dialog.name := "C"; Dialog.enabled := true |} ] |} ].

(** A recording service with one session. *)
Definition one_session : Recorder.RecordingService :=
  {| Recorder.sessions := {[ "a"%string := "https://site/a"%string ]};
     Recorder.emitted := [] |}.

(** A disk that answers 10, an error, 20 and an error again. *)
Definition flaky_disk : list (str -> option (option string * Z)) :=
  [ (fun _ => Some (None, 10));
    (fun _ => Some (Some "ENOENT"%string, 0));
    (fun _ => Some (None, 20));
    (fun _ => Some (Some "EIO"%string, 0)) ].

(** A monitor that has not sampled yet. *)
Definition fresh_monitor : Monitor.SystemResourcesMonitor :=
  {| Monitor.current := None; Monitor.published := [];
     Monitor.log := []; Monitor.polls := 0 |}.

(** What [new URL] makes of a URL without a path of segments. *)
Definition parse_opaque (url : str) : option URL :=
  if decide (url = lit "mailto:user@site.com") then
    Some {| hostname := []; pathname := lit "user@site.com" |}
  else None.

(** A folder with three recordings, a text file and a folder whose name
    ends like a recording; any other folder cannot be read. *)
Definition folder (path : str) : promise string (list str) :=
  if decide (path = lit "/archive") then
    Resolved [lit "a.mp4"; lit "b.mp4"; lit "notes.txt"; lit "c.mp4";
              lit "d.mp4"]
  else Rejected "ENOENT"%string.

(** [lstat] in that folder: "b.mp4" has gone, "d.mp4" is a folder. *)
Definition stats (filename : str) : promise string Stats :=
  if decide (filename = lit "/archive/a.mp4") then
    Resolved {| size := 10; isDirectory := false |}
  else if decide (filename = lit "/archive/c.mp4") then
    Resolved {| size := 30; isDirectory := false |}
  else if decide (filename = lit "/archive/d.mp4") then
    Resolved {| size := 4096; isDirectory := true |}
  else Rejected "ENOENT"%string.

(** [Path.join] of a folder and a name. *)
Definition join (path x : str) : str := path ++ lit "/" ++ x.

(** The route of the clip page, with full access (2) asked for, and the
    route of the page of missing pages, which asks for none. *)
Definition clip_route : Router.Route :=
  {| Router.path := "/clip/a.mp4"; Router.meta_access := Some 2 |}.

Definition missing_route : Router.Route :=
  {| Router.path := "/404"; Router.meta_access := None |}.

(** Stores of a viewer (access 1) whose passphrase is accepted, of one
    whose passphrase is refused, and of one upgraded to full access. *)
Definition accepted : Router.Stores string :=
  {| Router.AwaitInitialization := Resolved tt; Router.access_first := 1;
     Router.AwaitAccessUpgrade := Resolved tt; Router.access_then := 1;
     Router.RequestPassphrase := Resolved true |}.

Definition refused : Router.Stores string :=
  {| Router.AwaitInitialization := Resolved tt; Router.access_first := 1;
     Router.AwaitAccessUpgrade := Resolved tt; Router.access_then := 1;
     Router.RequestPassphrase := Resolved false |}.

Definition upgraded : Router.Stores string :=
  {| Router.AwaitInitialization := Resolved tt; Router.access_first := 1;
     Router.AwaitAccessUpgrade := Resolved tt; Router.access_then := 2;
     Router.RequestPassphrase := Resolved true |}.

End Samples.

Module Worlds.
Import App.

(** The settings 10, 0 and -1 for the three limits, nothing else. *)
Definition quota_world : World (K := nat) :=
  {| fs := ∅; mkdir_error := fun _ => None;
     db := {| initialized := true; plugin_rows := []; observable_rows := [];
              archive_rows := []; tag_rows := [];
              settings_row := {| storageQuota := 10; instanceQuota := 0;
                                 downloadSpeedQuota := -1 |} |};
     logged := []; calls := []; registry := []; observables := ∅;
     archive := []; arbiters := ∅; interceptors := [];
     pluginListenerInterceptFn := None;
     recorder := {| Recorder.sessions := ∅; Recorder.emitted := [] |};
     awaiting := [] |}.

(** Two sessions being recorded, nothing else. *)
Definition recording_world : World (K := nat) :=
  {| fs := ∅; mkdir_error := fun _ => None;
     db := {| initialized := true; plugin_rows := []; observable_rows := [];
              archive_rows := []; tag_rows := [];
              settings_row := {| storageQuota := 0; instanceQuota := 0;
                                 downloadSpeedQuota := 0 |} |};
     logged := []; calls := []; registry := []; observables := ∅;
     archive := []; arbiters := ∅; interceptors := [];
     pluginListenerInterceptFn := None;
     recorder :=
       {| Recorder.sessions :=
            {[ "a"%string := "https://site/a"%string;
               "b"%string := "https://site/b"%string ]};
          Recorder.emitted := [] |};
     awaiting := [] |}.

(** The five plugins the constructor of [App] registers. *)
Definition registered : list Plugin :=
  [ {| id := 0; name := "bongacams"; enabled := true |};
    {| id := 1; name := "bongacams_direct"; enabled := true |};
    {| id := 2; name := "chaturbate"; enabled := true |};
    {| id := 3; name := "camsoda"; enabled := true |};
    {| id := 4; name := "dummy"; enabled := true |} ].

(** A database that initialisation leaves with a row a plugin and nothing
    else. *)
Definition Initialize (names : list string) (d : Db) : Db :=
  {| initialized := true;
     plugin_rows :=
       imap (fun i n => {| row_id := Z.of_nat i; row_name := n;
                           row_enabled := true |}) names;
     observable_rows := []; archive_rows := []; tag_rows := [];
     settings_row := settings_row d |}.

(** A world at startup: a file system, its errors and a database file. *)
Definition startup (entries : gset string) (errors : string -> option string)
    (d : Db) : World (K := nat) :=
  {| fs := entries; mkdir_error := errors; db := d;
     logged := []; calls := []; registry := registered; observables := ∅;
     archive := []; arbiters := ∅; interceptors := [];
     pluginListenerInterceptFn := None;
     recorder := {| Recorder.sessions := ∅; Recorder.emitted := [] |};
     awaiting := [] |}.

Definition no_settings : Settings :=
  {| storageQuota := 0; instanceQuota := 0; downloadSpeedQuota := 0 |}.

(** A database file that is not a database yet. *)
Definition blank_db : Db :=
  {| initialized := false; plugin_rows := []; observable_rows := [];
     archive_rows := []; tag_rows := []; settings_row := no_settings |}.

(** A database whose first observable names a plugin, "myfreecams", that
    is not registered, and whose second one is sound. *)
Definition stale_db : Db :=
  {| initialized := true;
     plugin_rows :=
       [ {| row_id := 7; row_name := "dummy"; row_enabled := false |};
         {| row_id := 5; row_name := "chaturbate"; row_enabled := true |} ];
     observable_rows :=
       [ {| row_url := "https://site/alice"; row_lastSeen := 100;
            row_plugins := ["chaturbate"; "myfreecams"]%string |};
         {| row_url := "https://site/bob"; row_lastSeen := 200;
            row_plugins := ["dummy"; "chaturbate"]%string |} ];
     archive_rows := ["a.mp4"%string];
     tag_rows := [ {| tag_filename := "a.mp4"; tag := "fav" |} ];
     settings_row := no_settings |}.

(** The data folder is not mounted. *)
Definition unmounted_world : World (K := nat) :=
  startup ∅ (fun _ => None) blank_db.

(** The data folder is mounted read-only: no directory can be made. *)
Definition readonly_world : World (K := nat) :=
  startup {[ "data"%string ]} (fun _ => Some "EACCES: permission denied"%string)
          stale_db.

(** The data folder is mounted, the database file is blank. *)
Definition blank_world : World (K := nat) :=
  startup {[ "data"%string ]} (fun _ => None) blank_db.

(** The data folder is mounted, the database is [stale_db]. *)
Definition stale_world : World (K := nat) :=
  startup {[ "data"%string ]} (fun _ => None) stale_db.

(** [Run] with the folders under "data" and port 8080. *)
Definition run : M (K := nat) unit :=
  Run "data" "data/archive" "data/archive/thumbnail" "data/db.sqlite3" 8080
      Initialize.

End Worlds.

(* ===================================================================== *)
(** * Properties *)
(* ===================================================================== *)

(** ** The observable dialog *)
Module DialogFacts.
Import Dialog.

(** [find] in terms of positions: the element found is the first one the
    predicate holds of. *)
Lemma find_first_position {A : Type} (f : A -> bool) (l : list A) (x : A) :
  List.find f l = Some x <->
  exists i : nat, l !! i = Some x /\ f x = true /\
    forall (j : nat) (y : A), (j < i)%nat -> l !! j = Some y -> f y = false.
Proof.
  induction l as [|a l IH]; simpl.
  - split; [discriminate | intros (i & Hi & _); destruct i; discriminate].
  - destruct (f a) eqn:Ha.
    + split.
      * intros [= <-]. exists O. repeat split; auto. intros j y Hj. lia.
      * intros (i & Hi & Hx & Hlt). destruct i as [|i].
        -- simpl in Hi. congruence.
        -- specialize (Hlt O a ltac:(lia) eq_refl). congruence.
    + rewrite IH. split.
      * intros (i & Hi & Hx & Hlt). exists (S i). repeat split; auto.
        intros [|j] y Hj Hy; simpl in Hy.
        -- congruence.
        -- apply (Hlt j); auto. lia.
      * intros (i & Hi & Hx & Hlt). destruct i as [|i].
        -- simpl in Hi. congruence.
        -- exists i. repeat split; auto.
           intros j y Hj Hy. apply (Hlt (S j)); auto. lia.
Qed.

Lemma find_none_all {A : Type} (f : A -> bool) (l : list A) :
  List.find f l = None <-> forall x : A, x ∈ l -> f x = false.
Proof.
  induction l as [|a l IH]; simpl.
  - split; auto. intros _ x Hx. inversion Hx.
  - destruct (f a) eqn:Ha.
    + split; [discriminate|]. intros Hall.
      specialize (Hall a ltac:(left)). congruence.
    + rewrite IH. split.
      * intros Hall x Hx. inversion Hx; subst; auto.
      * intros Hall x Hx. apply Hall. now right.
Qed.

(** C1. For every observable the dialog is opened on, the active plugin is
    uniquely determined: at most one plugin is active, it is the first
    enabled entry of the observable's ordered claimant list, so the enabled
    claimant of highest precedence, and there is none exactly when no
    claimant is enabled. *)
Theorem ActivePlugin_first_enabled (observables : list Stream) (target : string) :
  (forall p q : Plugin,
     ActivePlugin observables target = Some p ->
     ActivePlugin observables target = Some q -> p = q) /\
  (forall p : Plugin,
     ActivePlugin observables target = Some p <->
     exists i : nat,
       Plugins observables target !! i = Some p /\
       enabled p = true /\
       forall (j : nat) (q : Plugin),
         (j < i)%nat -> Plugins observables target !! j = Some q ->
         enabled q = false) /\
  (ActivePlugin observables target = None <->
   forall p : Plugin, p ∈ Plugins observables target -> enabled p = false).
Proof.
  unfold ActivePlugin. repeat split.
  - congruence.
  - apply find_first_position.
  - apply find_first_position.
  - apply find_none_all.
  - apply find_none_all.
Qed.

(** With claimants A (disabled), B and C (enabled), B is active. *)
Lemma ActivePlugin_first_enabled_witness :
  ActivePlugin Samples.claimed "https://site/user1" =
  Some {| name := "B"; enabled := true |}.
Proof.
  apply (proj1 (proj2 (ActivePlugin_first_enabled Samples.claimed
                         "https://site/user1"))).
  exists 1%nat. repeat split.
  intros [|j] q Hj Hq; [|lia]. now injection Hq as <-.
Defined.

End DialogFacts.

(** ** The exception-suppressing wrappers *)
Module WrapperFacts.
Import Js Util.

Section Wrappers.
Context {E Args Ctx V : Type}.
Variable null : V.

Lemma IE_never_throws (fn : Args -> outcome E V) (args : Args) (e : E) :
  IE null fn args <> Thrown e.
Proof. unfold IE. destruct (fn args); discriminate. Qed.

Lemma IEM_never_throws (fn : Ctx -> Args -> outcome E V) (c : Ctx)
    (args : Args) (e : E) :
  IEM null fn c args <> Thrown e.
Proof. unfold IEM. destruct (fn c args); discriminate. Qed.

Lemma AIE_never_throws (fn : Args -> outcome E (awaitable E V)) (args : Args)
    (e : E) :
  AIE null fn args <> Thrown e /\ AIE null fn args <> Done (Rejected e).
Proof.
  unfold AIE. destruct (fn args) as [[v|[v|e'|]]|e'|c]; split; discriminate.
Qed.

(** C9. The wrappers [IE], [IEM] and [AIE] are total at their interface:
    whatever the wrapped function and its arguments, they hand back its
    result when it returns, [null] when it throws (or when the promise it
    returns is rejected), and no exception ever leaves them, neither as a
    throw nor, for [AIE], as a rejected promise. *)
Theorem wrappers_total :
  (forall (fn : Args -> outcome E V) (args : Args),
     (forall v : V, fn args = Done v -> IE null fn args = Done v) /\
     (forall e : E, fn args = Thrown e -> IE null fn args = Done null) /\
     (forall e : E, IE null fn args <> Thrown e)) /\
  (forall (fn : Ctx -> Args -> outcome E V) (context : Ctx) (args : Args),
     (forall v : V,
        fn context args = Done v -> IEM null fn context args = Done v) /\
     (forall e : E,
        fn context args = Thrown e -> IEM null fn context args = Done null) /\
     (forall e : E, IEM null fn context args <> Thrown e)) /\
  (forall (fn : Args -> outcome E (awaitable E V)) (args : Args),
     (forall v : V,
        fn args = Done (Plain v) \/ fn args = Done (Prom (Resolved v)) ->
        AIE null fn args = Done (Resolved v)) /\
     (forall e : E,
        fn args = Thrown e \/ fn args = Done (Prom (Rejected e)) ->
        AIE null fn args = Done (Resolved null)) /\
     (forall e : E,
        AIE null fn args <> Thrown e /\ AIE null fn args <> Done (Rejected e))).
Proof.
  split; [|split].
  - intros fn args. repeat split.
    + intros v Hv. unfold IE. now rewrite Hv.
    + intros e He. unfold IE. now rewrite He.
    + apply IE_never_throws.
  - intros fn c args. repeat split.
    + intros v Hv. unfold IEM. now rewrite Hv.
    + intros e He. unfold IEM. now rewrite He.
    + apply IEM_never_throws.
  - intros fn args. split; [|split].
    + intros v [Hv|Hv]; unfold AIE; now rewrite Hv.
    + intros e [He|He]; unfold AIE; now rewrite He.
    + apply AIE_never_throws.
Qed.
End Wrappers.

(** The wrappers on a function that throws on zero. *)
Lemma wrappers_total_witness :
  IE None Samples.inverse_like 0%nat = Done None /\
  IE None Samples.inverse_like 2%nat = Done (Some 2%nat) /\
  AIE None Samples.inverse_like_async 0%nat = Done (Resolved None).
Proof.
  destruct (wrappers_total (E := string) (Args := nat) (Ctx := unit)
              (None : option nat))
    as (Hie & _ & Haie).
  destruct (Hie Samples.inverse_like 0%nat) as (_ & Hthrow & _).
  destruct (Hie Samples.inverse_like 2%nat) as (Hdone & _ & _).
  destruct (Haie Samples.inverse_like_async 0%nat) as (_ & Hreject & _).
  split; [|split].
  - apply (Hthrow "division by zero"%string). reflexivity.
  - apply Hdone. reflexivity.
  - apply (Hreject "division by zero"%string). right. reflexivity.
Defined.

End WrapperFacts.

(** ** The recording service *)
Module RecorderFacts.
Import Js Recorder.

Lemma stops_of_app (l : string) (es es' : list Event) :
  stops_of l (es ++ es') = (stops_of l es + stops_of l es')%nat.
Proof. unfold stops_of. now rewrite filter_app, length_app. Qed.

Lemma StopRecording_active (l : string) (rs : RecordingService) (src : string) :
  sessions rs !! l = Some src ->
  StopRecording l rs =
    Done {| sessions := delete l (sessions rs);
            emitted := emitted rs ++ [Stopped l] |}.
Proof. intros Hl. unfold StopRecording. now rewrite Hl. Qed.

Lemma StopRecording_stopped (l : string) (rs : RecordingService) :
  sessions rs !! l = None -> StopRecording l rs = Done rs.
Proof. intros Hl. unfold StopRecording. now rewrite Hl. Qed.

(** C7. [StopRecording] is idempotent: for every label, the first of two
    calls in a row emits exactly one stop event when the session is active
    (none when it is not), and the second call is a no-op that raises no
    error: it returns the state the first call left, with no further
    event. *)
Theorem StopRecording_idempotent (l : string) (rs : RecordingService) :
  exists rs1 : RecordingService,
    StopRecording l rs = Done rs1 /\
    StopRecording l rs1 = Done rs1 /\
    (is_Some (sessions rs !! l) ->
     stops_of l (emitted rs1) = S (stops_of l (emitted rs))) /\
    (sessions rs !! l = None -> rs1 = rs) /\
    sessions rs1 !! l = None.
Proof.
  destruct (sessions rs !! l) as [src|] eqn:Hl.
  - eexists. split; [apply (StopRecording_active _ _ _ Hl)|].
    split; [|split; [|split]].
    + apply StopRecording_stopped. simpl. apply lookup_delete_eq.
    + intros _. simpl. rewrite stops_of_app. unfold stops_of at 2. simpl.
      rewrite filter_cons_True by reflexivity. simpl. lia.
    + discriminate.
    + simpl. apply lookup_delete_eq.
  - exists rs. split; [apply (StopRecording_stopped _ _ Hl)|].
    split; [apply (StopRecording_stopped _ _ Hl)|].
    split; [|split]; auto.
    intros [? ?]; discriminate.
Qed.

(** Stopping the one session twice: one stop event. *)
Lemma StopRecording_idempotent_witness :
  exists rs1 : RecordingService,
    StopRecording "a" Samples.one_session = Done rs1 /\
    StopRecording "a" rs1 = Done rs1 /\
    stops_of "a" (emitted rs1) = 1%nat.
Proof.
  destruct (StopRecording_idempotent "a" Samples.one_session)
    as (rs1 & Hfirst & Hsecond & Hone & _).
  exists rs1. split; [exact Hfirst|]. split; [exact Hsecond|].
  rewrite Hone; [reflexivity|]. eexists. reflexivity.
Defined.

End RecorderFacts.

(** ** The resource monitor *)
Module MonitorFacts.
Import Js Util Monitor.

Section Polling.
Context {E : Type}.
Variable describe : E -> string.

Lemma Loop_cons (root : str) (g : str -> option (option E * Z))
    (disk : list (str -> option (option E * Z))) (m : SystemResourcesMonitor) :
  Loop describe root (g :: disk) m =
  Loop describe root disk (Poll describe (GetFolderSize g root) m).
Proof. reflexivity. Qed.

Lemma Loop_state (root : str) (disk : list (str -> option (option E * Z)))
    (m : SystemResourcesMonitor) :
  polls (Loop describe root disk m) = (polls m + length disk)%nat /\
  log (Loop describe root disk m) =
    log m ++ map describe (failures root disk) /\
  published (Loop describe root disk m) = published m ++ samples root disk /\
  current (Loop describe root disk m) =
    match last (samples root disk) with
    | Some size => Some size
    | None => current m
    end.
Proof.
  revert m. induction disk as [|g disk IH]; intros m.
  - simpl. rewrite !app_nil_r. repeat split; lia.
  - rewrite Loop_cons.
    destruct (IH (Poll describe (GetFolderSize g root) m)) as (Hp & Hl & Hs & Hc).
    rewrite Hp, Hl, Hs, Hc. unfold failures, samples. simpl.
    destruct (GetFolderSize g root) as [size|err|]; simpl.
    + repeat split; try lia.
      * now rewrite <- app_assoc.
      * rewrite last_cons. now destruct (last _).
    + repeat split; try lia. now rewrite <- app_assoc.
    + repeat split; lia.
Qed.

(** C8. A failure while sampling the disk usage under the archive root is
    never fatal: the turn of the loop that meets it logs the error and
    keeps the sample that was current (and publishes nothing), and the loop
    takes every one of its turns whatever their outcomes: it ends with one
    log line a failure and with the last sample that succeeded as the
    current one. *)
Theorem sampling_failure_not_fatal (root : str)
    (disk : list (str -> option (option E * Z))) (m : SystemResourcesMonitor) :
  (forall (g : str -> option (option E * Z)) (err : E),
     GetFolderSize g root = Rejected err ->
     current (Poll describe (GetFolderSize g root) m) = current m /\
     published (Poll describe (GetFolderSize g root) m) = published m /\
     log (Poll describe (GetFolderSize g root) m) = log m ++ [describe err] /\
     Loop describe root (g :: disk) m =
       Loop describe root disk (Poll describe (GetFolderSize g root) m)) /\
  polls (Loop describe root disk m) = (polls m + length disk)%nat /\
  log (Loop describe root disk m) = log m ++ map describe (failures root disk) /\
  current (Loop describe root disk m) =
    match last (samples root disk) with
    | Some size => Some size
    | None => current m
    end.
Proof.
  split.
  - intros g err Hg. rewrite Loop_cons, Hg. simpl. auto.
  - destruct (Loop_state root disk m) as (Hp & Hl & _ & Hc). auto.
Qed.
End Polling.

(** Four turns, two of which fail: two log lines, 20 as the sample. *)
Lemma sampling_failure_not_fatal_witness :
  polls (Loop id (lit "data/archive") Samples.flaky_disk Samples.fresh_monitor)
    = 4%nat /\
  log (Loop id (lit "data/archive") Samples.flaky_disk Samples.fresh_monitor)
    = ["ENOENT"; "EIO"]%string /\
  current (Loop id (lit "data/archive") Samples.flaky_disk Samples.fresh_monitor)
    = Some 20.
Proof.
  destruct (sampling_failure_not_fatal id (lit "data/archive")
              Samples.flaky_disk Samples.fresh_monitor)
    as (_ & Hpolls & Hlog & Hcurrent).
  rewrite Hpolls, Hlog, Hcurrent. repeat split.
Defined.

End MonitorFacts.

(** ** The bootstrap: quota arbiters *)
Module QuotaFacts.
Import Js App.

Section Quotas.
Context {K : Type} `{Countable K}.
Variables STORAGE_QUOTA_ID INSTANCE_QUOTA_ID DOWNLOAD_SPEED_QUOTA : K.

Lemma Setup_arbiters (w : World (K := K)) :
  exists w' : World,
    SetupPluginManagerController
      STORAGE_QUOTA_ID INSTANCE_QUOTA_ID DOWNLOAD_SPEED_QUOTA w = (Done tt, w') /\
    db w' = db w /\
    arbiters w' =
      (if downloadSpeedQuota (settings_row (db w)) >? 0
       then insert DOWNLOAD_SPEED_QUOTA
              (arbiter_for DownloadSpeedQuota (settings_row (db w)))
       else fun m => m)
      ((if instanceQuota (settings_row (db w)) >? 0
        then insert INSTANCE_QUOTA_ID
               (arbiter_for InstanceQuota (settings_row (db w)))
        else fun m => m)
       ((if storageQuota (settings_row (db w)) >? 0
         then insert STORAGE_QUOTA_ID
                (arbiter_for StorageQuota (settings_row (db w)))
         else fun m => m)
        (arbiters w))).
Proof.
  unfold SetupPluginManagerController, AddArbiter, bind, get, modify, ret.
  destruct (storageQuota (settings_row (db w)) >? 0);
    destruct (instanceQuota (settings_row (db w)) >? 0);
    destruct (downloadSpeedQuota (settings_row (db w)) >? 0);
    simpl; eexists; repeat split.
Qed.

(** C3. For every persisted settings value, starting from the controller
    the bootstrap creates (no arbiter yet) and with the three ids distinct,
    [SetupPluginManagerController] returns, and each of the storage,
    instance and download-speed arbiters is registered under its id exactly
    when its configured limit is strictly positive, with that limit as its
    quota; with a zero or negative limit nothing is registered under the id. *)
Theorem quota_registered_iff_positive (w : World (K := K)) :
  STORAGE_QUOTA_ID <> INSTANCE_QUOTA_ID ->
  STORAGE_QUOTA_ID <> DOWNLOAD_SPEED_QUOTA ->
  INSTANCE_QUOTA_ID <> DOWNLOAD_SPEED_QUOTA ->
  arbiters w = ∅ ->
  exists w' : World,
    SetupPluginManagerController
      STORAGE_QUOTA_ID INSTANCE_QUOTA_ID DOWNLOAD_SPEED_QUOTA w = (Done tt, w') /\
    (arbiters w' !! STORAGE_QUOTA_ID =
       if bool_decide (0 < storageQuota (settings_row (db w)))
       then Some (arbiter_for StorageQuota (settings_row (db w))) else None) /\
    (arbiters w' !! INSTANCE_QUOTA_ID =
       if bool_decide (0 < instanceQuota (settings_row (db w)))
       then Some (arbiter_for InstanceQuota (settings_row (db w))) else None) /\
    (arbiters w' !! DOWNLOAD_SPEED_QUOTA =
       if bool_decide (0 < downloadSpeedQuota (settings_row (db w)))
       then Some (arbiter_for DownloadSpeedQuota (settings_row (db w))) else None) /\
    (is_Some (arbiters w' !! STORAGE_QUOTA_ID) <->
       0 < storageQuota (settings_row (db w))) /\
    (is_Some (arbiters w' !! INSTANCE_QUOTA_ID) <->
       0 < instanceQuota (settings_row (db w))) /\
    (is_Some (arbiters w' !! DOWNLOAD_SPEED_QUOTA) <->
       0 < downloadSpeedQuota (settings_row (db w))) /\
    (forall (k : K) (a : Arbiter), arbiters w' !! k = Some a -> 0 < Quota a).
Proof.
  intros Hsi Hsd Hid Hempty.
  destruct (Setup_arbiters w) as (w' & Hrun & _ & Harb).
  exists w'. split; [exact Hrun|]. rewrite Harb, Hempty. clear Hrun Harb.
  set (s := settings_row (db w)).
  destruct (Z.gtb_spec (storageQuota s) 0) as [Hs|Hs];
    destruct (Z.gtb_spec (instanceQuota s) 0) as [Hi|Hi];
    destruct (Z.gtb_spec (downloadSpeedQuota s) 0) as [Hd|Hd];
    repeat case_bool_decide; try lia;
    simplify_map_eq;
    repeat split;
    try (intros [? ?]; discriminate);
    try (intros; lia);
    try (intros; eexists; reflexivity);
    intros k a Hk;
    repeat (apply lookup_insert_Some in Hk;
            destruct Hk as [[_ <-]|[_ Hk]]; [simpl; lia|]);
    now rewrite lookup_empty in Hk.
Qed.

End Quotas.

Lemma quota_registered_iff_positive_witness :
  exists w' : World,
    SetupPluginManagerController 1%nat 2%nat 3%nat Worlds.quota_world = (Done tt, w') /\
    is_Some (arbiters w' !! 1%nat) /\
    arbiters w' !! 2%nat = None /\
    arbiters w' !! 3%nat = None.
Proof.
  destruct (quota_registered_iff_positive 1%nat 2%nat 3%nat Worlds.quota_world)
    as (w' & Hrun & Hs & Hi & Hd & _); [lia | lia | lia | reflexivity |].
  exists w'. split; [exact Hrun|]. rewrite Hs, Hi, Hd. simpl.
  repeat split. eexists; reflexivity.
Defined.

End QuotaFacts.

(** ** The bootstrap: shutdown *)
Module ShutdownFacts.
Import Js App.

Section Shutdown.
Context {K : Type} `{Countable K}.

(** Stopping the sessions of a list of labels: none of them is left, each
    one that was active has its stop event, nothing else changes. *)
Lemma stop_all (ls : list string) (w : World (K := K)) :
  exists w' : World,
    forEach ls StopRecording w = (Done tt, w') /\
    awaiting w' = awaiting w /\
    logged w' = logged w /\
    calls w' = calls w /\
    (forall l : string,
       Recorder.sessions (recorder w') !! l =
       if bool_decide (l ∈ ls) then None
       else Recorder.sessions (recorder w) !! l) /\
    exists new : list Recorder.Event,
      Recorder.emitted (recorder w') = Recorder.emitted (recorder w) ++ new /\
      forall l : string,
        l ∈ ls -> is_Some (Recorder.sessions (recorder w) !! l) ->
        Recorder.Stopped l ∈ new.
Proof.
  revert w. induction ls as [|l0 ls IH]; intros w.
  - exists w. simpl. unfold ret. repeat split; auto.
    exists []. rewrite app_nil_r. split; auto.
    intros l Hl. inversion Hl.
  - simpl. unfold bind at 1. unfold StopRecording at 1, Recorder.StopRecording.
    destruct (Recorder.sessions (recorder w) !! l0) as [src|] eqn:Hl0.
    + destruct (IH (with_recorder
        (fun _ => {| Recorder.sessions := delete l0 (Recorder.sessions (recorder w));
                     Recorder.emitted := Recorder.emitted (recorder w) ++
                                         [Recorder.Stopped l0] |}) w))
        as (w' & Hrun & Ha & Hlog & Hc & Hs & new & He & Hnew).
      exists w'. simpl in *. repeat split; auto.
      * intros l. rewrite Hs.
        destruct (decide (l = l0)) as [->|Hne].
        -- rewrite (bool_decide_eq_true_2 (l0 ∈ l0 :: ls)) by left.
           case_bool_decide; auto. apply lookup_delete_eq.
        -- rewrite lookup_delete_ne by auto.
           repeat case_bool_decide; auto.
           ++ exfalso. apply H1. now right.
           ++ exfalso. apply elem_of_cons in H1 as [?|?]; auto.
      * exists (Recorder.Stopped l0 :: new). rewrite He, <- app_assoc. split; auto.
        intros l Hl Hact. apply elem_of_cons in Hl as [->|Hl]; [left|].
        destruct (decide (l = l0)) as [->|Hne]; [left|right].
        apply Hnew; auto. now rewrite lookup_delete_ne by auto.
    + destruct (IH (with_recorder (fun _ => recorder w) w))
        as (w' & Hrun & Ha & Hlog & Hc & Hs & new & He & Hnew).
      exists w'. simpl in *. repeat split; auto.
      * intros l. rewrite Hs.
        destruct (decide (l = l0)) as [->|Hne].
        -- rewrite (bool_decide_eq_true_2 (l0 ∈ l0 :: ls)) by left.
           case_bool_decide; auto.
        -- repeat case_bool_decide; auto.
           ++ exfalso. apply H1. now right.
           ++ exfalso. apply elem_of_cons in H1 as [?|?]; auto.
      * exists new. split; auto.
        intros l Hl Hact. apply elem_of_cons in Hl as [->|Hl]; auto.
        rewrite Hl0 in Hact. destruct Hact; discriminate.
Qed.

(** One notification with a single handler waiting. *)
Lemma CompleteEvent_step (n : Z) (w : World (K := K)) :
  awaiting w = [n] ->
  CompleteEvent w =
    if bool_decide (Z.pred n = 0)
    then (Exited 0,
          with_logged (fun l => l ++ ["Exit"%string])
            (with_awaiting (map Z.pred) w))
    else (Done tt, with_awaiting (map Z.pred) w).
Proof.
  intros Hw. unfold CompleteEvent, bind, modify, get, Exit, Log, process_exit, ret.
  simpl. rewrite Hw. simpl.
  destruct (decide (Z.pred n = 0)) as [Hz|Hz].
  - rewrite (bool_decide_eq_true_2 (Z.pred n = 0)) by exact Hz.
    rewrite Hz. now rewrite bool_decide_eq_true_2 by left.
  - rewrite (bool_decide_eq_false_2 (Z.pred n = 0)) by exact Hz.
    rewrite bool_decide_eq_false_2; [reflexivity|].
    intros Hin. apply list_elem_of_singleton in Hin. congruence.
Qed.

(** The countdown of one handler: fewer notifications than it awaits leave
    the process running with that many less to await, and the one that
    brings the counter to zero ends the process with code 0. *)
Lemma countdown (evs : list string) (n : Z) (w : World (K := K)) :
  awaiting w = [n] ->
  (Z.of_nat (length evs) < n ->
   exists w' : World,
     completions evs w = (Done tt, w') /\
     awaiting w' = [n - Z.of_nat (length evs)] /\
     logged w' = logged w) /\
  (0 < n -> Z.of_nat (length evs) = n ->
   exists w' : World,
     completions evs w = (Exited 0, w') /\
     logged w' = logged w ++ ["Exit"%string]).
Proof.
  revert n w. induction evs as [|ev evs IH]; intros n w Hw.
  - split.
    + intros _. exists w. simpl. rewrite Z.sub_0_r. auto.
    + simpl. lia.
  - unfold completions in *. simpl forEach. unfold bind.
    rewrite (CompleteEvent_step n w Hw).
    case_bool_decide as Hz.
    + split.
      * simpl length. intros Hlt. lia.
      * intros Hpos Hlen. eexists. split; reflexivity.
    + destruct (IH (Z.pred n) (with_awaiting (map Z.pred) w)) as [IHlt IHeq].
      { simpl. now rewrite Hw. }
      split.
      * simpl length. intros Hlt.
        destruct IHlt as (w' & Hrun & Ha & Hl); [lia|].
        exists w'. rewrite Hrun. repeat split; auto.
        rewrite Ha. f_equal. lia.
      * simpl length. intros Hpos Hlen.
        destruct IHeq as (w' & Hrun & Hl); [lia | lia |].
        exists w'. rewrite Hrun. split; auto.
Qed.

(** [Shutdown], step by step. *)
Lemma Shutdown_unfold (w : World (K := K)) :
  Shutdown w =
    let w0 :=
      with_logged
        (fun l => l ++ ["Shutting down. Waiting for recorder stops."%string]) w in
    let n := Z.of_nat (length (Recorder.Records (recorder w))) in
    if n =? 0 then Exit w0
    else
      match forEach (map Recorder.label (Recorder.Records (recorder w)))
              StopRecording
              (with_calls (fun l => l ++ [pluginManager_Stop]) w0) with
      | (Done _, w1) => (Done tt, with_awaiting (fun hs => hs ++ [n]) w1)
      | (Thrown e, w1) => (Thrown e, w1)
      | (Exited c, w1) => (Exited c, w1)
      end.
Proof.
  unfold Shutdown, bind, Log, call, modify, get. simpl.
  destruct (Z.of_nat (length (Recorder.Records (recorder w))) =? 0);
    reflexivity.
Qed.

(** C2. On a shutdown signal with [N] active recording sessions (and no
    shutdown under way): with [N = 0] the process exits at once with code
    0; otherwise [Shutdown] asks every active session to stop, then waits,
    and whatever the order of the stop-completion notifications, the
    process is still running after fewer than [N] of them and exits with
    code 0 on the [N]-th. *)
Theorem Shutdown_drains (w : World (K := K)) (evs : list string) :
  awaiting w = [] ->
  (length (Recorder.Records (recorder w)) = 0%nat ->
   exists w' : World, Shutdown w = (Exited 0, w')) /\
  (length (Recorder.Records (recorder w)) <> 0%nat ->
   exists w1 : World,
     Shutdown w = (Done tt, w1) /\
     (exists new : list Recorder.Event,
        Recorder.emitted (recorder w1) = Recorder.emitted (recorder w) ++ new /\
        forall s : Recorder.Session,
          s ∈ Recorder.Records (recorder w) ->
          Recorder.Stopped (Recorder.label s) ∈ new) /\
     Recorder.Records (recorder w1) = [] /\
     awaiting w1 = [Z.of_nat (length (Recorder.Records (recorder w)))] /\
     ((length evs < length (Recorder.Records (recorder w)))%nat ->
      exists w2 : World,
        completions evs w1 = (Done tt, w2) /\
        awaiting w2 =
          [Z.of_nat (length (Recorder.Records (recorder w))) -
           Z.of_nat (length evs)]) /\
     (length evs = length (Recorder.Records (recorder w)) ->
      exists w2 : World, completions evs w1 = (Exited 0, w2))).
Proof.
  intros Hw. rewrite Shutdown_unfold. cbv zeta.
  split.
  - intros HN. rewrite HN. simpl. eexists. reflexivity.
  - intros HN.
    destruct (Z.eqb_spec (Z.of_nat (length (Recorder.Records (recorder w)))) 0)
      as [Hz|Hz]; [lia|].
    match goal with |- context [forEach ?ls StopRecording ?w0] =>
      destruct (stop_all ls w0) as (w1 & Hrun & Ha & Hl & Hc & Hs & new & He & Hnew)
    end.
    rewrite Hrun.
    eexists. split; [reflexivity|]. simpl in *.
    set (N := length (Recorder.Records (recorder w))) in *.
    split; [|split; [|split; [|split]]].
    + exists new. split; [exact He|].
      intros s Hs'. apply Hnew.
      * apply list_elem_of_fmap. exists s. split; auto.
      * unfold Recorder.Records in Hs'.
        apply list_elem_of_fmap in Hs' as ([l src] & -> & Hin).
        apply elem_of_map_to_list in Hin. simpl. eauto.
    + unfold Recorder.Records.
      replace (Recorder.sessions (recorder w1)) with (∅ : gmap string string);
        [now rewrite map_to_list_empty|].
      symmetry. apply map_eq. intros l. rewrite lookup_empty, Hs.
      case_bool_decide as Hin; auto.
      destruct (Recorder.sessions (recorder w) !! l) as [src|] eqn:Hl'; auto.
      exfalso. apply Hin. apply list_elem_of_fmap.
      exists (Recorder.mkSession l src). split; auto.
      unfold Recorder.Records. apply list_elem_of_fmap.
      exists (l, src). split; auto. now apply elem_of_map_to_list.
    + now rewrite Ha, Hw.
    + intros Hlt.
      destruct (countdown evs (Z.of_nat N)
                  (with_awaiting (fun hs => hs ++ [Z.of_nat N]) w1)) as [Hc1 _].
      { simpl. now rewrite Ha, Hw. }
      destruct Hc1 as (w2 & Hrun2 & Ha2 & _); [lia|].
      exists w2. split; auto.
    + intros Heq.
      destruct (countdown evs (Z.of_nat N)
                  (with_awaiting (fun hs => hs ++ [Z.of_nat N]) w1)) as [_ Hc2].
      { simpl. now rewrite Ha, Hw. }
      destruct Hc2 as (w2 & Hrun2 & _); [lia | lia |].
      exists w2. auto.
Qed.
End Shutdown.

(** Two sessions, the second of which completes first. *)
Lemma Shutdown_drains_witness :
  exists w1 w2 : World,
    Shutdown Worlds.recording_world = (Done tt, w1) /\
    completions ["b"%string] w1 = (Done tt, w2) /\
    exists w3 : World,
      completions ["b"%string; "a"%string] w1 = (Exited 0, w3).
Proof.
  destruct (Shutdown_drains Worlds.recording_world ["b"%string] eq_refl)
    as [_ Hone].
  destruct Hone as (w1 & Hrun & _ & _ & _ & Hlt & _);
    [vm_compute; discriminate|].
  destruct Hlt as (w2 & Hrun2 & _); [vm_compute; lia|].
  destruct (Shutdown_drains Worlds.recording_world ["b"%string; "a"%string] eq_refl)
    as [_ Htwo].
  destruct Htwo as (w1' & Hrun' & _ & _ & _ & _ & Heq);
    [vm_compute; discriminate|].
  destruct Heq as (w3 & Hrun3); [vm_compute; reflexivity|].
  assert (w1' = w1) as -> by congruence.
  exists w1, w2. repeat split; eauto.
Defined.

End ShutdownFacts.

(** ** The bootstrap: startup *)
Module RunFacts.
Import Js App.

Section Run.
Context {K : Type} `{Countable K}.
Variables DATA_FOLDER ARCHIVE_FOLDER THUMBNAIL_FOLDER DB_LOCATION : string.
Variable Port : Z.
Variable storage_Initialize : list string -> Db -> Db.

Local Abbreviation PrepareFileSystem :=
  (PrepareFileSystem (K := K) ARCHIVE_FOLDER THUMBNAIL_FOLDER).
Local Abbreviation LoadData := (LoadData (K := K)).
Local Abbreviation serve := (serve (K := K) Port).
Local Abbreviation Run :=
  (Run (K := K) DATA_FOLDER ARCHIVE_FOLDER THUMBNAIL_FOLDER DB_LOCATION Port
       storage_Initialize).

(** The world [PrepareFileSystem] runs in: the database is open, and
    initialised if it was not. *)
Lemma Run_unfold (w : World (K := K)) :
  Run w =
    if bool_decide (DATA_FOLDER ∈ fs w) then
      let w1 :=
        with_calls (fun l => l ++ [new_SqliteAdapter])
          (with_calls (fun l => l ++ [new_Sqlite3 DB_LOCATION]) w) in
      let w2 :=
        if initialized (db w) then w1
        else
          with_db (storage_Initialize (map name (registry w)))
            (with_logged
               (fun l => l ++
                  ["Database doesn't initialized or malformed. Initialization..."%string])
               w1) in
      let w3 :=
        with_calls (fun l => l ++ [AddWriter_SqliteWriter])
          (with_calls (fun l => l ++ [new_Settings]) w2) in
      match PrepareFileSystem w3 with
      | (Done _, w4) => serve w4
      | (Thrown e, w4) =>
          (Exited 1,
           with_logged (fun l => l ++ ["Preparing filesystem error. " +:+ e]) w4)
      | (Exited c, w4) => (Exited c, w4)
      end
    else
      (Exited 1,
       with_logged
         (fun l => l ++
            ["'/app/data' folder doesn't exist. Maybe forgot to mount it"%string])
         w).
Proof.
  unfold App.Run, IsDataMounted, existsSync.
  unfold bind at 1. unfold get at 1.
  case_bool_decide as Hm; simpl negb; cbv iota.
  - unfold bind at 1. unfold ret at 1.
    unfold bind at 1. unfold call at 1, modify at 1.
    unfold bind at 1. unfold call at 1, modify at 1.
    unfold bind at 1. unfold get at 1. simpl initialized.
    destruct (initialized (db w)) eqn:Hi; simpl negb; cbv iota.
    + unfold bind at 1. unfold ret at 1.
      unfold bind at 1. unfold call at 1, modify at 1.
      unfold bind at 1. unfold call at 1, modify at 1.
      unfold bind at 1. unfold try_catch.
      cbv zeta.
      destruct (App.PrepareFileSystem _ _ _) as [[[]|e|c] w4]; reflexivity.
    + unfold bind at 1. unfold InitializeDb at 1.
      unfold bind at 1. unfold Log at 1, modify at 1.
      unfold bind at 1. unfold get at 1. unfold modify at 1.
      unfold bind at 1. unfold call at 1, modify at 1.
      unfold bind at 1. unfold call at 1, modify at 1.
      unfold bind at 1. unfold try_catch.
      cbv zeta. simpl registry.
      destruct (App.PrepareFileSystem _ _ _) as [[[]|e|c] w4]; reflexivity.
  - unfold bind, Log, modify, process_exit. reflexivity.
Qed.

(** [PrepareFileSystem] reads and writes the file system only. *)
Lemma PrepareFileSystem_frame (w w0 : World (K := K)) :
  fs w0 = fs w -> mkdir_error w0 = mkdir_error w ->
  (PrepareFileSystem w0).1 = (PrepareFileSystem w).1 /\
  fs (PrepareFileSystem w0).2 = fs (PrepareFileSystem w).2 /\
  mkdir_error (PrepareFileSystem w0).2 = mkdir_error w0 /\
  db (PrepareFileSystem w0).2 = db w0 /\
  logged (PrepareFileSystem w0).2 = logged w0 /\
  calls (PrepareFileSystem w0).2 = calls w0 /\
  registry (PrepareFileSystem w0).2 = registry w0 /\
  observables (PrepareFileSystem w0).2 = observables w0 /\
  archive (PrepareFileSystem w0).2 = archive w0.
Proof.
  intros Hfs Hmk.
  unfold App.PrepareFileSystem, bind, existsSync, get, mkdirSync, ret.
  destruct (bool_decide (ARCHIVE_FOLDER ∈ fs w)) eqn:HA;
    destruct (bool_decide (THUMBNAIL_FOLDER ∈ fs w)) eqn:HT;
    destruct (bool_decide (THUMBNAIL_FOLDER ∈ {[ARCHIVE_FOLDER]} ∪ fs w)) eqn:HT';
    destruct (mkdir_error w ARCHIVE_FOLDER) eqn:HmA;
    destruct (mkdir_error w THUMBNAIL_FOLDER) eqn:HmT;
    repeat (cbn; rewrite ?Hfs, ?Hmk, ?HA, ?HT, ?HT', ?HmA, ?HmT);
    repeat split; auto.
Qed.

(** C4. At startup, if the data directory is absent, or if it is there and
    the preparation of the file system (creating the archive and thumbnail
    folders) throws, [Run] ends the process with a non-zero exit code (1)
    before any state is loaded and before the server listens: the
    registry, the observables and the archive are as they were, and the
    only calls made are those that open the database. *)
Theorem Run_exits_nonzero (w : World (K := K)) :
  (DATA_FOLDER ∉ fs w ->
   exists (code : Z) (w' : World),
     Run w = (Exited code, w') /\ code <> 0 /\
     calls w' = calls w /\ db w' = db w /\
     registry w' = registry w /\ observables w' = observables w /\
     archive w' = archive w) /\
  (DATA_FOLDER ∈ fs w ->
   forall (e : exn) (w1 : World),
     PrepareFileSystem w = (Thrown e, w1) ->
     exists (code : Z) (w' : World),
       Run w = (Exited code, w') /\ code <> 0 /\
       calls w' =
         calls w ++ [new_Sqlite3 DB_LOCATION; new_SqliteAdapter;
                     new_Settings; AddWriter_SqliteWriter] /\
       registry w' = registry w /\ observables w' = observables w /\
       archive w' = archive w).
Proof.
  split.
  - intros Hm. rewrite Run_unfold, bool_decide_eq_false_2 by exact Hm.
    exists 1. eexists. split; [reflexivity|]. simpl. repeat split; auto; lia.
  - intros Hm e w1 Hthrow.
    rewrite Run_unfold, bool_decide_eq_true_2 by exact Hm. cbv zeta.
    match goal with |- context [PrepareFileSystem ?w3] =>
      destruct (PrepareFileSystem_frame w w3)
        as (Ho & _ & _ & _ & _ & Hc & Hr & Hobs & Ha);
      [ destruct (initialized (db w)); reflexivity
      | destruct (initialized (db w)); reflexivity
      | destruct (PrepareFileSystem w3) as [o w4] eqn:Hp ]
    end.
    rewrite Hthrow in Ho. simpl in *. subst o.
    exists 1. eexists. split; [reflexivity|]. simpl.
    rewrite Hc, Hr, Hobs, Ha.
    destruct (initialized (db w)); simpl; rewrite <- ?app_assoc; simpl;
      repeat split; auto; lia.
Qed.


(** *** Loading the persisted state *)

Lemma bind_get {A B : Type} (f : World (K := K) -> A) (k : A -> M B) (w : World) :
  bind (get f) k w = k (f w) w.
Proof. reflexivity. Qed.

Lemma bind_modify {B : Type} (f : World (K := K) -> World) (k : unit -> M B)
    (w : World) :
  bind (modify f) k w = k tt (f w).
Proof. reflexivity. Qed.

Lemma bind_call {B : Type} (c : Call) (k : unit -> M (K := K) B) (w : World) :
  bind (call c) k w = k tt (with_calls (fun l => l ++ [c]) w).
Proof. reflexivity. Qed.

Lemma bind_Done {A B : Type} (m : M (K := K) A) (k : A -> M B) (w w' : World)
    (a : A) :
  m w = (Done a, w') -> bind m k w = k a w'.
Proof. intros Hm. unfold bind. now rewrite Hm. Qed.

Lemma find_name_none (reg : list Plugin) (n : string) :
  List.find (fun p => String.eqb (name p) n) reg = None <-> n ∉ map name reg.
Proof.
  induction reg as [|p reg IH]; simpl.
  - split; auto. intros _ Hin. inversion Hin.
  - destruct (String.eqb_spec (name p) n) as [Heq|Hne].
    + split; [discriminate|]. intros Hn. exfalso. apply Hn. rewrite Heq. left.
    + rewrite IH. split.
      * intros Hn Hin. apply elem_of_cons in Hin as [Heq|Hin]; auto.
      * intros Hn Hin. apply Hn. now right.
Qed.

Lemma find_name_some (reg : list Plugin) (n : string) (p : Plugin) :
  List.find (fun p => String.eqb (name p) n) reg = Some p -> name p = n.
Proof.
  intros Hf. apply find_some in Hf as [_ Hn]. now apply String.eqb_eq in Hn.
Qed.

Lemma assign_plugin_names (x : PluginRow) (l : list Plugin) :
  map name (assign_plugin x l) = map name l.
Proof.
  induction l as [|p l IH]; simpl; auto.
  destruct (String.eqb (name p) (row_name x)); simpl; congruence.
Qed.

Lemma rank_le (order : list Z) (i : Z) : (rank order i <= length order)%nat.
Proof.
  induction order as [|j order IH]; simpl; [lia|].
  destruct (Z.eqb i j); simpl; lia.
Qed.

(** Reordering loses and adds no plugin. *)
Lemma elem_of_reorder (order : list Z) (l : list Plugin) (p : Plugin) :
  p ∈ reorder order l <-> p ∈ l.
Proof.
  unfold reorder. rewrite !list_elem_of_In, in_flat_map. split.
  - intros (r & _ & Hp). now apply filter_In in Hp as [Hp _].
  - intros Hp. exists (rank order (id p)). split.
    + apply in_seq. pose proof (rank_le order (id p)). lia.
    + apply filter_In. split; auto. apply Nat.eqb_refl.
Qed.

Lemma names_reorder (order : list Z) (l : list Plugin) (n : string) :
  n ∈ map name (reorder order l) <-> n ∈ map name l.
Proof.
  rewrite !list_elem_of_fmap. split; intros (p & Hn & Hp); exists p;
    (split; [exact Hn|]); now apply (elem_of_reorder order l p).
Qed.

(** The loop over the plugin rows keeps the names of the registry, and
    touches neither the database, the log nor the observables. *)
Lemma load_plugins_spec (rows : list PluginRow) (w : World (K := K)) :
  exists w' : World,
    forEach rows load_plugin w = (Done tt, w') /\
    map name (registry w') = map name (registry w) /\
    db w' = db w /\ logged w' = logged w /\
    observables w' = observables w /\ fs w' = fs w.
Proof.
  revert w. induction rows as [|x rows IH]; intros w.
  - exists w. simpl. unfold ret. repeat split; auto.
  - cbn [forEach]. unfold bind at 1. unfold load_plugin at 1, FindPlugin.
    rewrite bind_get.
    destruct (List.find _ (registry w)) as [p|].
    + rewrite bind_modify. unfold call, modify.
      match goal with |- context [forEach rows load_plugin ?w0] =>
        destruct (IH w0) as (w' & Hrun & Hn & Hd & Hl & Ho & Hf)
      end.
      exists w'. simpl in *. rewrite assign_plugin_names in Hn.
      repeat split; auto.
    + unfold ret. destruct (IH w) as (w' & Hrun & Hrest). exists w'. auto.
Qed.

Lemma resolve_names (reg : list Plugin) (names : list string) (ps : list Plugin) :
  resolve reg names = Some ps -> map name ps = names.
Proof.
  revert ps. induction names as [|n names IH]; intros ps; simpl.
  - now intros [= <-].
  - destruct (List.find _ reg) as [p|] eqn:Hf; [|discriminate].
    destruct (resolve reg names) as [ps'|]; [|discriminate].
    intros [= <-]. simpl. f_equal; auto. eapply find_name_some; eauto.
Qed.

Lemma resolve_none (reg : list Plugin) (names : list string) :
  resolve reg names = None <->
  exists n : string, first_missing reg names = Some n.
Proof.
  induction names as [|n names IH]; simpl.
  - split; [discriminate | intros [? ?]; discriminate].
  - destruct (List.find _ reg) as [p|]; [|split; eauto].
    rewrite <- IH. destruct (resolve reg names); split; congruence.
Qed.

Lemma first_missing_spec (reg : list Plugin) (names : list string) (n : string) :
  first_missing reg names = Some n -> n ∈ names /\ n ∉ map name reg.
Proof.
  induction names as [|n0 names IH]; simpl; [discriminate|].
  destruct (List.find _ reg) as [p|] eqn:Hf.
  - intros Hm. destruct (IH Hm). split; auto. now right.
  - intros [= <-]. split; [left|]. now apply find_name_none.
Qed.

Lemma resolve_complete (reg : list Plugin) (names : list string) :
  (forall n : string, n ∈ names -> n ∈ map name reg) ->
  exists ps : list Plugin, resolve reg names = Some ps.
Proof.
  intros Hall. destruct (resolve reg names) as [ps|] eqn:Hr; eauto.
  apply resolve_none in Hr as [n Hn].
  apply first_missing_spec in Hn as [Hin Hnot]. exfalso. auto.
Qed.

(** The inner loop: all the plugins, or the log line of the first one
    that is missing. *)
Lemma collect_plugins_spec (x : ObservableRow) (names : list string)
    (acc : list Plugin) (w : World (K := K)) :
  collect_plugins x names acc w =
    match resolve (registry w) names with
    | Some ps => (Done (Some (acc ++ ps)), w)
    | None =>
        (Done None,
         with_logged
           (fun l => l ++
              [missing_plugin_message x
                 (default ""%string (first_missing (registry w) names))]) w)
    end.
Proof.
  revert acc. induction names as [|n names IH]; intros acc; simpl.
  - unfold ret. now rewrite app_nil_r.
  - unfold FindPlugin. rewrite bind_get.
    destruct (List.find _ (registry w)) as [p|].
    + rewrite IH. destruct (resolve (registry w) names); [|reflexivity].
      now rewrite <- app_assoc.
    + reflexivity.
Qed.

Lemma loaded_cons (reg : list Plugin) (a : ObservableRow)
    (rows : list ObservableRow) (m : gmap string ObservableStream) :
  loaded_observables reg (a :: rows) m =
  loaded_observables reg rows
    match resolve reg (row_plugins a) with
    | Some ps =>
        <[row_url a :=
            {| url := row_url a; lastSeen := row_lastSeen a; plugins := ps |}]> m
    | None => m
    end.
Proof. reflexivity. Qed.

(** The loop over the observable rows. *)
Lemma load_observables_spec (rows : list ObservableRow) (w : World (K := K)) :
  exists w' : World,
    forEach rows load_observable w = (Done tt, w') /\
    registry w' = registry w /\ db w' = db w /\ calls w' = calls w /\
    archive w' = archive w /\ fs w' = fs w /\
    observables w' = loaded_observables (registry w) rows (observables w) /\
    (forall s : string, s ∈ logged w -> s ∈ logged w') /\
    (forall (x : ObservableRow) (n : string),
       x ∈ rows -> first_missing (registry w) (row_plugins x) = Some n ->
       missing_plugin_message x n ∈ logged w').
Proof.
  revert w. induction rows as [|x rows IH]; intros w.
  - exists w. simpl. unfold ret. repeat split; auto.
    intros x n Hx. inversion Hx.
  - cbn [forEach]. unfold bind at 1. unfold load_observable at 1.
    unfold bind at 1. rewrite collect_plugins_spec.
    rewrite loaded_cons.
    destruct (resolve (registry w) (row_plugins x)) as [ps|] eqn:Hr.
    + unfold modify.
      match goal with |- context [forEach rows load_observable ?w0] =>
        destruct (IH w0) as (w' & Hrun & Hreg & Hd & Hc & Ha & Hf & Ho & Hl & Hm)
      end.
      exists w'. simpl in *. repeat split; auto.
      intros x' n Hx' Hn. apply elem_of_cons in Hx' as [Heq|Hx']; eauto.
      subst x'.
      assert (resolve (registry w) (row_plugins x) = None)
        by (apply resolve_none; eauto).
      congruence.
    + unfold ret.
      match goal with |- context [forEach rows load_observable ?w0] =>
        destruct (IH w0) as (w' & Hrun & Hreg & Hd & Hc & Ha & Hf & Ho & Hl & Hm)
      end.
      exists w'. simpl in *. repeat split; auto.
      * intros s Hs. apply Hl. apply elem_of_app. now left.
      * intros x' n Hx' Hn. apply elem_of_cons in Hx' as [Heq|Hx']; eauto.
        subst x'.
        apply Hl. apply elem_of_app. right. rewrite Hn. simpl. left.
Qed.

(** What a list of rows leaves under a url: what was there, or the
    observable of one of its rows that misses no plugin. *)
Lemma loaded_lookup (reg : list Plugin) (rows : list ObservableRow)
    (m : gmap string ObservableStream) (u : string) :
  loaded_observables reg rows m !! u = m !! u \/
  exists (x : ObservableRow) (ps : list Plugin),
    x ∈ rows /\ row_url x = u /\ resolve reg (row_plugins x) = Some ps /\
    loaded_observables reg rows m !! u =
      Some {| url := row_url x; lastSeen := row_lastSeen x; plugins := ps |}.
Proof.
  revert m. induction rows as [|a rows IH]; intros m; [now left|].
  rewrite loaded_cons.
  destruct (resolve reg (row_plugins a)) as [ps|] eqn:Hr.
  - destruct (IH (<[row_url a :=
        {| url := row_url a; lastSeen := row_lastSeen a; plugins := ps |}]> m))
      as [Hsame|(x & ps' & Hx & Hu & Hr' & Hl)].
    + destruct (decide (row_url a = u)) as [Heq|Hne].
      * right. exists a, ps. rewrite Hsame, <- Heq, lookup_insert_eq.
        repeat split; auto. left.
      * left. now rewrite Hsame, lookup_insert_ne.
    + right. exists x, ps'. repeat split; auto. now right.
  - destruct (IH m) as [Hsame|(x & ps' & Hx & Hu & Hr' & Hl)]; [now left|].
    right. exists x, ps'. repeat split; auto. now right.
Qed.

(** A url all of whose rows miss a plugin is left as it was. *)
Lemma loaded_skip (reg : list Plugin) (rows : list ObservableRow)
    (m : gmap string ObservableStream) (u : string) :
  (forall x : ObservableRow,
     x ∈ rows -> row_url x = u -> resolve reg (row_plugins x) = None) ->
  loaded_observables reg rows m !! u = m !! u.
Proof.
  intros Hall.
  destruct (loaded_lookup reg rows m u) as [Hsame|(x & ps & Hx & Hu & Hr & _)];
    auto.
  rewrite (Hall x Hx Hu) in Hr. discriminate.
Qed.

(** A row that misses no plugin leaves an observable under its url: its
    own, or that of a later row of the same url. *)
Lemma loaded_complete (reg : list Plugin) (rows : list ObservableRow)
    (m : gmap string ObservableStream) (x : ObservableRow) (ps : list Plugin) :
  x ∈ rows -> resolve reg (row_plugins x) = Some ps ->
  exists (x' : ObservableRow) (ps' : list Plugin),
    x' ∈ rows /\ row_url x' = row_url x /\
    resolve reg (row_plugins x') = Some ps' /\
    loaded_observables reg rows m !! row_url x =
      Some {| url := row_url x'; lastSeen := row_lastSeen x'; plugins := ps' |}.
Proof.
  revert m. induction rows as [|a rows IH]; intros m Hx Hr; [inversion Hx|].
  rewrite loaded_cons.
  apply elem_of_cons in Hx as [Heq|Hx].
  - subst a. rewrite Hr.
    destruct (loaded_lookup reg rows
      (<[row_url x :=
          {| url := row_url x; lastSeen := row_lastSeen x; plugins := ps |}]> m)
      (row_url x)) as [Hsame|(x' & ps' & Hx' & Hu & Hr' & Hl)].
    + exists x, ps. rewrite Hsame, lookup_insert_eq. repeat split; auto. left.
    + exists x', ps'. repeat split; auto. now right.
  - match goal with |- context [loaded_observables reg rows ?m0] =>
      destruct (IH m0 Hx Hr) as (x' & ps' & Hx' & Hu & Hr' & Hl)
    end.
    exists x', ps'. repeat split; auto. now right.
Qed.

(** The loop over the tag rows touches the archive only. *)
Lemma load_tags_spec (ts : list TagRow) (w : World (K := K)) :
  exists w' : World,
    forEach ts (fun x => modify (with_archive (add_tag x))) w = (Done tt, w') /\
    db w' = db w /\ fs w' = fs w /\ registry w' = registry w /\
    observables w' = observables w /\ logged w' = logged w.
Proof.
  revert w. induction ts as [|t ts IH]; intros w.
  - exists w. simpl. unfold ret. repeat split; auto.
  - cbn [forEach]. rewrite bind_modify.
    destruct (IH (with_archive (add_tag t) w)) as (w' & Hrun & Hrest).
    exists w'. split; auto.
Qed.

(** [LoadData] returns: the names of the registry are those it had, the
    observables are those of the rows that miss no plugin, and the log has
    a line for every row that misses one. *)
Lemma LoadData_spec (w : World (K := K)) :
  exists w' : World,
    LoadData w = (Done tt, w') /\
    db w' = db w /\ fs w' = fs w /\
    (forall n : string, n ∈ map name (registry w') <-> n ∈ map name (registry w)) /\
    observables w' =
      loaded_observables (registry w') (observable_rows (db w)) (observables w) /\
    (forall s : string, s ∈ logged w -> s ∈ logged w') /\
    (forall (x : ObservableRow) (n : string),
       x ∈ observable_rows (db w) ->
       first_missing (registry w') (row_plugins x) = Some n ->
       missing_plugin_message x n ∈ logged w').
Proof.
  unfold App.LoadData. rewrite bind_get.
  destruct (load_plugins_spec (plugin_rows (db w)) w)
    as (w1 & Hrun1 & Hn1 & Hd1 & Hl1 & Ho1 & Hf1).
  rewrite (bind_Done _ _ _ _ _ Hrun1). rewrite bind_modify, bind_get.
  set (w2 := with_registry (reorder (map row_id (plugin_rows (db w)))) w1).
  assert (Hd2 : db w2 = db w) by exact Hd1.
  rewrite Hd2.
  destruct (load_observables_spec (observable_rows (db w)) w2)
    as (w3 & Hrun3 & Hr3 & Hd3 & Hc3 & Ha3 & Hf3 & Ho3 & Hl3 & Hm3).
  rewrite (bind_Done _ _ _ _ _ Hrun3). rewrite bind_get, bind_modify, bind_get.
  match goal with |- context [forEach ?l ?f ?w0] =>
    destruct (load_tags_spec l w0) as (w4 & Hrun4 & Hd4 & Hf4 & Hr4 & Ho4 & Hl4)
  end.
  exists w4. split; [exact Hrun4|]. simpl in *.
  rewrite Hd4, Hf4, Hr4, Ho4, Hl4, Hd3, Hf3, Hr3, Ho3. simpl.
  repeat split; auto.
  - intros Hn. apply names_reorder in Hn. now rewrite Hn1 in Hn.
  - intros Hn. apply names_reorder. now rewrite Hn1.
  - now rewrite Ho1.
  - intros s Hs. apply Hl3. simpl. now rewrite Hl1.
Qed.

Lemma resolve_some_registered (reg : list Plugin) (names : list string)
    (ps : list Plugin) :
  resolve reg names = Some ps ->
  forall n : string, n ∈ names -> n ∈ map name reg.
Proof.
  revert ps. induction names as [|n0 names IH]; intros ps; simpl.
  - intros _ n Hn. inversion Hn.
  - destruct (List.find _ reg) as [p|] eqn:Hf; [|discriminate].
    destruct (resolve reg names) as [ps'|] eqn:Hr; [|discriminate].
    intros _ n Hn. apply elem_of_cons in Hn as [->|Hn]; [|eapply IH; eauto].
    destruct (decide (n0 ∈ map name reg)) as [Hin|Hnot]; auto.
    apply find_name_none in Hnot. congruence.
Qed.

(** A row misses a plugin exactly when one of its names is not one of the
    registry. *)
Lemma resolve_none_names (reg : list Plugin) (names : list string) :
  resolve reg names = None <->
  exists n : string, n ∈ names /\ n ∉ map name reg.
Proof.
  split.
  - intros Hr. apply resolve_none in Hr as [n Hn].
    exists n. now apply first_missing_spec.
  - intros (n & Hn & Hnot). destruct (resolve reg names) as [ps|] eqn:Hr; auto.
    exfalso. apply Hnot. eapply resolve_some_registered; eauto.
Qed.

(** Once the file system is prepared, [Run] goes on to listen. *)
Lemma serve_spec (w : World (K := K)) :
  exists w' : World,
    serve w = (Done tt, w') /\
    (exists cs : list Call, calls w' = cs ++ [server_listen Port]) /\
    db w' = db w /\
    (forall n : string, n ∈ map name (registry w') <-> n ∈ map name (registry w)) /\
    observables w' =
      loaded_observables (registry w') (observable_rows (db w)) (observables w) /\
    (forall s : string, s ∈ logged w -> s ∈ logged w') /\
    (forall (x : ObservableRow) (n : string),
       x ∈ observable_rows (db w) ->
       first_missing (registry w') (row_plugins x) = Some n ->
       missing_plugin_message x n ∈ logged w').
Proof.
  unfold App.serve. rewrite bind_call.
  destruct (LoadData_spec (with_calls (fun l => l ++ [new_NotificationCenter]) w))
    as (w1 & Hrun & Hd & Hf & Hn & Ho & Hl & Hm).
  rewrite (bind_Done _ _ _ _ _ Hrun). rewrite !bind_call.
  unfold call, modify. eexists. split; [reflexivity|]. simpl in *.
  repeat split; auto; try apply Hn.
  eexists. reflexivity.
Qed.

(** C5, as the code has it. Malformed persisted state is not fatal: with
    the data directory present and the file system prepared, [Run] always
    goes on to listen, with no exit. A database that is not initialised (or
    malformed) is logged and initialised with the names of the registered
    plugins. An observable row that names a plugin the registry does not
    have is logged with a missing name and left out, so that a url all of
    whose rows miss a plugin gets no observable, while a row that misses
    none leaves an observable under its url (its own, or that of a later
    sound row of that url). *)
Theorem malformed_state_recovered (w : World (K := K)) :
  DATA_FOLDER ∈ fs w ->
  (PrepareFileSystem w).1 = Done tt ->
  exists w' : World,
    Run w = (Done tt, w') /\
    (exists cs : list Call, calls w' = cs ++ [server_listen Port]) /\
    (initialized (db w) = false ->
     db w' = storage_Initialize (map name (registry w)) (db w) /\
     "Database doesn't initialized or malformed. Initialization..."%string
       ∈ logged w') /\
    (initialized (db w) = true -> db w' = db w) /\
    (forall (x : ObservableRow) (n : string),
       x ∈ observable_rows (db w') ->
       n ∈ row_plugins x -> n ∉ map name (registry w) ->
       exists n' : string,
         n' ∈ row_plugins x /\ (n' ∉ map name (registry w)) /\
         missing_plugin_message x n' ∈ logged w') /\
    (forall u : string,
       (forall x : ObservableRow,
          x ∈ observable_rows (db w') -> row_url x = u ->
          exists n : string, n ∈ row_plugins x /\ n ∉ map name (registry w)) ->
       observables w' !! u = observables w !! u) /\
    (forall x : ObservableRow,
       x ∈ observable_rows (db w') ->
       (forall n : string, n ∈ row_plugins x -> n ∈ map name (registry w)) ->
       exists (x' : ObservableRow) (ps : list Plugin),
         x' ∈ observable_rows (db w') /\ row_url x' = row_url x /\
         map name ps = row_plugins x' /\
         observables w' !! row_url x =
           Some {| url := row_url x'; lastSeen := row_lastSeen x';
                   plugins := ps |}).
Proof.
  intros Hm Hprep.
  rewrite Run_unfold, bool_decide_eq_true_2 by exact Hm. cbv zeta.
  match goal with |- context [PrepareFileSystem ?w3] =>
    destruct (PrepareFileSystem_frame w w3)
      as (Ho & _ & _ & Hd & Hl & _ & Hr & Hobs & _);
    [ destruct (initialized (db w)); reflexivity
    | destruct (initialized (db w)); reflexivity
    | destruct (PrepareFileSystem w3) as [o w4] eqn:Hp ]
  end.
  rewrite Hprep in Ho. simpl in Ho, Hd, Hl, Hr, Hobs. subst o.
  destruct (serve_spec w4) as (w' & Hrun & Hcalls & Hd' & Hn & Ho' & Hl' & Hm').
  exists w'. split; [exact Hrun|]. split; [exact Hcalls|].
  assert (Hreg : registry w4 = registry w)
    by (rewrite Hr; destruct (initialized (db w)); reflexivity).
  assert (Hobs4 : observables w4 = observables w)
    by (rewrite Hobs; destruct (initialized (db w)); reflexivity).
  assert (Hnames : forall n : string,
            n ∈ map name (registry w') <-> n ∈ map name (registry w))
    by (intros n; rewrite Hn, Hreg; reflexivity).
  assert (Hnone : forall names : list string,
            resolve (registry w') names = None <->
            exists n : string, n ∈ names /\ n ∉ map name (registry w)).
  { intros names. rewrite resolve_none_names.
    split; intros (n & Hin & Hnot); exists n; split; auto;
      intros Hc; apply Hnot; now apply Hnames. }
  rewrite Hd', Ho', Hobs4.
  split; [|split; [|split; [|split]]].
  - intros Hi. rewrite Hd, Hi. simpl. split; auto.
    apply Hl'. rewrite Hl, Hi. simpl.
    apply elem_of_app. right. left.
  - intros Hi. now rewrite Hd, Hi.
  - intros x n Hx Hin Hnot.
    assert (Hres : resolve (registry w') (row_plugins x) = None)
      by (apply Hnone; eauto).
    apply resolve_none in Hres as [n' Hn'].
    exists n'. pose proof (first_missing_spec _ _ _ Hn') as [Hin' Hnot'].
    repeat split; auto.
    intros Hc. apply Hnot'. now apply Hnames.
  - intros u Hall. apply loaded_skip.
    intros x Hx Hu. apply Hnone. exact (Hall x Hx Hu).
  - intros x Hx Hall.
    destruct (resolve (registry w') (row_plugins x)) as [ps|] eqn:Hres.
    + destruct (loaded_complete (registry w') _ (observables w) x ps Hx Hres)
        as (x' & ps' & Hx' & Hu & Hr' & Hlk).
      exists x', ps'. repeat split; auto. eapply resolve_names; eauto.
    + apply Hnone in Hres as (n & Hin & Hnot). exfalso. auto.
Qed.

End Run.

End RunFacts.

(** ** The bootstrap on concrete worlds *)
Module StartupExamples.
Import Js App Worlds.

(** Without the data folder, and with a data folder no directory can be
    made in, the process exits with code 1. *)
Lemma Run_exits_nonzero_witness :
  (exists (code : Z) (w' : World),
     run unmounted_world = (Exited code, w') /\ code <> 0) /\
  (exists (code : Z) (w' : World),
     run readonly_world = (Exited code, w') /\ code <> 0 /\
     observables w' = ∅).
Proof.
  split.
  - destruct (RunFacts.Run_exits_nonzero
                "data" "data/archive" "data/archive/thumbnail" "data/db.sqlite3"
                8080 Initialize unmounted_world) as [Habsent _].
    destruct Habsent as (code & w' & Hrun & Hcode & _).
    { apply not_elem_of_empty. }
    exists code, w'. split; assumption.
  - destruct (RunFacts.Run_exits_nonzero
                "data" "data/archive" "data/archive/thumbnail" "data/db.sqlite3"
                8080 Initialize readonly_world) as [_ Hthrows].
    destruct (Hthrows ltac:(apply elem_of_singleton; reflexivity)
                "EACCES: permission denied"%string readonly_world eq_refl)
      as (code & w' & Hrun & Hcode & _ & _ & Hobs & _).
    exists code, w'. repeat split; assumption.
Defined.

(** The claim that malformed persisted state ends the process fails: a
    blank database file is initialised, and an observable that names the
    unregistered plugin "myfreecams" is passed over; in both worlds [Run]
    returns with the server listening. *)
Lemma malformed_state_fatal_counterexample :
  (initialized (db blank_world) = false /\
   (run blank_world).1 = Done tt /\
   last (calls (run blank_world).2) = Some (server_listen 8080)) /\
  ((exists (x : ObservableRow) (n : string),
      x ∈ observable_rows (db stale_world) /\ n ∈ row_plugins x /\
      n ∉ map name (registry stale_world)) /\
   (run stale_world).1 = Done tt /\
   last (calls (run stale_world).2) = Some (server_listen 8080)).
Proof.
  split; [repeat split; vm_compute; reflexivity|].
  split; [|split; vm_compute; reflexivity].
  exists {| row_url := "https://site/alice"; row_lastSeen := 100;
            row_plugins := ["chaturbate"; "myfreecams"]%string |},
         "myfreecams"%string.
  split; [left|]. split; [right; left|].
  intros Hin. simpl in Hin.
  repeat (apply elem_of_cons in Hin as [Hin|Hin]; [discriminate|]).
  inversion Hin.
Qed.

(** In the world of [stale_db], [Run] returns, the observable that names
    "myfreecams" is left out and the sound one is loaded. *)
Lemma malformed_state_recovered_witness :
  exists w' : World,
    run stale_world = (Done tt, w') /\
    observables w' !! "https://site/alice"%string = None /\
    is_Some (observables w' !! "https://site/bob"%string).
Proof.
  destruct (RunFacts.malformed_state_recovered
              "data" "data/archive" "data/archive/thumbnail" "data/db.sqlite3"
              8080 Initialize stale_world)
    as (w' & Hrun & _ & _ & Hdb & _ & Hskip & Hload).
  { apply elem_of_singleton. reflexivity. }
  { vm_compute. reflexivity. }
  exists w'. split; [exact Hrun|].
  rewrite (Hdb eq_refl) in Hskip, Hload. split.
  - rewrite Hskip; [reflexivity|].
    intros x Hx Hu. exists "myfreecams"%string.
    simpl in Hx.
    apply elem_of_cons in Hx as [->|Hx].
    + split; [right; left|].
      intros Hin. simpl in Hin.
      repeat (apply elem_of_cons in Hin as [Hin|Hin]; [discriminate|]).
      inversion Hin.
    + apply list_elem_of_singleton in Hx. subst x. discriminate.
  - destruct (Hload {| row_url := "https://site/bob"; row_lastSeen := 200;
                       row_plugins := ["dummy"; "chaturbate"]%string |})
      as (x' & ps & _ & _ & _ & Hlk).
    + right. left.
    + intros n Hn. simpl in Hn.
      apply elem_of_cons in Hn as [->|Hn]; [simpl; repeat (left || right)|].
      apply list_elem_of_singleton in Hn. subst n. simpl.
      repeat (left || right).
    + simpl in Hlk. rewrite Hlk. eexists. reflexivity.
Defined.

End StartupExamples.

(** ** File names *)
Module FilenameFacts.
Import Js Util.

(** *** The timestamp *)

Lemma padded_below (len bound n : nat) :
  forallb (padded_ok len) (seq 0 bound) = true ->
  (n < bound)%nat ->
  length (padStart0 len (String_of_nat n)) = len /\
  forallb is_digit (padStart0 len (String_of_nat n)) = true.
Proof.
  intros Hall Hn. rewrite forallb_forall in Hall.
  specialize (Hall n). unfold padded_ok in Hall.
  rewrite andb_true_iff, Nat.eqb_eq in Hall. apply Hall.
  apply in_seq. lia.
Qed.

Lemma two_digits (n : nat) :
  (n < 100)%nat ->
  length (padStart0 2 (String_of_nat n)) = 2%nat /\
  forallb is_digit (padStart0 2 (String_of_nat n)) = true.
Proof. apply padded_below. vm_compute. reflexivity. Qed.

Lemma four_digits (n : nat) :
  Z.of_nat n < 10000 ->
  length (padStart0 4 (String_of_nat n)) = 4%nat /\
  forallb is_digit (padStart0 4 (String_of_nat n)) = true.
Proof.
  intros Hn. apply (padded_below 4 (Z.to_nat 10000)); [|lia].
  vm_compute. reflexivity.
Qed.

(** A field below 100 padded to two characters: its tens and its units. *)
Lemma two_digits_value (n : nat) :
  (n < 100)%nat ->
  padStart0 2 (String_of_nat n) =
  [ascii_of_nat (48 + n / 10); ascii_of_nat (48 + n mod 10)].
Proof.
  intros Hn.
  assert (Hall :
    forallb
      (fun n =>
         String.eqb
           (string_of_list_ascii (padStart0 2 (String_of_nat n)))
           (string_of_list_ascii
              [ascii_of_nat (48 + n / 10); ascii_of_nat (48 + n mod 10)]))
      (seq 0 100) = true) by (vm_compute; reflexivity).
  rewrite forallb_forall in Hall.
  specialize (Hall n ltac:(apply in_seq; lia)).
  apply String.eqb_eq in Hall.
  apply (f_equal list_ascii_of_string) in Hall.
  now rewrite !list_ascii_of_string_of_list_ascii in Hall.
Qed.

(** A year below 10000 padded to four characters: its four digits. *)
Lemma four_digits_value (n : nat) :
  Z.of_nat n < 10000 ->
  padStart0 4 (String_of_nat n) =
  [ascii_of_nat (48 + n / 1000); ascii_of_nat (48 + n / 100 mod 10);
   ascii_of_nat (48 + n / 10 mod 10); ascii_of_nat (48 + n mod 10)].
Proof.
  intros Hn.
  assert (Hall :
    forallb
      (fun n =>
         String.eqb
           (string_of_list_ascii (padStart0 4 (String_of_nat n)))
           (string_of_list_ascii
              [ascii_of_nat (48 + n / 1000); ascii_of_nat (48 + n / 100 mod 10);
               ascii_of_nat (48 + n / 10 mod 10); ascii_of_nat (48 + n mod 10)]))
      (seq 0 (Z.to_nat 10000)) = true) by (vm_compute; reflexivity).
  rewrite forallb_forall in Hall.
  specialize (Hall n ltac:(apply in_seq; lia)).
  apply String.eqb_eq in Hall.
  apply (f_equal list_ascii_of_string) in Hall.
  now rewrite !list_ascii_of_string_of_list_ascii in Hall.
Qed.

(** The timestamp of an instant of the calendar, digit by digit: day,
    month, year, hour, minute, second. *)
Lemma format_fields (t : DateTime) :
  DateTime_ok t ->
  format_DDMMYYYYHHmmss t =
  [ascii_of_nat (48 + day t / 10); ascii_of_nat (48 + day t mod 10)] ++
  [ascii_of_nat (48 + month t / 10); ascii_of_nat (48 + month t mod 10)] ++
  [ascii_of_nat (48 + year t / 1000); ascii_of_nat (48 + year t / 100 mod 10);
   ascii_of_nat (48 + year t / 10 mod 10); ascii_of_nat (48 + year t mod 10)] ++
  [ascii_of_nat (48 + hour t / 10); ascii_of_nat (48 + hour t mod 10)] ++
  [ascii_of_nat (48 + minute t / 10); ascii_of_nat (48 + minute t mod 10)] ++
  [ascii_of_nat (48 + second t / 10); ascii_of_nat (48 + second t mod 10)].
Proof.
  intros (Hy & Hmo & Hd & Hh & Hmi & Hs). unfold format_DDMMYYYYHHmmss.
  rewrite (two_digits_value (day t)) by lia.
  rewrite (two_digits_value (month t)) by lia.
  rewrite (four_digits_value (year t)) by lia.
  rewrite (two_digits_value (hour t)) by lia.
  rewrite (two_digits_value (minute t)) by lia.
  rewrite (two_digits_value (second t)) by lia.
  reflexivity.
Qed.

(** The timestamp of an instant of the calendar has fourteen digits. *)
Lemma format_fourteen_digits (t : DateTime) :
  DateTime_ok t ->
  length (format_DDMMYYYYHHmmss t) = 14%nat /\
  forallb is_digit (format_DDMMYYYYHHmmss t) = true.
Proof.
  intros (Hy & Hmo & Hd & Hh & Hmi & Hs). unfold format_DDMMYYYYHHmmss.
  destruct (two_digits (day t)) as [L1 D1]; [lia|].
  destruct (two_digits (month t)) as [L2 D2]; [lia|].
  destruct (four_digits (year t)) as [L3 D3]; [lia|].
  destruct (two_digits (hour t)) as [L4 D4]; [lia|].
  destruct (two_digits (minute t)) as [L5 D5]; [lia|].
  destruct (two_digits (second t)) as [L6 D6]; [lia|].
  rewrite !length_app, !forallb_app, L1, L2, L3, L4, L5, L6,
    D1, D2, D3, D4, D5, D6.
  split; reflexivity.
Qed.

(** *** The random suffix *)

Lemma hex_digits_of_byte (b : Byte.byte) :
  is_hex (hex_digit (Byte.to_N b / 16)) = true /\
  is_hex (hex_digit (Byte.to_N b mod 16)) = true.
Proof. destruct b; split; reflexivity. Qed.

Lemma unique_suffix_unfold (entropy : nat -> Byte.byte) :
  unique_suffix entropy =
    [ hex_digit (Byte.to_N (entropy 0%nat) / 16);
      hex_digit (Byte.to_N (entropy 0%nat) mod 16);
      hex_digit (Byte.to_N (entropy 1%nat) / 16);
      hex_digit (Byte.to_N (entropy 1%nat) mod 16);
      hex_digit (Byte.to_N (entropy 2%nat) / 16);
      hex_digit (Byte.to_N (entropy 2%nat) mod 16) ].
Proof. reflexivity. Qed.

(** Six lowercase hexadecimal digits, whatever the entropy. *)
Lemma unique_suffix_six_hex (entropy : nat -> Byte.byte) :
  length (unique_suffix entropy) = 6%nat /\
  forallb is_hex (unique_suffix entropy) = true.
Proof.
  rewrite unique_suffix_unfold. split; [reflexivity|].
  cbn [forallb].
  destruct (hex_digits_of_byte (entropy 0%nat)) as [-> ->].
  destruct (hex_digits_of_byte (entropy 1%nat)) as [-> ->].
  destruct (hex_digits_of_byte (entropy 2%nat)) as [-> ->].
  reflexivity.
Qed.

(** *** The user *)

(** The first piece of a split: up to the first separator. *)
Lemma split_head (sep : ascii) (user rest : str) :
  sep ∉ user ->
  rest = [] \/ (exists rest' : str, rest = sep :: rest') ->
  exists tl : list str, split sep (user ++ rest) = user :: tl.
Proof.
  intros Hsep Hrest. induction user as [|c user IH]; simpl.
  - destruct Hrest as [->|[rest' ->]]; simpl.
    + eexists. reflexivity.
    + rewrite Ascii.eqb_refl. eexists. reflexivity.
  - destruct (Ascii.eqb_spec c sep) as [->|Hne].
    + exfalso. apply Hsep. left.
    + destruct IH as [tl ->]; [|eexists; reflexivity].
      intros Hin. apply Hsep. now right.
Qed.

(** [path[1]] of a path that starts with a slash is its first segment. *)
Lemma first_segment (user rest : str) :
  "/"%char ∉ user ->
  rest = [] \/ (exists rest' : str, rest = "/"%char :: rest') ->
  split "/"%char ("/"%char :: user ++ rest) !! 1%nat = Some user.
Proof.
  intros Hsep Hrest. simpl.
  destruct (split_head "/"%char user rest Hsep Hrest) as [tl ->]. reflexivity.
Qed.

Section WithUrlParser.
Variable URL_new : str -> option URL.

(** Every file name ends with the six digits drawn and the extension. *)
Lemma GenFilename_suffix (url : str) (entropy : nat -> Byte.byte)
    (now : DateTime) (f : str) :
  GenFilename URL_new url entropy now = Done f ->
  exists front : str, f = front ++ unique_suffix entropy ++ lit ".mp4".
Proof.
  unfold GenFilename, UsernameFromUrl.
  destruct (URL_new url) as [u|]; [|discriminate].
  intros [= <-].
  exists (hostname u ++ lit "_" ++
          interpolate (split "/"%char (pathname u) !! 1%nat) ++ lit "_" ++
          format_DDMMYYYYHHmmss now ++ lit "_").
  now rewrite <- !app_assoc.
Qed.

(** C6. For every source URL that parses and whose path starts with a
    slash, at an instant of the calendar with a four-digit year, the file
    name generated is the host name, the user (the first segment of the
    path), a timestamp and a suffix of six hexadecimal digits, joined by
    underscores and followed by ".mp4". The timestamp is that of the
    instant: fourteen digits, which are the day, the month, the year (on
    four digits), the hour, the minute and the second, in this order, each
    of the others on two digits with a leading zero where it is below ten.
    And two file names generated with distinct suffixes are distinct,
    whatever their URLs and instants. *)
Theorem GenFilename_shape :
  (forall (url : str) (u : URL) (user rest : str)
          (entropy : nat -> Byte.byte) (now : DateTime),
     URL_new url = Some u ->
     pathname u = "/"%char :: user ++ rest ->
     "/"%char ∉ user ->
     rest = [] \/ (exists rest' : str, rest = "/"%char :: rest') ->
     DateTime_ok now ->
     exists timestamp suffix : str,
       GenFilename URL_new url entropy now =
         Done (hostname u ++ lit "_" ++ user ++ lit "_" ++
               timestamp ++ lit "_" ++ suffix ++ lit ".mp4") /\
       timestamp =
         [ascii_of_nat (48 + day now / 10); ascii_of_nat (48 + day now mod 10)] ++
         [ascii_of_nat (48 + month now / 10);
          ascii_of_nat (48 + month now mod 10)] ++
         [ascii_of_nat (48 + year now / 1000);
          ascii_of_nat (48 + year now / 100 mod 10);
          ascii_of_nat (48 + year now / 10 mod 10);
          ascii_of_nat (48 + year now mod 10)] ++
         [ascii_of_nat (48 + hour now / 10); ascii_of_nat (48 + hour now mod 10)] ++
         [ascii_of_nat (48 + minute now / 10);
          ascii_of_nat (48 + minute now mod 10)] ++
         [ascii_of_nat (48 + second now / 10);
          ascii_of_nat (48 + second now mod 10)] /\
       length timestamp = 14%nat /\ forallb is_digit timestamp = true /\
       length suffix = 6%nat /\ forallb is_hex suffix = true /\
       suffix = unique_suffix entropy) /\
  (forall (url1 url2 : str) (entropy1 entropy2 : nat -> Byte.byte)
          (now1 now2 : DateTime) (f1 f2 : str),
     GenFilename URL_new url1 entropy1 now1 = Done f1 ->
     GenFilename URL_new url2 entropy2 now2 = Done f2 ->
     unique_suffix entropy1 <> unique_suffix entropy2 ->
     f1 <> f2).
Proof.
  split.
  - intros url u user rest entropy now Hu Hpath Hsep Hrest Hnow.
    exists (format_DDMMYYYYHHmmss now), (unique_suffix entropy).
    destruct (format_fourteen_digits now Hnow) as [Hlen Hdig].
    destruct (unique_suffix_six_hex entropy) as [Hlen' Hhex].
    split; [|split; [exact (format_fields now Hnow)|repeat split; auto]].
    unfold GenFilename, UsernameFromUrl. rewrite Hu, Hpath.
    now rewrite (first_segment user rest Hsep Hrest).
  - intros url1 url2 e1 e2 now1 now2 f1 f2 H1 H2 Hne Heq.
    apply GenFilename_suffix in H1 as [front1 ->].
    apply GenFilename_suffix in H2 as [front2 ->].
    apply app_inj_2 in Heq as [_ Heq].
    + apply app_inj_1 in Heq as [Heq _]; [contradiction|].
      destruct (unique_suffix_six_hex e1) as [-> _].
      now destruct (unique_suffix_six_hex e2) as [-> _].
    + rewrite !length_app.
      destruct (unique_suffix_six_hex e1) as [-> _].
      now destruct (unique_suffix_six_hex e2) as [-> _].
Qed.
End WithUrlParser.

(** The file name of "https://site.com/user/" on 2 January 2020, at
    03:04:05. *)
Lemma GenFilename_shape_witness :
  exists timestamp suffix : str,
    GenFilename Samples.parse (lit "https://site.com/user/")
      Samples.entropy_12abff Samples.instant =
      Done (lit "site.com" ++ lit "_" ++ lit "user" ++ lit "_" ++
            timestamp ++ lit "_" ++ suffix ++ lit ".mp4") /\
    timestamp = lit "02012020030405" /\
    length timestamp = 14%nat /\ forallb is_digit timestamp = true /\
    length suffix = 6%nat /\ forallb is_hex suffix = true /\
    suffix = lit "12abff".
Proof.
  destruct (proj1 (GenFilename_shape Samples.parse)
              (lit "https://site.com/user/")
              {| hostname := lit "site.com"; pathname := lit "/user/" |}
              (lit "user") (lit "/") Samples.entropy_12abff Samples.instant)
    as (timestamp & suffix & Hrun & Hstamp & Hl & Hd & Hl' & Hh & Hs).
  - reflexivity.
  - reflexivity.
  - intros Hin. vm_compute in Hin.
    repeat (apply elem_of_cons in Hin as [Hin|Hin]; [discriminate|]).
    inversion Hin.
  - right. exists []. reflexivity.
  - vm_compute. repeat split; try lia; discriminate.
  - exists timestamp, suffix.
    split; [exact Hrun|]. split; [exact Hstamp|]. repeat split; auto.
Defined.

(** C10, at the file name [GenFilename] returns for "https://site.com/":
    the user is empty, the regular expression asks for one character of
    user at least, nothing matches and the file name comes back as it is,
    with its suffix 12abff, whatever suffix is drawn. *)
Theorem GenClipFilename_keeps_userless_name :
  GenFilename Samples.parse (lit "https://site.com/")
    Samples.entropy_12abff Samples.instant =
    Done (lit "site.com__02012020030405_12abff.mp4") /\
  (forall entropy : nat -> Byte.byte,
     GenClipFilename (lit "site.com__02012020030405_12abff.mp4") entropy =
     lit "site.com__02012020030405_12abff.mp4") /\
  unique_suffix Samples.entropy_zero = lit "000000" /\
  GenClipFilename (lit "site.com__02012020030405_12abff.mp4")
    Samples.entropy_zero <>
  lit "site.com__02012020030405_000000.mp4".
Proof.
  split; [vm_compute; reflexivity|].
  assert (Hnone : exec clip_regex (lit "site.com__02012020030405_12abff.mp4") = None)
    by (vm_compute; reflexivity).
  assert (Hkeep : forall entropy : nat -> Byte.byte,
            GenClipFilename (lit "site.com__02012020030405_12abff.mp4") entropy =
            lit "site.com__02012020030405_12abff.mp4").
  { intros entropy. unfold GenClipFilename, replace. now rewrite Hnone. }
  split; [exact Hkeep|]. split; [reflexivity|].
  rewrite Hkeep. vm_compute. discriminate.
Qed.

End FilenameFacts.

(** ** The regular expression of the clip names *)
Module RegexFacts.
Import Js Util.

Lemma strip_prefix_inv (l s s' : str) :
  strip_prefix l s = Some s' -> s = l ++ s'.
Proof.
  revert s. induction l as [|a l IH]; intros s; simpl.
  - now intros [= ->].
  - destruct s as [|b s]; [discriminate|].
    destruct (Ascii.eqb_spec a b) as [->|Hne]; [|discriminate].
    intros Hs. now rewrite (IH _ Hs).
Qed.

Lemma strip_prefix_app (l s : str) : strip_prefix l (l ++ s) = Some s.
Proof.
  induction l as [|a l IH]; simpl; auto. now rewrite Ascii.eqb_refl.
Qed.

Section Quantifiers.
Context {R : Type}.
Implicit Types (k : cont (R := R)) (p : ascii -> bool) (s : str).

(** An unbounded greedy quantifier that fails has no repetition the rest
    of the pattern accepts. *)
Lemma rep_greedy_none p (min : nat) s (cs : captures) k :
  rep_greedy p min None s cs k = None ->
  forall n : nat,
    (min <= n <= length s)%nat -> forallb p (take n s) = true ->
    k (drop n s) cs = None.
Proof.
  revert min. induction s as [|c s IH]; intros min Hnone n Hn Hp.
  - assert (n = 0%nat) as -> by (simpl in Hn; lia).
    assert (min = 0%nat) as -> by lia. exact Hnone.
  - cbn [rep_greedy] in Hnone. cbn [max_allows max_pred] in Hnone.
    rewrite andb_true_r in Hnone.
    destruct n as [|n].
    + assert (min = 0%nat) as -> by lia. cbn [Nat.eqb] in Hnone.
      destruct (p c); [|exact Hnone].
      destruct (rep_greedy p _ None s cs k); [discriminate|exact Hnone].
    + cbn [take forallb] in Hp. apply andb_true_iff in Hp as [Hc Hp].
      rewrite Hc in Hnone. cbn [drop].
      destruct (rep_greedy p (Nat.pred min) None s cs k) eqn:Hrec;
        [discriminate|].
      apply (IH _ Hrec); auto. simpl in Hn. lia.
Qed.

(** An unbounded greedy quantifier that succeeds has taken the longest
    repetition the rest of the pattern accepts. *)
Lemma rep_greedy_inv p (min : nat) s (cs : captures) k (r : R) :
  rep_greedy p min None s cs k = Some r ->
  exists n : nat,
    (min <= n <= length s)%nat /\ forallb p (take n s) = true /\
    k (drop n s) cs = Some r /\
    forall n' : nat,
      (n < n' <= length s)%nat -> forallb p (take n' s) = true ->
      k (drop n' s) cs = None.
Proof.
  revert min. induction s as [|c s IH]; intros min Hsome.
  - cbn [rep_greedy] in Hsome.
    destruct min as [|min]; [|discriminate].
    exists 0%nat. repeat split; auto. intros n' Hn'. simpl in Hn'. lia.
  - cbn [rep_greedy max_allows max_pred] in Hsome.
    rewrite andb_true_r in Hsome.
    destruct (p c) eqn:Hc.
    + destruct (rep_greedy p (Nat.pred min) None s cs k) as [r'|] eqn:Hrec.
      * injection Hsome as ->.
        destruct (IH _ Hrec) as (n & Hn & Hp & Hk & Hmax).
        exists (S n). cbn [take forallb drop length]. rewrite Hc, Hp.
        repeat split; auto; try lia.
        intros [|n'] Hn' Hp'; [lia|].
        cbn [take forallb] in Hp'. apply andb_true_iff in Hp' as [_ Hp'].
        cbn [drop]. apply Hmax; auto. simpl in Hn'. lia.
      * destruct min as [|min]; [|discriminate].
        exists 0%nat. cbn [take forallb drop]. repeat split; auto; try (simpl; lia).
        intros [|n'] Hn' Hp'; [lia|].
        cbn [take forallb] in Hp'. apply andb_true_iff in Hp' as [_ Hp'].
        cbn [drop]. apply (rep_greedy_none _ _ _ _ _ Hrec); auto.
        simpl in *. lia.
    + destruct min as [|min]; [|discriminate].
      exists 0%nat. cbn [take forallb drop]. repeat split; auto; try (simpl; lia).
      intros [|n'] Hn' Hp'; [lia|].
      cbn [take forallb] in Hp'. rewrite Hc in Hp'. discriminate.
Qed.

(** A greedy quantifier with a fixed count takes that many characters. *)
Lemma rep_greedy_exact p (n : nat) s (cs : captures) k :
  rep_greedy p n (Some n) s cs k =
    if (n <=? length s)%nat && forallb p (take n s)
    then k (drop n s) cs else None.
Proof.
  revert s. induction n as [|n IH]; intros s.
  - destruct s as [|c s]; cbn [rep_greedy max_allows]; [reflexivity|].
    now rewrite andb_false_r.
  - destruct s as [|c s]; cbn [rep_greedy max_allows max_pred]; [reflexivity|].
    rewrite andb_true_r. cbn [Nat.pred Nat.eqb take forallb drop length].
    destruct (p c); simpl; [|now rewrite andb_false_r].
    rewrite IH. cbn [Nat.leb].
    now destruct ((n <=? length s)%nat && forallb p (take n s)), (k (drop n s) cs).
Qed.

(** So does a lazy one. *)
Lemma rep_lazy_exact p (n : nat) s (cs : captures) k :
  rep_lazy p n (Some n) s cs k =
    if (n <=? length s)%nat && forallb p (take n s)
    then k (drop n s) cs else None.
Proof.
  revert s. induction n as [|n IH]; intros s.
  - destruct s as [|c s]; cbn [rep_lazy max_allows Nat.eqb].
    + simpl. now destruct (k [] cs).
    + rewrite andb_false_r. simpl. now destruct (k (c :: s) cs).
  - destruct s as [|c s]; cbn [rep_lazy max_allows max_pred Nat.eqb];
      [reflexivity|].
    rewrite andb_true_r. cbn [Nat.pred take forallb drop length].
    destruct (p c); simpl; [|now rewrite andb_false_r].
    now rewrite IH.
Qed.

(** [_\d{14}_] on a stamp. *)
Lemma stamp_match (ts rest : str) (cs : captures) k :
  length ts = 14%nat -> forallb is_digit ts = true ->
  rmatch clip_stamp ("_"%char :: ts ++ "_"%char :: rest) cs k = k rest cs.
Proof.
  intros Hlen Hdig. cbn [rmatch clip_stamp lit list_ascii_of_string strip_prefix].
  rewrite Ascii.eqb_refl, rep_greedy_exact.
  rewrite length_app, Hlen. cbn [Nat.leb Nat.add].
  rewrite take_app_length' by (now symmetry). rewrite Hdig.
  rewrite drop_app_length' by (now symmetry).
  cbn [andb strip_prefix]. now rewrite Ascii.eqb_refl.
Qed.

Lemma stamp_inv s (cs : captures) k (r : R) :
  rmatch clip_stamp s cs k = Some r ->
  exists ts rest : str,
    s = "_"%char :: ts ++ "_"%char :: rest /\ length ts = 14%nat /\
    k rest cs = Some r.
Proof.
  cbn [rmatch clip_stamp]. intros Hm.
  destruct (strip_prefix (lit "_") s) as [s4|] eqn:Hs4; [|discriminate].
  apply strip_prefix_inv in Hs4. rewrite rep_greedy_exact in Hm.
  destruct ((14 <=? length s4)%nat && forallb is_digit (take 14 s4)) eqn:Hc;
    [|discriminate].
  apply andb_true_iff in Hc as [Hlen _]. apply Nat.leb_le in Hlen.
  destruct (strip_prefix (lit "_") (drop 14 s4)) as [s6|] eqn:Hs6; [|discriminate].
  apply strip_prefix_inv in Hs6.
  exists (take 14 s4), s6. repeat split.
  - rewrite Hs4. cbn [lit list_ascii_of_string app] in *.
    now rewrite <- Hs6, take_drop.
  - rewrite length_take. lia.
  - exact Hm.
Qed.

(** [([a-f0-9]{6}?)(\.mp4)] on a suffix. *)
Lemma suffix_match (hex rest : str) (cs : captures) k :
  length hex = 6%nat -> forallb is_hex hex = true ->
  rmatch clip_suffix (hex ++ lit ".mp4" ++ rest) cs k =
  k rest ((3%nat, lit ".mp4") :: (2%nat, hex) :: cs).
Proof.
  intros Hlen Hhex. cbn [rmatch clip_suffix].
  rewrite rep_lazy_exact, length_app, Hlen. cbn [Nat.leb Nat.add].
  rewrite take_app_length' by (now symmetry). rewrite Hhex.
  rewrite drop_app_length' by (now symmetry). cbn [andb].
  rewrite strip_prefix_app.
  f_equal. f_equal; [|f_equal]; f_equal.
  - rewrite length_app.
    replace (length (lit ".mp4") + length rest - length rest)%nat
      with (length (lit ".mp4")) by lia.
    apply take_app_length.
  - match goal with |- take ?n _ = _ => replace n with 6%nat by lia end.
    apply take_app_length'. now symmetry.
Qed.

Lemma suffix_inv s (cs : captures) k (r : R) :
  rmatch clip_suffix s cs k = Some r ->
  exists hex rest : str,
    s = hex ++ lit ".mp4" ++ rest /\ length hex = 6%nat /\
    k rest ((3%nat, lit ".mp4") :: (2%nat, hex) :: cs) = Some r.
Proof.
  cbn [rmatch clip_suffix]. rewrite rep_lazy_exact. intros Hm.
  destruct ((6 <=? length s)%nat && forallb is_hex (take 6 s)) eqn:Hc;
    [|discriminate].
  apply andb_true_iff in Hc as [Hlen _]. apply Nat.leb_le in Hlen.
  destruct (strip_prefix (lit ".mp4") (drop 6 s)) as [s9|] eqn:Hs9; [|discriminate].
  apply strip_prefix_inv in Hs9.
  assert (Hs : s = take 6 s ++ lit ".mp4" ++ s9)
    by (now rewrite <- Hs9, take_drop).
  assert (Hl6 : length (take 6 s) = 6%nat) by (rewrite length_take; lia).
  exists (take 6 s), s9. repeat split; auto.
  rewrite <- Hm. f_equal. f_equal; [|f_equal].
  - f_equal. rewrite Hs9, length_app.
    replace (length (lit ".mp4") + length s9 - length s9)%nat
      with (length (lit ".mp4")) by lia.
    now rewrite take_app_length.
  - f_equal. rewrite length_drop.
    replace (length s - (length s - 6))%nat with 6%nat by lia.
    reflexivity.
Qed.

(** The whole expression: the quantifiers of the first group, then the
    stamp, then the suffix with the first group closed. *)
Lemma clip_regex_unfold s k :
  rmatch clip_regex s [] k =
  rep_greedy is_word_plus_dot 1 None s []
    (fun s1 cs1 =>
       match strip_prefix (lit "_") s1 with
       | Some s2 =>
           rep_greedy is_dot 1 None s2 cs1
             (fun s3 cs3 =>
                rmatch clip_stamp s3 cs3
                  (fun s' cs' =>
                     rmatch clip_suffix s'
                       ((1%nat, take (length s - length s')%nat s) :: cs') k))
       | None => None
       end).
Proof. reflexivity. Qed.

(** Two ways to cut a string: the shorter tail is a tail of the longer. *)
Lemma shared_tail (x y front tail : str) :
  x ++ y = front ++ tail -> (length tail <= length y)%nat ->
  exists mid : str, y = mid ++ tail /\ front = x ++ mid.
Proof.
  revert front. induction x as [|a x IH]; intros front Heq Hlen.
  - exists front. auto.
  - destruct front as [|b front].
    + exfalso. simpl in Heq. rewrite <- Heq in Hlen.
      simpl in Hlen. rewrite length_app in Hlen. lia.
    + simpl in Heq. injection Heq as -> Heq.
      destruct (IH front Heq Hlen) as (mid & -> & ->). exists mid. auto.
Qed.

(** In a name that ends with a stamp, a suffix and the extension, a match
    that starts anywhere ends at the end of the name: its second group
    is the suffix of the name, its first group all that precedes it from
    the place the match starts at. *)
Lemma clip_match_end (b s front ts hex : str) k (r : R) :
  length ts = 14%nat -> forallb is_digit ts = true ->
  length hex = 6%nat -> forallb is_hex hex = true ->
  forallb is_dot front = true ->
  b ++ s = front ++ "_"%char :: ts ++ "_"%char :: hex ++ lit ".mp4" ->
  (forall s' cs', k s' cs' <> None) ->
  rmatch clip_regex s [] k = Some r ->
  exists g1 : str,
    s = g1 ++ hex ++ lit ".mp4" /\
    k [] [(3%nat, lit ".mp4"); (2%nat, hex); (1%nat, g1)] = Some r.
Proof.
  intros Hts Hdig Hhex Hhexd Hdot Hcut Htotal Hm.
  rewrite clip_regex_unfold in Hm.
  apply rep_greedy_inv in Hm as (n1 & Hn1 & _ & Hm & _).
  destruct (strip_prefix (lit "_") (drop n1 s)) as [s2|] eqn:Hs2; [|discriminate].
  apply strip_prefix_inv in Hs2. cbn [lit list_ascii_of_string app] in Hs2.
  apply rep_greedy_inv in Hm as (n2 & Hn2 & _ & Hm & Hmax).
  apply stamp_inv in Hm as (ts' & s6 & Hs3 & Hts' & Hm).
  apply suffix_inv in Hm as (hex' & rest & Hs6 & Hhex' & Hm).
  (* the name, cut at the second quantifier *)
  assert (Hs : s = take n1 s ++ "_"%char :: s2)
    by (now rewrite <- Hs2, take_drop).
  assert (Hcut2 : (b ++ take n1 s ++ ["_"%char]) ++ s2 =
                  front ++ "_"%char :: ts ++ "_"%char :: hex ++ lit ".mp4").
  { rewrite <- Hcut. rewrite Hs at 2. now rewrite <- !app_assoc. }
  assert (Hlen2 : length s2 = (n2 + 26 + length rest)%nat).
  { rewrite <- (take_drop n2 s2) at 1. rewrite length_app, length_take, Hs3, Hs6.
    cbn [length]. rewrite !length_app. cbn [length]. rewrite !length_app.
    rewrite Hts', Hhex'. cbn [length lit list_ascii_of_string]. lia. }
  destruct (shared_tail _ _ _ _ Hcut2) as (mid & Hmid & Hfront).
  { cbn [length]. rewrite !length_app. cbn [length]. rewrite !length_app.
    rewrite Hts, Hhex. cbn [length lit list_ascii_of_string]. lia. }
  assert (Hlmid : length mid = (n2 + length rest)%nat).
  { rewrite Hmid in Hlen2. rewrite length_app in Hlen2.
    cbn [length] in Hlen2. rewrite !length_app in Hlen2.
    cbn [length] in Hlen2. rewrite !length_app in Hlen2.
    rewrite Hts, Hhex in Hlen2.
    cbn [length lit list_ascii_of_string] in Hlen2. lia. }
  assert (Hdmid : forallb is_dot mid = true).
  { rewrite Hfront, !forallb_app in Hdot.
    now apply andb_true_iff in Hdot as [_ Hdot]. }
  (* nothing follows the match *)
  assert (Hrest : rest = []).
  { destruct rest as [|c rest]; [reflexivity|]. exfalso.
    specialize (Hmax (length mid)).
    rewrite Hmid, take_app_length, drop_app_length in Hmax.
    rewrite stamp_match in Hmax by assumption.
    rewrite <- (app_nil_r (lit ".mp4")) in Hmax.
    rewrite suffix_match in Hmax by assumption.
    apply (Htotal _ _ (Hmax ltac:(rewrite length_app; simpl in *; lia) Hdmid)). }
  subst rest. rewrite app_nil_r in Hs6.
  assert (Htake : take n2 s2 = mid).
  { rewrite Hmid. replace n2 with (length mid) by (simpl in Hlmid; lia).
    apply take_app_length. }
  assert (Hdrop : drop n2 s2 = "_"%char :: ts ++ "_"%char :: hex ++ lit ".mp4").
  { rewrite Hmid. replace n2 with (length mid) by (simpl in Hlmid; lia).
    apply drop_app_length. }
  rewrite Hs3, Hs6 in Hdrop. injection Hdrop as Hdrop.
  apply app_inj_1 in Hdrop as [-> Hdrop]; [|congruence].
  injection Hdrop as Hdrop.
  apply app_inj_1 in Hdrop as [-> _]; [|congruence].
  remember (take n1 s ++ "_"%char :: mid ++ "_"%char :: ts ++ ["_"%char])
    as g1 eqn:Hg1.
  assert (Hs' : s = g1 ++ hex ++ lit ".mp4").
  { rewrite Hs at 1. rewrite <- (take_drop n2 s2), Htake, Hs3, Hs6, Hg1.
    repeat (rewrite <- !app_assoc; cbn [app]). reflexivity. }
  clear Hg1 Hs. exists g1. split; [exact Hs'|].
  rewrite <- Hm. do 4 f_equal.
  rewrite Hs6, Hs', length_app.
  replace (length g1 + length (hex ++ lit ".mp4") - length (hex ++ lit ".mp4"))%nat
    with (length g1) by lia.
  now rewrite take_app_length.
Qed.

(** A name whose host ends with characters of the first class and whose
    user is not empty is matched from the start of those characters. *)
Lemma clip_match_exists (h2 user ts hex : str) k :
  h2 <> [] -> forallb is_word_plus_dot h2 = true ->
  user <> [] -> forallb is_dot user = true ->
  length ts = 14%nat -> forallb is_digit ts = true ->
  length hex = 6%nat -> forallb is_hex hex = true ->
  (forall s' cs', k s' cs' <> None) ->
  rmatch clip_regex
    (h2 ++ "_"%char :: user ++ "_"%char :: ts ++ "_"%char :: hex ++ lit ".mp4")
    [] k <> None.
Proof.
  intros Hh2 Hw Hu Hd Hts Hdig Hhex Hhexd Htotal Hnone.
  rewrite clip_regex_unfold in Hnone.
  pose proof (rep_greedy_none _ _ _ _ _ Hnone (length h2)) as H1.
  rewrite take_app_length, drop_app_length in H1.
  rewrite (strip_prefix_app (lit "_") _ : strip_prefix (lit "_") ("_"%char :: _) = _) in H1.
  assert (Hl2 : (1 <= length h2)%nat) by (destruct h2; [congruence|simpl; lia]).
  specialize (H1 ltac:(rewrite length_app; lia) Hw).
  pose proof (rep_greedy_none _ _ _ _ _ H1 (length user)) as H2.
  rewrite take_app_length, drop_app_length in H2.
  assert (Hlu : (1 <= length user)%nat)
    by (destruct user; [congruence|simpl; lia]).
  specialize (H2 ltac:(rewrite length_app; lia) Hd).
  rewrite stamp_match in H2 by assumption.
  rewrite <- (app_nil_r (lit ".mp4")) in H2.
  rewrite suffix_match in H2 by assumption.
  exact (Htotal _ _ H2).
Qed.
End Quantifiers.

(** The match [exec] finds starts somewhere in the string. *)
Lemma exec_from_inv (r : regex) (before_rev s : str) (m : match_result) :
  exec_from r before_rev s = Some m ->
  exists b s' : str,
    s = b ++ s' /\
    rmatch r s' []
      (fun s'' cs => Some (MatchResult (rev before_rev ++ b) cs s'')) = Some m.
Proof.
  revert before_rev. induction s as [|c s IH]; intros before_rev; cbn [exec_from].
  - destruct (rmatch r [] [] _) as [m'|] eqn:Hm; [|discriminate].
    intros [= <-]. exists [], []. split; auto. now rewrite app_nil_r.
  - destruct (rmatch r (c :: s) [] _) as [m'|] eqn:Hm.
    + intros [= <-]. exists [], (c :: s). split; auto. now rewrite app_nil_r.
    + intros Hrec. destruct (IH _ Hrec) as (b & s' & -> & Hm').
      exists (c :: b), s'. split; auto.
      cbn [rev] in Hm'. now rewrite <- app_assoc in Hm'.
Qed.

(** [exec] finds a match when one starts somewhere in the string. *)
Lemma exec_from_some (r : regex) (before_rev b s' : str) :
  (forall k : cont (R := match_result),
     (forall s'' cs, k s'' cs <> None) -> rmatch r s' [] k <> None) ->
  exec_from r before_rev (b ++ s') <> None.
Proof.
  intros Hm. revert before_rev. induction b as [|c b IH]; intros before_rev.
  - cbn [app]. destruct s' as [|c s']; cbn [exec_from].
    + destruct (rmatch r [] [] _) eqn:Hr; [discriminate|].
      exfalso. eapply Hm; [|exact Hr]. discriminate.
    + destruct (rmatch r (c :: s') [] _) eqn:Hr; [discriminate|].
      exfalso. eapply Hm; [|exact Hr]. discriminate.
  - cbn [app exec_from].
    destruct (rmatch r (c :: b ++ s') [] _); [discriminate|]. apply IH.
Qed.

(** The replacement, on a name written with its separators. *)
Lemma replace_suffix (h1 user ts hex suffix : str) (c : ascii) :
  is_word_plus_dot c = true -> user <> [] ->
  forallb is_dot (h1 ++ [c]) = true -> forallb is_dot user = true ->
  length ts = 14%nat -> forallb is_digit ts = true ->
  length hex = 6%nat -> forallb is_hex hex = true ->
  replace
    ((h1 ++ [c]) ++ "_"%char :: user ++ "_"%char :: ts ++
     "_"%char :: hex ++ lit ".mp4")
    clip_regex [PGroup 1; PText suffix; PGroup 3] =
  (h1 ++ [c]) ++ "_"%char :: user ++ "_"%char :: ts ++
  "_"%char :: suffix ++ lit ".mp4".
Proof.
  intros Hc Hu Hdh Hdu Hts Hdig Hhex Hhexd.
  unfold replace, exec.
  destruct (exec_from clip_regex [] _) as [m|] eqn:Hexec.
  - apply exec_from_inv in Hexec as (b & s' & Hf & Hm).
    assert (Hcut : b ++ s' =
              ((h1 ++ [c]) ++ "_"%char :: user) ++
              "_"%char :: ts ++ "_"%char :: hex ++ lit ".mp4").
    { rewrite <- Hf. now rewrite <- !app_assoc. }
    assert (Hdot : forallb is_dot ((h1 ++ [c]) ++ "_"%char :: user) = true).
    { rewrite forallb_app. cbn [forallb]. now rewrite Hdh, Hdu. }
    pose proof (clip_match_end b s' _ ts hex
                  (fun s'' cs => Some (MatchResult (rev [] ++ b) cs s'')) m
                  Hts Hdig Hhex Hhexd Hdot Hcut) as Hend.
    destruct (Hend ltac:(intros; discriminate) Hm) as (g1 & Hs' & Hm').
    injection Hm' as <-. cbn [m_before m_groups m_after rev app].
    cbn [expand flat_map group List.find fst snd Nat.eqb].
    rewrite !app_nil_r.
    assert (Hbg : b ++ g1 =
              (h1 ++ [c]) ++ "_"%char :: user ++ "_"%char :: ts ++ ["_"%char]).
    { rewrite Hs' in Hcut.
      replace (((h1 ++ [c]) ++ "_"%char :: user) ++
               "_"%char :: ts ++ "_"%char :: hex ++ lit ".mp4")
        with (((h1 ++ [c]) ++ "_"%char :: user ++ "_"%char :: ts ++ ["_"%char])
              ++ hex ++ lit ".mp4") in Hcut
        by (repeat (rewrite <- !app_assoc; cbn [app]); reflexivity).
      rewrite app_assoc in Hcut.
      now apply app_inj_2 in Hcut as [Hcut _]. }
    rewrite app_assoc, Hbg.
    repeat (rewrite <- !app_assoc; cbn [app]). reflexivity.
  - exfalso. revert Hexec. rewrite <- app_assoc.
    apply exec_from_some. intros k Hk.
    apply clip_match_exists; auto; try discriminate.
    cbn [forallb]. now rewrite Hc.
Qed.

(** X5. Where the regular expression matches, that is for a name whose
    host ends with a character of [[\w+.]] and whose user is not empty (and
    without line terminators), [GenClipFilename] puts the fresh suffix in
    the place of the old one and keeps the rest. *)
Theorem GenClipFilename_replaces (host user ts hex : str) (c : ascii)
    (entropy : nat -> Byte.byte) :
  last host = Some c -> is_word_plus_dot c = true ->
  user <> [] ->
  forallb is_dot host = true -> forallb is_dot user = true ->
  length ts = 14%nat -> forallb is_digit ts = true ->
  length hex = 6%nat -> forallb is_hex hex = true ->
  GenClipFilename
    (host ++ lit "_" ++ user ++ lit "_" ++ ts ++ lit "_" ++ hex ++ lit ".mp4")
    entropy =
  host ++ lit "_" ++ user ++ lit "_" ++ ts ++ lit "_" ++
  unique_suffix entropy ++ lit ".mp4".
Proof.
  intros Hlast Hc Hu Hdh Hdu Hts Hdig Hhex Hhexd.
  apply last_Some in Hlast as [h1 ->].
  unfold GenClipFilename.
  exact (replace_suffix h1 user ts hex (unique_suffix entropy) c
           Hc Hu Hdh Hdu Hts Hdig Hhex Hhexd).
Qed.

End RegexFacts.

(** ** More on the file names *)
Module NameFacts.
Import Js Util.

(** *** Splitting *)

Lemma split_nonempty (sep : ascii) (s : str) : split sep s <> [].
Proof.
  destruct s as [|c s]; simpl; [discriminate|].
  destruct (Ascii.eqb c sep); [discriminate|].
  destruct (split sep s); discriminate.
Qed.

(** A string without the separator is one piece. *)
Lemma split_without (sep : ascii) (s : str) :
  sep ∉ s -> split sep s = [s].
Proof.
  induction s as [|c s IH]; intros Hs; simpl; [reflexivity|].
  destruct (Ascii.eqb_spec c sep) as [->|Hne].
  - exfalso. apply Hs. left.
  - rewrite IH; [reflexivity|]. intros Hin. apply Hs. now right.
Qed.

(** The first piece ends at the first separator. *)
Lemma split_at_first (sep : ascii) (pre s : str) :
  sep ∉ pre -> split sep (pre ++ sep :: s) = pre :: split sep s.
Proof.
  induction pre as [|c pre IH]; intros Hpre; simpl.
  - now rewrite Ascii.eqb_refl.
  - destruct (Ascii.eqb_spec c sep) as [->|Hne].
    + exfalso. apply Hpre. left.
    + rewrite IH; [reflexivity|]. intros Hin. apply Hpre. now right.
Qed.

(** No piece holds the separator. *)
Lemma split_pieces (sep : ascii) (s piece : str) :
  piece ∈ split sep s -> sep ∉ piece.
Proof.
  revert piece. induction s as [|c s IH]; intros piece; simpl.
  - intros Hin. apply list_elem_of_singleton in Hin as ->. apply not_elem_of_nil.
  - destruct (Ascii.eqb_spec c sep) as [->|Hne].
    + intros Hin. apply elem_of_cons in Hin as [->|Hin]; [apply not_elem_of_nil|auto].
    + destruct (split sep s) as [|h t] eqn:Hsplit.
      * intros Hin. apply list_elem_of_singleton in Hin as ->.
        intros Hc. apply list_elem_of_singleton in Hc. congruence.
      * intros Hin. apply elem_of_cons in Hin as [->|Hin].
        -- intros Hc. apply elem_of_cons in Hc as [Hc|Hc]; [congruence|].
           revert Hc. apply IH. left.
        -- apply IH. now right.
Qed.

(** A second piece means a separator. *)
Lemma split_second (sep : ascii) (s piece : str) :
  split sep s !! 1%nat = Some piece -> sep ∈ s.
Proof.
  intros Hp. destruct (decide (sep ∈ s)) as [Hin|Hnot]; [exact Hin|].
  rewrite (split_without sep s Hnot) in Hp. discriminate.
Qed.

(** *** Hexadecimal digits *)

Lemma hex_digit_code (n : N) :
  (n < 16)%N ->
  N_of_ascii (hex_digit n) = if (n <? 10)%N then (48 + n)%N else (87 + n)%N.
Proof.
  intros Hn. unfold hex_digit.
  destruct (n <? 10)%N; apply N_ascii_embedding; lia.
Qed.

Lemma hex_digit_inj (n m : N) :
  (n < 16)%N -> (m < 16)%N -> hex_digit n = hex_digit m -> n = m.
Proof.
  intros Hn Hm Heq. apply (f_equal N_of_ascii) in Heq.
  rewrite !hex_digit_code in Heq by assumption.
  destruct (N.ltb_spec n 10), (N.ltb_spec m 10); lia.
Qed.

Lemma hex_digit_is_hex (n : N) : (n < 16)%N -> is_hex (hex_digit n) = true.
Proof.
  intros Hn. unfold is_hex, in_range, code. rewrite hex_digit_code by assumption.
  destruct (N.ltb_spec n 10).
  - apply orb_true_iff. right. apply andb_true_iff. split; apply N.leb_le; lia.
  - apply orb_true_iff. left. apply andb_true_iff. split; apply N.leb_le; lia.
Qed.

Lemma byte_below (b : Byte.byte) : (Byte.to_N b < 256)%N.
Proof. destruct b; reflexivity. Qed.

Lemma byte_digits_inj (b1 b2 : Byte.byte) :
  hex_digit (Byte.to_N b1 / 16) = hex_digit (Byte.to_N b2 / 16) ->
  hex_digit (Byte.to_N b1 mod 16) = hex_digit (Byte.to_N b2 mod 16) ->
  b1 = b2.
Proof.
  intros Hhi Hlo.
  pose proof (byte_below b1). pose proof (byte_below b2).
  apply hex_digit_inj in Hhi;
    [| apply N.Div0.div_lt_upper_bound; lia | apply N.Div0.div_lt_upper_bound; lia].
  apply hex_digit_inj in Hlo; [| apply N.mod_lt; lia | apply N.mod_lt; lia].
  assert (Heq : Byte.to_N b1 = Byte.to_N b2).
  { rewrite (N.div_mod (Byte.to_N b1) 16), (N.div_mod (Byte.to_N b2) 16) by lia.
    now rewrite Hhi, Hlo. }
  apply (f_equal Byte.of_N) in Heq. rewrite !Byte.of_to_N in Heq. congruence.
Qed.

(** Two buffers that print the same are the same. *)
Lemma toString_hex_inj (b1 b2 : list Byte.byte) :
  toString_hex b1 = toString_hex b2 -> b1 = b2.
Proof.
  revert b2. induction b1 as [|x b1 IH]; intros [|y b2]; simpl; try discriminate.
  - reflexivity.
  - intros [= Hhi Hlo Hrest]. f_equal; [now apply byte_digits_inj | now apply IH].
Qed.

Lemma toString_hex_shape (buf : list Byte.byte) :
  length (toString_hex buf) = (2 * length buf)%nat /\
  forallb is_hex (toString_hex buf) = true.
Proof.
  induction buf as [|b buf [IHl IHh]]; [split; reflexivity|].
  simpl. rewrite IHl, IHh.
  pose proof (byte_below b).
  rewrite !hex_digit_is_hex;
    [split; [lia|reflexivity] | apply N.mod_lt; lia
     | apply N.Div0.div_lt_upper_bound; lia].
Qed.

(** X3. [RandomHexString] returns twice as many characters as it is asked
    bytes for, all of them lowercase hexadecimal digits, for a count
    between 0 and 2^31 - 1 whose double is a length the engine allows for a
    string, and throws for any other count. *)
Theorem RandomHexString_shape (MAX_STRING_LENGTH : Z)
    (entropy : nat -> Byte.byte) (bytes : Z) :
  (0 <= bytes <= 2147483647 /\ 2 * bytes <= MAX_STRING_LENGTH ->
   exists s : str,
     RandomHexString MAX_STRING_LENGTH entropy bytes = Done s /\
     Z.of_nat (length s) = 2 * bytes /\
     forallb is_hex s = true) /\
  (bytes < 0 \/ 2147483647 < bytes \/ MAX_STRING_LENGTH < 2 * bytes ->
   exists e : exn, RandomHexString MAX_STRING_LENGTH entropy bytes = Thrown e).
Proof.
  unfold RandomHexString, randomBytes, toString_hex_checked.
  rewrite ?length_map, ?length_seq.
  destruct (Z.leb_spec 0 bytes); destruct (Z.leb_spec bytes 2147483647);
    cbn [andb]; rewrite ?length_map, ?length_seq, ?Z2Nat.id by lia;
    try destruct (Z.leb_spec (2 * bytes) MAX_STRING_LENGTH);
    (split; [intros Hb; try lia|intros Hb; try lia; eexists; reflexivity]).
  eexists. split; [reflexivity|].
  destruct (toString_hex_shape (map entropy (seq 0 (Z.to_nat bytes))))
    as [Hl Hh].
  split; [|exact Hh].
  rewrite Hl, length_map, length_seq. lia.
Qed.

Section WithUrlParser.
Variable URL_new : str -> option URL.

(** X1. [UsernameFromUrl] throws when the URL does not parse. When it
    does, the result is [undefined] for a path without a slash, and
    otherwise the text between the first slash of the path and the next
    one (or the end); nothing it returns holds a slash. *)
Theorem UsernameFromUrl_segment (url : str) :
  (URL_new url = None ->
   UsernameFromUrl URL_new url = Thrown (ERR_INVALID_URL url)) /\
  (forall u : URL,
     URL_new url = Some u ->
     ("/"%char ∉ pathname u -> UsernameFromUrl URL_new url = Done None) /\
     (forall pre user rest : str,
        pathname u = pre ++ "/"%char :: user ++ rest ->
        "/"%char ∉ pre -> "/"%char ∉ user ->
        rest = [] \/ (exists rest' : str, rest = "/"%char :: rest') ->
        UsernameFromUrl URL_new url = Done (Some user)) /\
     (forall user : str,
        UsernameFromUrl URL_new url = Done (Some user) ->
        ("/"%char ∉ user) /\ "/"%char ∈ pathname u)).
Proof.
  unfold UsernameFromUrl. split.
  - intros ->. reflexivity.
  - intros u ->. split; [|split].
    + intros Hno. now rewrite (split_without _ _ Hno).
    + intros pre user rest -> Hpre Huser Hrest.
      rewrite (split_at_first _ _ _ Hpre).
      destruct (FilenameFacts.split_head "/"%char user rest Huser Hrest)
        as [tl ->].
      reflexivity.
    + intros user [= Hu]. split.
      * eapply split_pieces. eapply list_elem_of_lookup_2. exact Hu.
      * eapply split_second. exact Hu.
Qed.

(** X2. [GenFilename] throws for a URL that does not parse and returns a
    name for every URL that does; when the path has no slash, the user
    part of the name is the text "undefined". *)
Theorem GenFilename_without_user (url : str) (entropy : nat -> Byte.byte)
    (now : DateTime) :
  (URL_new url = None ->
   GenFilename URL_new url entropy now = Thrown (ERR_INVALID_URL url)) /\
  (forall u : URL,
     URL_new url = Some u ->
     (exists f : str, GenFilename URL_new url entropy now = Done f) /\
     ("/"%char ∉ pathname u ->
      GenFilename URL_new url entropy now =
        Done (hostname u ++ lit "_" ++ lit "undefined" ++ lit "_" ++
              format_DDMMYYYYHHmmss now ++ lit "_" ++
              unique_suffix entropy ++ lit ".mp4"))).
Proof.
  unfold GenFilename, UsernameFromUrl. split.
  - intros ->. reflexivity.
  - intros u ->. split; [eexists; reflexivity|].
    intros Hno. now rewrite (split_without _ _ Hno).
Qed.

(** The name, cut before the random suffix. *)
Lemma GenFilename_front (url : str) (entropy : nat -> Byte.byte)
    (now : DateTime) (f : str) :
  GenFilename URL_new url entropy now = Done f ->
  exists u : URL,
    URL_new url = Some u /\
    f = (hostname u ++ lit "_" ++
         interpolate (split "/"%char (pathname u) !! 1%nat) ++ lit "_" ++
         format_DDMMYYYYHHmmss now ++ lit "_") ++
        unique_suffix entropy ++ lit ".mp4".
Proof.
  unfold GenFilename, UsernameFromUrl.
  destruct (URL_new url) as [u|]; [|discriminate].
  intros Hf. injection Hf as <-. exists u. split; [reflexivity|].
  now rewrite <- !app_assoc.
Qed.

(** X4. Two names generated for the same URL at the same instant are the
    same exactly when the three random bytes drawn are the same. *)
Theorem GenFilename_same_iff_bytes (url : str)
    (entropy1 entropy2 : nat -> Byte.byte) (now : DateTime) (f1 f2 : str) :
  GenFilename URL_new url entropy1 now = Done f1 ->
  GenFilename URL_new url entropy2 now = Done f2 ->
  (f1 = f2 <->
   entropy1 0%nat = entropy2 0%nat /\ entropy1 1%nat = entropy2 1%nat /\
   entropy1 2%nat = entropy2 2%nat).
Proof.
  intros H1 H2.
  apply GenFilename_front in H1 as (u1 & Hu1 & ->).
  apply GenFilename_front in H2 as (u2 & Hu2 & ->).
  assert (u2 = u1) as -> by congruence.
  split.
  - intros Heq. apply app_inv_head in Heq. apply app_inv_tail in Heq.
    unfold unique_suffix in Heq. apply toString_hex_inj in Heq.
    now injection Heq.
  - intros (H0 & H1 & H2). do 2 f_equal.
    unfold unique_suffix, randomFillSync, Buffer_alloc. simpl.
    now rewrite H0, H1, H2.
Qed.
End WithUrlParser.

End NameFacts.

(** ** More on the clip names *)
Module ClipFacts.
Import Js Util RegexFacts.

Section Inversion.
Context {R : Type}.
Implicit Types (k : cont (R := R)) (s : str).

(** [_\d{14}_] matches a stamp of fourteen digits only. *)
Lemma stamp_inv_digits s (cs : captures) k (r : R) :
  rmatch clip_stamp s cs k = Some r ->
  exists ts rest : str,
    s = "_"%char :: ts ++ "_"%char :: rest /\ length ts = 14%nat /\
    forallb is_digit ts = true /\ k rest cs = Some r.
Proof.
  cbn [rmatch clip_stamp]. intros Hm.
  destruct (strip_prefix (lit "_") s) as [s4|] eqn:Hs4; [|discriminate].
  apply strip_prefix_inv in Hs4. rewrite rep_greedy_exact in Hm.
  destruct ((14 <=? length s4)%nat && forallb is_digit (take 14 s4)) eqn:Hc;
    [|discriminate].
  apply andb_true_iff in Hc as [Hlen Hdig]. apply Nat.leb_le in Hlen.
  destruct (strip_prefix (lit "_") (drop 14 s4)) as [s6|] eqn:Hs6; [|discriminate].
  apply strip_prefix_inv in Hs6.
  exists (take 14 s4), s6. repeat split; auto.
  - rewrite Hs4. cbn [lit list_ascii_of_string app] in *.
    now rewrite <- Hs6, take_drop.
  - rewrite length_take. lia.
Qed.

(** [([a-f0-9]{6}?)(\.mp4)] matches six hexadecimal digits only. *)
Lemma suffix_inv_hex s (cs : captures) k (r : R) :
  rmatch clip_suffix s cs k = Some r ->
  exists hex rest : str,
    s = hex ++ lit ".mp4" ++ rest /\ length hex = 6%nat /\
    forallb is_hex hex = true /\
    k rest ((3%nat, lit ".mp4") :: (2%nat, hex) :: cs) = Some r.
Proof.
  intros Hm.
  assert (Hhex : forallb is_hex (take 6 s) = true).
  { cbn [rmatch clip_suffix] in Hm. rewrite rep_lazy_exact in Hm.
    destruct ((6 <=? length s)%nat && forallb is_hex (take 6 s)) eqn:Hc;
      [|discriminate].
    now apply andb_true_iff in Hc as [_ Hc]. }
  apply suffix_inv in Hm as (hex & rest & Hs & Hlen & Hk).
  exists hex, rest. repeat split; auto.
  rewrite Hs in Hhex. rewrite take_app_length' in Hhex by (now symmetry).
  exact Hhex.
Qed.

(** A match of the whole expression, read back: a first group that ends
    with a stamp, six hexadecimal digits, the extension. *)
Lemma clip_regex_inv s k (r : R) :
  rmatch clip_regex s [] k = Some r ->
  exists host user ts hex rest : str,
    s = ((host ++ "_"%char :: user) ++ "_"%char :: ts ++ ["_"%char]) ++
        hex ++ lit ".mp4" ++ rest /\
    host <> [] /\ user <> [] /\
    length ts = 14%nat /\ forallb is_digit ts = true /\
    length hex = 6%nat /\ forallb is_hex hex = true /\
    k rest [(3%nat, lit ".mp4"); (2%nat, hex);
            (1%nat, (host ++ "_"%char :: user) ++ "_"%char :: ts ++ ["_"%char])]
      = Some r.
Proof.
  intros Hm. rewrite clip_regex_unfold in Hm.
  apply rep_greedy_inv in Hm as (n1 & Hn1 & _ & Hm & _).
  destruct (strip_prefix (lit "_") (drop n1 s)) as [s2|] eqn:Hs2; [|discriminate].
  apply strip_prefix_inv in Hs2. cbn [lit list_ascii_of_string app] in Hs2.
  apply rep_greedy_inv in Hm as (n2 & Hn2 & _ & Hm & _).
  apply stamp_inv_digits in Hm as (ts & s6 & Hs3 & Hts & Hdig & Hm).
  apply suffix_inv_hex in Hm as (hex & rest & Hs6 & Hhex & Hhexd & Hm).
  assert (Hhost : take n1 s <> []).
  { intros Hnil. apply (f_equal length) in Hnil.
    rewrite length_take in Hnil. cbn [length] in Hnil. lia. }
  assert (Huser : take n2 s2 <> []).
  { intros Hnil. apply (f_equal length) in Hnil.
    rewrite length_take in Hnil. cbn [length] in Hnil. lia. }
  revert Hhost Huser. generalize (eq_refl (take n1 s ++ "_"%char :: take n2 s2)).
  generalize (take n1 s) at 2 3 as host. generalize (take n2 s2) at 2 3 as user.
  intros user host Hfront' Hhost Huser.
  remember (host ++ "_"%char :: user) as front eqn:Hfront.
  symmetry in Hfront'. rename Hfront into Hfront0. rename Hfront' into Hfront.
  assert (Hs : s = (front ++ "_"%char :: ts ++ ["_"%char]) ++
                   hex ++ lit ".mp4" ++ rest).
  { rewrite <- (take_drop n1 s) at 1. rewrite Hs2.
    rewrite <- (take_drop n2 s2) at 1. rewrite Hs3, Hs6, Hfront.
    repeat (rewrite <- !app_assoc; cbn [app]). reflexivity. }
  exists host, user, ts, hex, rest. rewrite <- Hfront0.
  repeat split; auto.
  rewrite <- Hm. do 4 f_equal.
  rewrite Hs6. rewrite Hs at 1 2. rewrite length_app.
  match goal with |- _ = (_, take ?n _) =>
    replace n with (length (front ++ "_"%char :: ts ++ ["_"%char])) by lia
  end.
  now rewrite take_app_length.
Qed.
End Inversion.

(** The replacement, read back: the string as it is, or the six digits
    between a stamp and the extension replaced. *)
Lemma replace_window (f suffix : str) :
  replace f clip_regex [PGroup 1; PText suffix; PGroup 3] = f \/
  exists pre ts old post : str,
    f = pre ++ "_"%char :: ts ++ "_"%char :: old ++ lit ".mp4" ++ post /\
    length ts = 14%nat /\ forallb is_digit ts = true /\
    length old = 6%nat /\ forallb is_hex old = true /\
    replace f clip_regex [PGroup 1; PText suffix; PGroup 3] =
      pre ++ "_"%char :: ts ++ "_"%char :: suffix ++ lit ".mp4" ++ post.
Proof.
  unfold replace, exec.
  destruct (exec_from clip_regex [] f) as [m|] eqn:Hexec; [right|now left].
  apply exec_from_inv in Hexec as (b & s' & Hf & Hm).
  apply clip_regex_inv in Hm
    as (host & user & ts & old & post & Hs' & _ & _ & Hts & Hdig & Hold & Hhex & Hm).
  injection Hm as <-. cbn [m_before m_groups m_after rev app].
  cbn [expand flat_map group List.find fst snd Nat.eqb].
  exists (b ++ host ++ "_"%char :: user), ts, old, post. repeat split; auto.
  - rewrite Hf, Hs'. repeat (rewrite <- !app_assoc; cbn [app]). reflexivity.
  - rewrite !app_nil_r. repeat (rewrite <- !app_assoc; cbn [app]). reflexivity.
Qed.

(** Underscores, counted. *)
Lemma no_underscore_count (p : ascii -> bool) (l : str) :
  p "_"%char = false -> forallb p l = true ->
  count_occ ascii_dec l "_"%char = 0%nat.
Proof.
  intros Hp Hall. apply count_occ_not_In. intros Hin.
  rewrite forallb_forall in Hall. specialize (Hall _ Hin). congruence.
Qed.

Lemma first_underscore (a b a' b' : str) :
  "_"%char ∉ a -> "_"%char ∉ a' ->
  a ++ "_"%char :: b = a' ++ "_"%char :: b' -> a = a' /\ b = b'.
Proof.
  revert a'. induction a as [|c a IH]; intros [|c' a'] Ha Ha'; cbn [app].
  - now intros [= ->].
  - intros [= <- _]. exfalso. apply Ha'. left.
  - intros [= -> _]. exfalso. apply Ha. left.
  - intros [= <- Heq]. destruct (IH a') as [-> ->]; auto.
    + intros Hin. apply Ha. now right.
    + intros Hin. apply Ha'. now right.
Qed.

(** A name without a user, under a host without an underscore, has the
    three underscores the expression asks for but nothing between the
    first two: nothing matches. *)
Lemma replace_userless (host ts hex suffix : str) :
  "_"%char ∉ host -> forallb is_digit ts = true -> forallb is_hex hex = true ->
  replace (host ++ "_"%char :: "_"%char :: ts ++ "_"%char :: hex ++ lit ".mp4")
    clip_regex [PGroup 1; PText suffix; PGroup 3] =
  host ++ "_"%char :: "_"%char :: ts ++ "_"%char :: hex ++ lit ".mp4".
Proof.
  intros Hhost Hdig Hhex. unfold replace, exec.
  destruct (exec_from clip_regex [] _) as [m|] eqn:Hexec; [exfalso|reflexivity].
  apply exec_from_inv in Hexec as (b & s' & Hf & Hm).
  apply clip_regex_inv in Hm
    as (w & y & ts' & hex' & rest & Hs' & Hw & Hy & _ & _ & _ & _ & _).
  subst s'.
  pose proof (f_equal (fun l => count_occ ascii_dec l "_"%char) Hf) as Hcount.
  cbn beta in Hcount.
  repeat (rewrite ?count_occ_app in Hcount; cbn [count_occ lit list_ascii_of_string]
            in Hcount).
  repeat match type of Hcount with
         | context [ascii_dec ?a ?b] =>
             destruct (ascii_dec a b); [|congruence]; try discriminate
         end.
  rewrite (proj1 (count_occ_not_In ascii_dec host "_"%char)) in Hcount
    by (now rewrite <- list_elem_of_In).
  rewrite (no_underscore_count is_digit ts) in Hcount by (auto; reflexivity).
  rewrite (no_underscore_count is_hex hex) in Hcount by (auto; reflexivity).
  assert (Hb : "_"%char ∉ b ++ w).
  { rewrite list_elem_of_In. apply (count_occ_not_In ascii_dec).
    rewrite count_occ_app. lia. }
  assert (Hy' : "_"%char ∉ y).
  { rewrite list_elem_of_In. apply (count_occ_not_In ascii_dec). lia. }
  repeat (rewrite <- !app_assoc in Hf; cbn [app] in Hf).
  rewrite (app_assoc b w) in Hf.
  apply first_underscore in Hf as [_ Hf]; auto.
  destruct y as [|c y]; [congruence|].
  cbn [app] in Hf. injection Hf as <- _. apply Hy'. left.
Qed.

(** X8. Whatever the string, [GenClipFilename] returns it as it is, or
    replaces by the six digits drawn the six hexadecimal digits that stand
    between an underscore, fourteen digits and an underscore on the left
    and ".mp4" on the right, and changes nothing else; the length is kept
    in both cases. *)
Theorem GenClipFilename_window (f : str) (entropy : nat -> Byte.byte) :
  length (GenClipFilename f entropy) = length f /\
  (GenClipFilename f entropy = f \/
   exists pre ts old post : str,
     f = pre ++ "_"%char :: ts ++ "_"%char :: old ++ lit ".mp4" ++ post /\
     length ts = 14%nat /\ forallb is_digit ts = true /\
     length old = 6%nat /\ forallb is_hex old = true /\
     GenClipFilename f entropy =
       pre ++ "_"%char :: ts ++ "_"%char ::
       unique_suffix entropy ++ lit ".mp4" ++ post).
Proof.
  unfold GenClipFilename.
  destruct (replace_window f (unique_suffix entropy))
    as [Hsame|(pre & ts & old & post & Hf & Hts & Hdig & Hold & Hhex & Hr)].
  - rewrite Hsame. split; [reflexivity|now left].
  - split.
    + rewrite Hr. rewrite Hf.
      destruct (FilenameFacts.unique_suffix_six_hex entropy) as [Hl _].
      rewrite !length_app. cbn [length]. rewrite !length_app. cbn [length].
      rewrite !length_app. rewrite Hl, Hold. reflexivity.
    + right. exists pre, ts, old, post. repeat split; auto.
Qed.

(** X7. On a name whose host ends with a character of [[\w+.]] and whose
    user is not empty, a second clip name drawn from a clip name is the
    clip name the second draw gives from the name itself: the first draw
    leaves no trace. *)
Theorem GenClipFilename_twice (host user ts hex : str) (c : ascii)
    (entropy1 entropy2 : nat -> Byte.byte) :
  last host = Some c -> is_word_plus_dot c = true ->
  user <> [] ->
  forallb is_dot host = true -> forallb is_dot user = true ->
  length ts = 14%nat -> forallb is_digit ts = true ->
  length hex = 6%nat -> forallb is_hex hex = true ->
  GenClipFilename
    (GenClipFilename
       (host ++ lit "_" ++ user ++ lit "_" ++ ts ++ lit "_" ++ hex ++ lit ".mp4")
       entropy1)
    entropy2 =
  GenClipFilename
    (host ++ lit "_" ++ user ++ lit "_" ++ ts ++ lit "_" ++ hex ++ lit ".mp4")
    entropy2.
Proof.
  intros Hlast Hc Hu Hdh Hdu Hts Hdig Hhex Hhexd.
  apply last_Some in Hlast as [h1 ->].
  destruct (FilenameFacts.unique_suffix_six_hex entropy1) as [Hl1 Hh1].
  unfold GenClipFilename.
  change (replace
            (replace
               ((h1 ++ [c]) ++ "_"%char :: user ++ "_"%char :: ts ++
                "_"%char :: hex ++ lit ".mp4")
               clip_regex [PGroup 1; PText (unique_suffix entropy1); PGroup 3])
            clip_regex [PGroup 1; PText (unique_suffix entropy2); PGroup 3] =
          replace
            ((h1 ++ [c]) ++ "_"%char :: user ++ "_"%char :: ts ++
             "_"%char :: hex ++ lit ".mp4")
            clip_regex [PGroup 1; PText (unique_suffix entropy2); PGroup 3]).
  rewrite (replace_suffix h1 user ts hex (unique_suffix entropy1) c) by assumption.
  rewrite (replace_suffix h1 user ts (unique_suffix entropy1)
             (unique_suffix entropy2) c) by assumption.
  now rewrite (replace_suffix h1 user ts hex (unique_suffix entropy2) c)
    by assumption.
Qed.

Section WithUrlParser.
Variable URL_new : str -> option URL.

(** X6. For a URL whose host name ends with a character of [[\w+.]] and
    whose path starts with a slash and a user that is not empty (no line
    terminator in either), at an instant with a four-digit year, the clip
    name of the name [GenFilename] returns is the name [GenFilename] would
    return for the same URL at the same instant with the bytes the clip
    draws. *)
Theorem GenClipFilename_of_GenFilename (url : str) (u : URL) (user rest : str)
    (c : ascii) (entropy entropy' : nat -> Byte.byte) (now : DateTime) (f : str) :
  URL_new url = Some u ->
  pathname u = "/"%char :: user ++ rest ->
  "/"%char ∉ user ->
  rest = [] \/ (exists rest' : str, rest = "/"%char :: rest') ->
  user <> [] ->
  last (hostname u) = Some c -> is_word_plus_dot c = true ->
  forallb is_dot (hostname u) = true -> forallb is_dot user = true ->
  DateTime_ok now ->
  GenFilename URL_new url entropy now = Done f ->
  Done (E := exn) (GenClipFilename f entropy') =
  GenFilename URL_new url entropy' now.
Proof.
  intros Hu Hpath Hsep Hrest Hne Hlast Hc Hdh Hdu Hnow.
  unfold GenFilename, UsernameFromUrl. rewrite Hu, Hpath.
  rewrite (FilenameFacts.first_segment user rest Hsep Hrest).
  intros [= <-]. f_equal. cbn [interpolate].
  destruct (FilenameFacts.format_fourteen_digits now Hnow) as [Hts Hdig].
  destruct (FilenameFacts.unique_suffix_six_hex entropy) as [Hhex Hhexd].
  apply last_Some in Hlast as [h1 Hh1]. rewrite Hh1 in *.
  unfold GenClipFilename.
  exact (replace_suffix h1 user (format_DDMMYYYYHHmmss now) (unique_suffix entropy)
           (unique_suffix entropy') c Hc Hne Hdh Hdu Hts Hdig Hhex Hhexd).
Qed.
(** X9. For a URL whose host name has no underscore and whose path has no
    user (it is "/", or starts with two slashes), at an instant with a
    four-digit year, the clip name of the name [GenFilename] returns is
    that name itself, whatever bytes the clip draws: the suffix is not
    replaced. *)
Theorem GenClipFilename_userless_unchanged (url : str) (u : URL) (rest : str)
    (entropy entropy' : nat -> Byte.byte) (now : DateTime) (f : str) :
  URL_new url = Some u ->
  pathname u = "/"%char :: rest ->
  rest = [] \/ (exists rest' : str, rest = "/"%char :: rest') ->
  "_"%char ∉ hostname u ->
  DateTime_ok now ->
  GenFilename URL_new url entropy now = Done f ->
  GenClipFilename f entropy' = f.
Proof.
  intros Hu Hpath Hrest Hhost Hnow.
  unfold GenFilename, UsernameFromUrl. rewrite Hu, Hpath.
  pose proof (FilenameFacts.first_segment [] rest (not_elem_of_nil _) Hrest)
    as Hseg.
  cbn [app] in Hseg. rewrite Hseg.
  intros [= <-]. cbn [interpolate].
  destruct (FilenameFacts.format_fourteen_digits now Hnow) as [_ Hdig].
  destruct (FilenameFacts.unique_suffix_six_hex entropy) as [_ Hhexd].
  unfold GenClipFilename.
  exact (replace_userless (hostname u) (format_DDMMYYYYHHmmss now)
           (unique_suffix entropy) (unique_suffix entropy') Hhost Hdig Hhexd).
Qed.
End WithUrlParser.

End ClipFacts.

(** ** Sizes and dangling entries *)
Module FileFacts.
Import Js Util RegexFacts.

Lemma endsWith_spec (s suffix : str) :
  endsWith s suffix = true <-> exists stem : str, s = stem ++ suffix.
Proof.
  unfold endsWith. split.
  - destruct (strip_prefix (rev suffix) (rev s)) as [r|] eqn:Hr; [|discriminate].
    intros _. apply strip_prefix_inv in Hr. exists (rev r).
    rewrite <- (rev_involutive s), Hr, rev_app_distr.
    now rewrite rev_involutive.
  - intros [stem ->]. rewrite rev_app_distr. now rewrite strip_prefix_app.
Qed.

Lemma filter_sublist {A : Type} (p : A -> bool) (l : list A) :
  sublist (List.filter p l) l.
Proof.
  induction l as [|a l IH]; cbn [List.filter].
  - constructor.
  - destruct (p a); now constructor.
Qed.

Section Files.
Context {E : Type}.
Variable lstat : str -> promise E Stats.
Variable readdir : str -> promise E (list str).
Variable Path_join : str -> str -> str.

(** X10. [FileSize] returns a promise that is never rejected and never
    resolves to 0: it stays pending as long as [lstat] does, resolves to -1
    when [lstat] rejects or reports a size of 0, and to the size reported
    otherwise. *)
Theorem FileSize_never_rejects (filename : str) :
  exists p : promise E Z,
    FileSize lstat filename = Done p /\
    (forall e : E, p <> Rejected e) /\
    p <> Resolved 0 /\
    (p = Pending <-> lstat filename = Pending) /\
    (forall e : E, lstat filename = Rejected e -> p = Resolved (-1)) /\
    (forall stat : Stats, lstat filename = Resolved stat ->
       p = Resolved (if size stat =? 0 then -1 else size stat)).
Proof.
  unfold FileSize, AIE, lstat_call, async.
  destruct (lstat filename) as [stat|e|]; eexists; (split; [reflexivity|]);
    cbn [size_or_minus_one].
  - repeat split; try congruence.
    + destruct (Z.eqb_spec (size stat) 0) as [Hz|Hz]; congruence.
    + now intros stat' [= <-].
  - repeat split; try congruence; intros; congruence.
  - repeat split; try congruence; intros; congruence.
Qed.

Lemma stat_entry_cases (path x : str) :
  stat_entry lstat Path_join path x =
  match lstat (Path_join path x) with
  | Resolved stat => Resolved (x, Some stat)
  | Rejected _ => Resolved (x, None)
  | Pending => Pending
  end.
Proof.
  unfold stat_entry, AIE, lstat_call. now destruct (lstat (Path_join path x)).
Qed.

Lemma Promise_all_stat_cases (path : str) (l : list str) :
  Promise_all (map (stat_entry lstat Path_join path) l) = Pending \/
  exists stats : list (str * option Stats),
    Promise_all (map (stat_entry lstat Path_join path) l) = Resolved stats.
Proof.
  induction l as [|x l IH]; cbn [map Promise_all].
  - right. now eexists.
  - rewrite stat_entry_cases.
    destruct IH as [->|[stats ->]];
      destruct (lstat (Path_join path x)); eauto.
Qed.

Lemma Promise_all_stat (path : str) (l : list str) :
  (forall x : str, x ∈ l -> lstat (Path_join path x) <> Pending) ->
  Promise_all (map (stat_entry lstat Path_join path) l) =
  Resolved
    (map (fun x => (x, match lstat (Path_join path x) with
                       | Resolved stat => Some stat
                       | _ => None
                       end)) l).
Proof.
  induction l as [|x l IH]; intros Hl; cbn [map Promise_all]; [reflexivity|].
  rewrite IH by (intros y Hy; apply Hl; now right).
  rewrite stat_entry_cases.
  specialize (Hl x ltac:(left)).
  now destruct (lstat (Path_join path x)).
Qed.

(** X11. [FindDanglingEntries] is rejected exactly when reading the folder
    is, and with the same error: an [lstat] that fails on an entry never
    fails the whole. *)
Theorem FindDanglingEntries_rejects (path : str) (excludes : list str) (e : E) :
  FindDanglingEntries lstat readdir Path_join path excludes = Rejected e <->
  readdir path = Rejected e.
Proof.
  unfold FindDanglingEntries.
  destruct (readdir path) as [names|e'|]; [|split; congruence|split; congruence].
  destruct (Promise_all_stat_cases path
              (List.filter (dangling_candidate excludes) names))
    as [->|[stats ->]]; split; congruence.
Qed.

Lemma entries_sublist (g : str -> option Stats) (l : list str) :
  sublist
    (map entry_filename
       (map to_entry (List.filter is_file (map (fun x => (x, g x)) l))))
    l.
Proof.
  induction l as [|x l IH]; cbn [map List.filter].
  - constructor.
  - unfold is_file at 1. cbn [snd].
    destruct (g x) as [s|]; [destruct (isDirectory s)|];
      cbn [negb map to_entry entry_filename fst]; now constructor.
Qed.

(** X12. Once the folder is read and [lstat] has settled on every entry
    that ends with ".mp4" and is not excluded, [FindDanglingEntries]
    resolves to the entries whose name ends with ".mp4", is not excluded,
    and whose [lstat] succeeded on something that is not a directory, each
    with the size reported, in the order of the folder. *)
Theorem FindDanglingEntries_entries (path : str) (excludes names : list str) :
  readdir path = Resolved names ->
  (forall x : str, x ∈ names -> dangling_candidate excludes x = true ->
     lstat (Path_join path x) <> Pending) ->
  exists entries : list Entry,
    FindDanglingEntries lstat readdir Path_join path excludes = Resolved entries /\
    sublist (map entry_filename entries) names /\
    forall en : Entry,
      en ∈ entries <->
      exists (stem : str) (stat : Stats),
        entry_filename en = stem ++ lit ".mp4" /\
        entry_filename en ∈ names /\
        (entry_filename en ∉ excludes) /\
        lstat (Path_join path (entry_filename en)) = Resolved stat /\
        isDirectory stat = false /\
        entry_size en = size stat.
Proof.
  intros Hrd Hsettled. unfold FindDanglingEntries. rewrite Hrd.
  rewrite Promise_all_stat.
  2:{ intros x Hx. apply list_elem_of_In, filter_In in Hx as [Hx Hc].
      apply Hsettled; [now apply list_elem_of_In|exact Hc]. }
  eexists. split; [reflexivity|]. split.
  - etransitivity; [apply entries_sublist|apply filter_sublist].
  - intros en. rewrite list_elem_of_In, in_map_iff. split.
    + intros ([x st] & <- & Hin). apply filter_In in Hin as [Hin Hfile].
      apply in_map_iff in Hin as (y & [= <- <-] & Hin).
      apply filter_In in Hin as [Hin Hc].
      unfold dangling_candidate in Hc.
      apply andb_true_iff in Hc as [Hend Hex].
      apply endsWith_spec in Hend as [stem Hstem].
      apply negb_true_iff, bool_decide_eq_false in Hex.
      unfold is_file in Hfile. cbn [snd] in Hfile.
      cbn [to_entry entry_filename entry_size fst snd].
      destruct (lstat (Path_join path y)) as [stat| |] eqn:Hst; try discriminate.
      exists stem, stat. repeat split; auto.
      * now apply list_elem_of_In.
      * now apply negb_true_iff in Hfile.
    + intros (stem & stat & Hname & Hin & Hex & Hst & Hdir & Hsize).
      exists (entry_filename en, Some stat). split.
      * destruct en as [n s]. cbn in *. now subst.
      * apply filter_In. split.
        -- apply in_map_iff. exists (entry_filename en). rewrite Hst. split; auto.
           apply filter_In. split; [now apply list_elem_of_In|].
           unfold dangling_candidate. apply andb_true_iff. split.
           ++ apply endsWith_spec. now exists stem.
           ++ now apply negb_true_iff, bool_decide_eq_false.
        -- unfold is_file. cbn [snd]. now rewrite Hdir.
Qed.
End Files.

End FileFacts.

(** ** More on the bootstrap *)
Module BootFacts.
Import Js App RunFacts.

Section Boot.
Context {K : Type} `{Countable K}.
Variables DATA_FOLDER ARCHIVE_FOLDER THUMBNAIL_FOLDER DB_LOCATION : string.
Variable Port : Z.
Variables STORAGE_QUOTA_ID INSTANCE_QUOTA_ID DOWNLOAD_SPEED_QUOTA : K.
Variable storage_Initialize : list string -> Db -> Db.

Local Abbreviation PrepareFileSystem :=
  (PrepareFileSystem (K := K) ARCHIVE_FOLDER THUMBNAIL_FOLDER).
Local Abbreviation serve := (serve (K := K) Port).
Local Abbreviation Run :=
  (Run (K := K) DATA_FOLDER ARCHIVE_FOLDER THUMBNAIL_FOLDER DB_LOCATION Port
       storage_Initialize).
Local Abbreviation SetupPluginManagerController :=
  (SetupPluginManagerController (K := K)
     STORAGE_QUOTA_ID INSTANCE_QUOTA_ID DOWNLOAD_SPEED_QUOTA).

(** [PrepareFileSystem], case by case. *)
Lemma PrepareFileSystem_cases (w : World (K := K)) :
  PrepareFileSystem w =
    if bool_decide (ARCHIVE_FOLDER ∈ fs w) then
      if bool_decide (THUMBNAIL_FOLDER ∈ fs w) then (Done tt, w)
      else match mkdir_error w THUMBNAIL_FOLDER with
           | Some e => (Thrown e, w)
           | None => (Done tt, with_fs (fun s => {[THUMBNAIL_FOLDER]} ∪ s) w)
           end
    else
      match mkdir_error w ARCHIVE_FOLDER with
      | Some e => (Thrown e, w)
      | None =>
          let w1 := with_fs (fun s => {[ARCHIVE_FOLDER]} ∪ s) w in
          if bool_decide (THUMBNAIL_FOLDER ∈ fs w1)
          then (Thrown ("EEXIST: " +:+ THUMBNAIL_FOLDER), w1)
          else match mkdir_error w THUMBNAIL_FOLDER with
               | Some e => (Thrown e, w1)
               | None =>
                   (Done tt, with_fs (fun s => {[THUMBNAIL_FOLDER]} ∪ s) w1)
               end
      end.
Proof.
  unfold App.PrepareFileSystem, bind, existsSync, get, mkdirSync, ret.
  destruct (bool_decide (ARCHIVE_FOLDER ∈ fs w)) eqn:HA; cbn [negb].
  - destruct (bool_decide (THUMBNAIL_FOLDER ∈ fs w)) eqn:HT; cbn [negb];
      [reflexivity|].
    rewrite HT. now destruct (mkdir_error w THUMBNAIL_FOLDER).
  - rewrite HA. destruct (mkdir_error w ARCHIVE_FOLDER); [reflexivity|].
    cbv zeta.
    destruct (bool_decide (THUMBNAIL_FOLDER ∈ fs (with_fs _ w))); [reflexivity|].
    cbn [mkdir_error with_fs].
    now destruct (mkdir_error w THUMBNAIL_FOLDER).
Qed.

(** X13. [PrepareFileSystem] never ends the process. When it returns, both
    folders exist, the file system has gained them and nothing else, and a
    second call returns and changes nothing. When it throws, one of the two
    folders was missing, and the file system has gained the archive folder
    at most. *)
Theorem PrepareFileSystem_outcome (w : World (K := K)) :
  match PrepareFileSystem w with
  | (Done _, w') =>
      ARCHIVE_FOLDER ∈ fs w' /\ THUMBNAIL_FOLDER ∈ fs w' /\
      fs w' = {[ARCHIVE_FOLDER]} ∪ ({[THUMBNAIL_FOLDER]} ∪ fs w) /\
      PrepareFileSystem w' = (Done tt, w')
  | (Thrown _, w') =>
      (ARCHIVE_FOLDER ∉ fs w \/ THUMBNAIL_FOLDER ∉ fs w) /\
      fs w ⊆ fs w' /\ fs w' ⊆ {[ARCHIVE_FOLDER]} ∪ fs w
  | (Exited _, _) => False
  end.
Proof.
  rewrite PrepareFileSystem_cases.
  case_bool_decide as HA.
  - case_bool_decide as HT.
    + repeat split; auto; [set_solver|].
      rewrite PrepareFileSystem_cases.
      now rewrite !bool_decide_eq_true_2 by assumption.
    + destruct (mkdir_error w THUMBNAIL_FOLDER) as [e|].
      * repeat split; auto. set_solver.
      * cbn [fs with_fs]. repeat split; try set_solver.
        rewrite PrepareFileSystem_cases. cbn [fs with_fs].
        now rewrite !bool_decide_eq_true_2 by set_solver.
  - destruct (mkdir_error w ARCHIVE_FOLDER) as [e|].
    + repeat split; auto. set_solver.
    + cbv zeta. cbn [fs with_fs]. case_bool_decide as HT.
      * cbn [fs with_fs]. repeat split; auto; set_solver.
      * destruct (mkdir_error w THUMBNAIL_FOLDER) as [e|];
          cbn [fs with_fs].
        -- repeat split; auto; set_solver.
        -- repeat split; try set_solver.
           rewrite PrepareFileSystem_cases. cbn [fs with_fs].
           now rewrite !bool_decide_eq_true_2 by set_solver.
Qed.

(** What [Run] needs of [PrepareFileSystem]. *)
Lemma PrepareFileSystem_done (w w' : World (K := K)) :
  PrepareFileSystem w = (Done tt, w') ->
  ARCHIVE_FOLDER ∈ fs w' /\ THUMBNAIL_FOLDER ∈ fs w'.
Proof.
  rewrite PrepareFileSystem_cases. cbv zeta. cbn [fs with_fs].
  repeat first
    [ case_bool_decide
    | match goal with |- context [mkdir_error w ?p] =>
        destruct (mkdir_error w p) end ];
    intros Heq; try discriminate Heq;
    injection Heq as Heq; subst w'; cbn [fs with_fs] in *; split; set_solver.
Qed.

Lemma PrepareFileSystem_no_exit (w w' : World (K := K)) (c : Z) :
  PrepareFileSystem w <> (Exited c, w').
Proof.
  rewrite PrepareFileSystem_cases. cbv zeta. cbn [fs with_fs].
  repeat first
    [ case_bool_decide
    | match goal with |- context [mkdir_error w ?p] =>
        destruct (mkdir_error w p) end ];
    discriminate.
Qed.

Lemma serve_fs (w : World (K := K)) : fs (serve w).2 = fs w.
Proof.
  unfold App.serve. rewrite bind_call.
  destruct (LoadData_spec (with_calls (fun l => l ++ [new_NotificationCenter]) w))
    as (w1 & Hrun & _ & Hf & _).
  rewrite (bind_Done _ _ _ _ _ Hrun). rewrite !bind_call.
  unfold call, modify. cbn. exact Hf.
Qed.

(** X14. With collaborators whose calls return, [Run] never throws, and
    never ends the process with a code other than 1. It ends it exactly
    when the data folder is missing or the preparation of the file system
    throws, and then the server was not asked to listen; otherwise it
    returns with the archive and thumbnail folders in place and the server
    listening as the last thing done. *)
Theorem Run_outcome (w : World (K := K)) :
  match Run w with
  | (Done _, w') =>
      DATA_FOLDER ∈ fs w /\ (PrepareFileSystem w).1 = Done tt /\
      ARCHIVE_FOLDER ∈ fs w' /\ THUMBNAIL_FOLDER ∈ fs w' /\
      last (calls w') = Some (server_listen Port)
  | (Exited c, w') =>
      c = 1 /\
      ((DATA_FOLDER ∉ fs w) \/
       DATA_FOLDER ∈ fs w /\ exists e : exn, (PrepareFileSystem w).1 = Thrown e) /\
      (server_listen Port ∈ calls w' -> server_listen Port ∈ calls w)
  | (Thrown _, _) => False
  end.
Proof.
  rewrite Run_unfold. case_bool_decide as Hm.
  - cbv zeta.
    match goal with |- context [PrepareFileSystem ?w3] =>
      destruct (PrepareFileSystem_frame ARCHIVE_FOLDER THUMBNAIL_FOLDER w w3)
        as (Ho & _ & _ & _ & _ & Hc & _);
      [ destruct (initialized (db w)); reflexivity
      | destruct (initialized (db w)); reflexivity
      | destruct (PrepareFileSystem w3) as [[[]|e|c] w4] eqn:Hp ]
    end.
    + apply PrepareFileSystem_done in Hp as [HA HT].
      pose proof (serve_fs w4) as Hfs.
      destruct (serve_spec Port w4) as (w' & Hrun & [cs Hcalls] & _).
      rewrite Hrun in *. cbn [snd] in Hfs. rewrite Hfs.
      repeat split; auto. rewrite Hcalls. apply last_snoc.
    + cbn [fst snd] in *. split; [reflexivity|]. split; [right; eauto|].
      cbn [calls with_logged]. rewrite Hc.
      destruct (initialized (db w)); cbn [calls with_calls with_db with_logged];
        intros Hin;
        repeat (apply elem_of_app in Hin as [Hin|Hin];
                [|apply list_elem_of_singleton in Hin; discriminate]);
        exact Hin.
    + exfalso. exact (PrepareFileSystem_no_exit _ _ _ Hp).
  - split; [reflexivity|]. split; [now left|]. cbn. auto.
Qed.

(** X15. [SetupPluginManagerController] installs the stream filter of the
    download-speed arbiter, as the static field of the request handler and
    as one more interceptor of the listener, exactly when the configured
    download-speed limit is strictly positive; the filter is that of the
    arbiter it registers under the download-speed id. Otherwise the field
    and the interceptors are as they were. Whatever the settings, it
    returns, writes no log line and leaves the file system, the database,
    the registry, the observables, the archive and the recorder alone. *)
Theorem Setup_installs_stream_filter (w : World (K := K)) :
  exists w' : World,
    SetupPluginManagerController w = (Done tt, w') /\
    (if bool_decide (0 < downloadSpeedQuota (settings_row (db w)))
     then
       pluginListenerInterceptFn w' =
         Some (arbiter_for DownloadSpeedQuota (settings_row (db w))) /\
       interceptors w' =
         interceptors w ++ [arbiter_for DownloadSpeedQuota (settings_row (db w))] /\
       arbiters w' !! DOWNLOAD_SPEED_QUOTA = pluginListenerInterceptFn w'
     else
       pluginListenerInterceptFn w' = pluginListenerInterceptFn w /\
       interceptors w' = interceptors w) /\
    fs w' = fs w /\ db w' = db w /\ logged w' = logged w /\
    calls w' = calls w /\ registry w' = registry w /\
    observables w' = observables w /\ archive w' = archive w /\
    recorder w' = recorder w /\ awaiting w' = awaiting w.
Proof.
  unfold App.SetupPluginManagerController, AddArbiter, bind, get, modify, ret.
  destruct (storageQuota (settings_row (db w)) >? 0);
    destruct (instanceQuota (settings_row (db w)) >? 0);
    destruct (Z.gtb_spec (downloadSpeedQuota (settings_row (db w))) 0) as [Hd|Hd];
    cbn; eexists; (split; [reflexivity|]); cbn;
    (case_bool_decide; [|try lia]; try lia);
    repeat split; auto; now rewrite lookup_insert_eq.
Qed.
End Boot.

End BootFacts.

(** ** More on the persisted state *)
Module LoadFacts.
Import Js App RunFacts.

(** A tag row changes no name and no lock, takes no tag away, and adds
    its own tag at most, to a record of its file name. *)
Lemma add_tag_related (x : TagRow) (l : list ArchiveRecord) :
  Forall2 (fun r r' : ArchiveRecord =>
             filename r' = filename r /\ locked r' = locked r /\
             tags r ⊆ tags r' /\
             forall t : string, t ∈ tags r' ->
               t ∈ tags r \/ (tag_filename x = filename r /\ tag x = t))
          l (add_tag x l).
Proof.
  induction l as [|y l IH]; cbn [add_tag]; [constructor|].
  destruct (String.eqb_spec (filename y) (tag_filename x)) as [Heq|Hne].
  - constructor.
    + cbn. split; [reflexivity|]. split; [reflexivity|]. split; [set_solver|].
      intros t Ht. apply elem_of_union in Ht as [Ht|Ht]; auto.
      apply elem_of_singleton in Ht. subst t. auto.
    + clear. induction l; constructor; auto; repeat split; auto.
  - constructor; auto; repeat split; auto.
Qed.

Lemma add_tag_names (x : TagRow) (l : list ArchiveRecord) :
  map filename (add_tag x l) = map filename l.
Proof.
  induction l as [|y l IH]; cbn [add_tag map]; auto.
  destruct (String.eqb (filename y) (tag_filename x)); cbn [map filename];
    congruence.
Qed.

Lemma add_tags_names (ts : list TagRow) (l : list ArchiveRecord) :
  map filename (fold_left (fun a x => add_tag x a) ts l) = map filename l.
Proof.
  revert l. induction ts as [|x ts IH]; intros l; cbn [fold_left]; auto.
  now rewrite IH, add_tag_names.
Qed.

(** A tag row whose file is in the archive leaves its tag on a record of
    that name. *)
Lemma add_tag_adds (x : TagRow) (l : list ArchiveRecord) :
  tag_filename x ∈ map filename l ->
  exists r : ArchiveRecord,
    r ∈ add_tag x l /\ filename r = tag_filename x /\ tag x ∈ tags r.
Proof.
  induction l as [|y l IH]; cbn [add_tag map].
  - intros Hin. inversion Hin.
  - intros Hin.
    destruct (String.eqb_spec (filename y) (tag_filename x)) as [Heq|Hne].
    + eexists. split; [left|]. cbn. split; auto. set_solver.
    + apply elem_of_cons in Hin as [Hin|Hin]; [congruence|].
      destruct (IH Hin) as (r & Hr & Hf & Ht).
      exists r. split; auto. now right.
Qed.

(** The tag rows one after the other. *)
Lemma add_tags_related (ts : list TagRow) (l : list ArchiveRecord) :
  Forall2 (fun r r' : ArchiveRecord =>
             filename r' = filename r /\ locked r' = locked r /\
             tags r ⊆ tags r' /\
             forall t : string, t ∈ tags r' ->
               t ∈ tags r \/
               exists x : TagRow,
                 x ∈ ts /\ tag_filename x = filename r /\ tag x = t)
          l (fold_left (fun a x => add_tag x a) ts l).
Proof.
  revert l. induction ts as [|x ts IH]; intros l; cbn [fold_left].
  - induction l; constructor; auto; repeat split; auto.
  - pose proof (add_tag_related x l) as H1.
    specialize (IH (add_tag x l)).
    revert H1 IH. generalize (fold_left (fun a x => add_tag x a) ts (add_tag x l)).
    generalize (add_tag x l). intros l1 l2 H1. revert l2.
    induction H1 as [|r r1 l l1 (Hf & Hl & Hs & Ht) _ IHl]; intros l2 H2.
    + inversion H2. constructor.
    + inversion H2 as [|? r2 ? l2' (Hf2 & Hl2 & Hs2 & Ht2) H2']; subst.
      constructor; [|now apply IHl].
      split; [congruence|]. split; [congruence|]. split; [set_solver|].
      intros t Hin. destruct (Ht2 t Hin) as [Hin1|(x' & Hx' & Hfx & Htx)].
      * destruct (Ht t Hin1) as [Hin0|[Hfx Htx]]; auto.
        right. exists x. repeat split; auto. left.
      * right. exists x'. repeat split; try congruence. now right.
Qed.

Lemma add_tags_adds (ts : list TagRow) (l : list ArchiveRecord) (x : TagRow) :
  x ∈ ts -> tag_filename x ∈ map filename l ->
  exists r : ArchiveRecord,
    r ∈ fold_left (fun a x => add_tag x a) ts l /\
    filename r = tag_filename x /\ tag x ∈ tags r.
Proof.
  revert l. induction ts as [|y ts IH]; intros l Hx Hin; cbn [fold_left].
  - inversion Hx.
  - pose proof (add_tag_names y l) as Hnames.
    apply elem_of_cons in Hx as [->|Hx].
    + destruct (add_tag_adds y l Hin) as (r & Hr & Hf & Ht).
      pose proof (add_tags_related ts (add_tag y l)) as HF.
      apply list_elem_of_lookup in Hr as [i Hi].
      destruct (Forall2_lookup_l _ _ _ _ _ HF Hi) as (r' & Hi' & Hf' & _ & Hs & _).
      exists r'. split; [eapply list_elem_of_lookup_2; eauto|].
      split; [congruence|set_solver].
    + apply IH; auto. now rewrite Hnames.
Qed.

(** With a name for a plugin at most, a row changes the plugin of its
    name and no other. *)
Lemma assign_plugin_elem (x : PluginRow) (l : list Plugin) (p : Plugin) :
  NoDup (map name l) ->
  p ∈ assign_plugin x l <->
  (name p = row_name x /\ id p = row_id x /\ enabled p = row_enabled x /\
   row_name x ∈ map name l) \/
  (p ∈ l /\ name p <> row_name x).
Proof.
  induction l as [|p0 l IH]; cbn [assign_plugin map]; intros Hnd.
  - split; [intros Hin; inversion Hin|].
    intros [(_ & _ & _ & Hin)|[Hin _]]; inversion Hin.
  - apply NoDup_cons in Hnd as [Hfresh Hnd]. specialize (IH Hnd).
    destruct (String.eqb_spec (name p0) (row_name x)) as [Heq|Hne].
    + rewrite !elem_of_cons. split.
      * intros [->|Hin]; [left; cbn; auto|right].
        split; auto. intros Hn. apply Hfresh. rewrite Heq, <- Hn.
        apply list_elem_of_fmap. now exists p.
      * intros [(Hn & Hi & He & _)|[[->|Hin] Hn]]; [left|congruence|now right].
        destruct p; cbn in *; subst; now rewrite Heq.
    + rewrite !elem_of_cons, IH. split.
      * intros [->|[(Hn & Hi & He & Hin)|[Hin Hn]]]; auto.
        left. repeat split; auto.
      * intros [(Hn & Hi & He & [Hin|Hin])|[[->|Hin] Hn]]; auto; [congruence|].
        right. left. auto.
Qed.

Lemma assign_fold_names (rows : list PluginRow) (reg : list Plugin) :
  map name (fold_left (fun reg x => assign_plugin x reg) rows reg) = map name reg.
Proof.
  revert reg. induction rows as [|x rows IH]; intros reg; cbn [fold_left]; auto.
  now rewrite IH, assign_plugin_names.
Qed.

(** The rows one after the other: the last row of a name decides. *)
Lemma assign_fold_elem (rows : list PluginRow) (reg : list Plugin) (p : Plugin) :
  NoDup (map name reg) ->
  p ∈ fold_left (fun reg x => assign_plugin x reg) rows reg <->
  exists p0 : Plugin,
    p0 ∈ reg /\ name p = name p0 /\
    match last (List.filter (fun x => String.eqb (row_name x) (name p0)) rows) with
    | Some x => id p = row_id x /\ enabled p = row_enabled x
    | None => id p = id p0 /\ enabled p = enabled p0
    end.
Proof.
  intros Hnd. induction rows as [|x rows IH] using rev_ind.
  - cbn. split.
    + intros Hin. exists p. auto.
    + intros (p0 & Hin & Hn & Hi & He).
      destruct p, p0; cbn in *; now subst.
  - rewrite fold_left_app. cbn [fold_left].
    rewrite assign_plugin_elem by (now rewrite assign_fold_names).
    rewrite assign_fold_names, IH. split.
    + intros [(Hn & Hi & He & Hin)|[(p0 & Hin & Hn & Hlast) Hne]].
      * apply list_elem_of_fmap in Hin as (p0 & Hn0 & Hin).
        exists p0. split; auto. split; [congruence|].
        rewrite List.filter_app. cbn [List.filter].
        rewrite Hn0, String.eqb_refl. now rewrite last_snoc.
      * exists p0. split; auto. split; auto.
        rewrite List.filter_app. cbn [List.filter].
        destruct (String.eqb_spec (row_name x) (name p0)) as [Heq|_];
          [congruence|].
        now rewrite app_nil_r.
    + intros (p0 & Hin & Hn & Hlast).
      rewrite List.filter_app in Hlast. cbn [List.filter] in Hlast.
      destruct (String.eqb_spec (row_name x) (name p0)) as [Heq|Hne].
      * rewrite last_snoc in Hlast. destruct Hlast as [Hi He].
        left. repeat split; auto; [congruence|].
        rewrite Heq. apply list_elem_of_fmap. now exists p0.
      * rewrite app_nil_r in Hlast. right. split; [|congruence].
        exists p0. auto.
Qed.

(** The first missing name of a row depends on the names of the registry
    only. *)
Lemma first_missing_names (reg reg' : list Plugin) (names : list string) :
  (forall n : string, n ∈ map name reg <-> n ∈ map name reg') ->
  first_missing reg names = first_missing reg' names.
Proof.
  intros Hsame. induction names as [|n names IH]; cbn [first_missing]; auto.
  destruct (List.find _ reg) as [p|] eqn:Hf;
    destruct (List.find _ reg') as [p'|] eqn:Hf'; auto.
  - apply find_name_none in Hf'. exfalso. apply Hf', Hsame.
    destruct (decide (n ∈ map name reg)) as [|Hn]; auto.
    apply find_name_none in Hn. congruence.
  - apply find_name_none in Hf. exfalso. apply Hf, Hsame.
    destruct (decide (n ∈ map name reg')) as [|Hn]; auto.
    apply find_name_none in Hn. congruence.
Qed.

Section Load.
Context {K : Type} `{Countable K}.

Local Abbreviation LoadData := (LoadData (K := K)).

(** The loop over the tag rows, with the archive it leaves. *)
Lemma load_tags_run (ts : list TagRow) (w : World (K := K)) :
  forEach ts (fun x => modify (with_archive (add_tag x))) w =
  (Done tt, with_archive (fun a => fold_left (fun a x => add_tag x a) ts a) w).
Proof.
  revert w. induction ts as [|t ts IH]; intros w; cbn [forEach fold_left].
  - unfold ret. now destruct w.
  - rewrite bind_modify, IH. now destruct w.
Qed.

Lemma assign_plugin_absent (x : PluginRow) (l : list Plugin) :
  List.find (fun p => String.eqb (name p) (row_name x)) l = None ->
  assign_plugin x l = l.
Proof.
  induction l as [|p l IH]; cbn [List.find assign_plugin]; auto.
  destruct (String.eqb (name p) (row_name x)); [discriminate|].
  intros Hf. now rewrite IH.
Qed.

(** The rows whose plugin is registered. *)
Lemma load_plugins_run (rows : list PluginRow) (w : World (K := K)) :
  exists w' : World,
    forEach rows load_plugin w = (Done tt, w') /\
    registry w' = fold_left (fun reg x => assign_plugin x reg) rows (registry w) /\
    calls w' =
      calls w ++
      map (fun x => linkedStreams_AddPlugin (row_id x))
        (List.filter (fun x => bool_decide (row_name x ∈ map name (registry w)))
           rows) /\
    db w' = db w /\ logged w' = logged w /\ observables w' = observables w /\
    fs w' = fs w.
Proof.
  revert w. induction rows as [|x rows IH]; intros w.
  - exists w. cbn. unfold ret. rewrite app_nil_r. repeat split; auto.
  - cbn [forEach fold_left List.filter]. unfold bind at 1.
    unfold load_plugin at 1, FindPlugin. rewrite bind_get.
    destruct (List.find _ (registry w)) as [p|] eqn:Hfind.
    + rewrite bind_modify. unfold call, modify.
      match goal with |- context [forEach rows load_plugin ?w0] =>
        destruct (IH w0) as (w' & Hrun & Hr & Hc & Hd & Hl & Ho & Hf)
      end.
      exists w'. cbn in Hr, Hc, Hd, Hl, Ho, Hf. rewrite assign_plugin_names in Hc.
      rewrite bool_decide_eq_true_2.
      2:{ destruct (decide (row_name x ∈ map name (registry w))) as [|Hn]; auto.
          apply find_name_none in Hn. congruence. }
      repeat split; auto. rewrite Hc. cbn [map]. now rewrite <- app_assoc.
    + unfold ret. destruct (IH w) as (w' & Hrun & Hr & Hc & Hrest).
      exists w'. rewrite assign_plugin_absent by exact Hfind.
      rewrite bool_decide_eq_false_2 by (now apply find_name_none).
      repeat split; auto; apply Hrest.
Qed.

(** The loop over the observable rows, with the log it leaves. *)
Lemma load_observables_log (rows : list ObservableRow) (w : World (K := K)) :
  logged (forEach rows load_observable w).2 =
  logged w ++
  omap (fun x => missing_plugin_message x <$>
                   first_missing (registry w) (row_plugins x)) rows.
Proof.
  revert w. induction rows as [|x rows IH]; intros w.
  - cbn. now rewrite app_nil_r.
  - cbn [forEach omap list_omap]. unfold bind at 1. unfold load_observable at 1.
    unfold bind at 1. rewrite collect_plugins_spec.
    destruct (resolve (registry w) (row_plugins x)) as [ps|] eqn:Hr.
    + unfold modify. rewrite IH. cbn [logged registry with_observables].
      destruct (first_missing (registry w) (row_plugins x)) as [n|] eqn:Hm;
        [|reflexivity].
      assert (resolve (registry w) (row_plugins x) = None)
        by (apply resolve_none; eauto).
      congruence.
    + unfold ret. rewrite IH. cbn [logged registry with_logged].
      apply resolve_none in Hr as [n Hn]. rewrite Hn.
      cbn [fmap option_fmap option_map default]. now rewrite <- app_assoc.
Qed.

(** [LoadData], loop by loop. *)
Lemma LoadData_run (w : World (K := K)) :
  exists w' : World,
    LoadData w = (Done tt, w') /\
    (forall p : Plugin,
       p ∈ registry w' <->
       p ∈ fold_left (fun reg x => assign_plugin x reg) (plugin_rows (db w))
             (registry w)) /\
    calls w' =
      calls w ++
      map (fun x => linkedStreams_AddPlugin (row_id x))
        (List.filter (fun x => bool_decide (row_name x ∈ map name (registry w)))
           (plugin_rows (db w))) /\
    archive w' =
      fold_left (fun a x => add_tag x a) (tag_rows (db w))
        (map (fun x => {| filename := x; locked := false; tags := ∅ |})
           (archive_rows (db w))) /\
    db w' = db w /\ fs w' = fs w.
Proof.
  unfold App.LoadData. rewrite bind_get.
  destruct (load_plugins_run (plugin_rows (db w)) w)
    as (w1 & Hrun1 & Hr1 & Hc1 & Hd1 & Hl1 & Ho1 & Hf1).
  rewrite (bind_Done _ _ _ _ _ Hrun1). rewrite bind_modify, bind_get.
  set (w2 := with_registry (reorder (map row_id (plugin_rows (db w)))) w1).
  assert (Hd2 : db w2 = db w) by exact Hd1.
  rewrite Hd2.
  destruct (load_observables_spec (observable_rows (db w)) w2)
    as (w3 & Hrun3 & Hr3 & Hd3 & Hc3 & Ha3 & Hf3 & _).
  rewrite (bind_Done _ _ _ _ _ Hrun3). rewrite bind_get, bind_modify, bind_get.
  rewrite load_tags_run. eexists. split; [reflexivity|].
  cbn [registry calls archive db fs with_archive].
  rewrite ?Hr3, ?Hc3, ?Hd3, ?Hf3. subst w2.
  cbn [registry calls db fs with_registry] in *.
  rewrite ?Hd1, ?Hc1, ?Hf1, ?Hr1.
  repeat split; auto; apply elem_of_reorder.
Qed.

(** X16. [LoadData] always returns, and rebuilds the archive from the
    database alone: one record for each archive row, in the order of the
    rows and under its file name, none of them locked; a record carries a
    tag only if a tag row gives that tag to its file name, and every tag
    row whose file name is in the archive leaves its tag on a record of
    that name. A tag row of a file that is not in the archive is dropped. *)
Theorem LoadData_archive (w : World (K := K)) :
  exists w' : World,
    LoadData w = (Done tt, w') /\
    map filename (archive w') = archive_rows (db w) /\
    (forall r : ArchiveRecord, r ∈ archive w' -> locked r = false) /\
    (forall (r : ArchiveRecord) (t : string),
       r ∈ archive w' -> t ∈ tags r ->
       exists x : TagRow,
         x ∈ tag_rows (db w) /\ tag_filename x = filename r /\ tag x = t) /\
    (forall x : TagRow,
       x ∈ tag_rows (db w) -> tag_filename x ∈ archive_rows (db w) ->
       exists r : ArchiveRecord,
         r ∈ archive w' /\ filename r = tag_filename x /\ tag x ∈ tags r).
Proof.
  destruct (LoadData_run w) as (w' & Hrun & _ & _ & Ha & _).
  exists w'. split; [exact Hrun|]. rewrite Ha.
  set (fresh := map (fun x => {| filename := x; locked := false; tags := ∅ |})
                    (archive_rows (db w))).
  assert (Hnames : map filename fresh = archive_rows (db w)).
  { subst fresh. rewrite map_map. cbn. apply map_id. }
  pose proof (add_tags_related (tag_rows (db w)) fresh) as HF.
  split; [|split; [|split]].
  - now rewrite add_tags_names.
  - intros r' Hr'. apply list_elem_of_lookup in Hr' as [i Hi].
    destruct (Forall2_lookup_r _ _ _ _ _ HF Hi) as (r & Hi0 & _ & Hl & _).
    rewrite Hl. apply list_elem_of_lookup_2 in Hi0.
    subst fresh. apply list_elem_of_fmap in Hi0 as (f & -> & _). reflexivity.
  - intros r' t Hr' Ht. apply list_elem_of_lookup in Hr' as [i Hi].
    destruct (Forall2_lookup_r _ _ _ _ _ HF Hi) as (r & Hi0 & Hf & _ & _ & Htags).
    destruct (Htags t Ht) as [Hin|(x & Hx & Hfx & Htx)].
    + apply list_elem_of_lookup_2 in Hi0.
      subst fresh. apply list_elem_of_fmap in Hi0 as (f & -> & _).
      cbn in Hin. set_solver.
    + exists x. repeat split; auto. congruence.
  - intros x Hx Hin. apply add_tags_adds; auto. now rewrite Hnames.
Qed.

(** X17. [LoadData] links one plugin for each plugin row whose name the
    plugin manager finds, with [linkedStreams.AddPlugin] and the id of the
    row, in the order of the rows, and it links nothing else. A row of a
    plugin that is not registered is skipped: not linked. *)
Theorem LoadData_links_registered (w : World (K := K)) :
  exists w' : World,
    LoadData w = (Done tt, w') /\
    calls w' =
      calls w ++
      map (fun x => linkedStreams_AddPlugin (row_id x))
        (List.filter (fun x => bool_decide (row_name x ∈ map name (registry w)))
           (plugin_rows (db w))).
Proof.
  destruct (LoadData_run w) as (w' & Hrun & _ & Hc & _).
  exists w'. split; auto.
Qed.
(** X18. With one plugin of a name at most in the registry (and
    [ReorderPlugins] changing the order only), [LoadData] leaves the
    plugins it found, each under its name: a plugin some row names has the
    id and the enabled flag of the last row of its name, a plugin no row
    names keeps its own. No plugin is added or lost. *)
Theorem LoadData_plugin_state (w : World (K := K)) :
  NoDup (map name (registry w)) ->
  exists w' : World,
    LoadData w = (Done tt, w') /\
    forall p : Plugin,
      p ∈ registry w' <->
      exists p0 : Plugin,
        p0 ∈ registry w /\ name p = name p0 /\
        match last (List.filter (fun x => String.eqb (row_name x) (name p0))
                      (plugin_rows (db w))) with
        | Some x => id p = row_id x /\ enabled p = row_enabled x
        | None => id p = id p0 /\ enabled p = enabled p0
        end.
Proof.
  intros Hnd. destruct (LoadData_run w) as (w' & Hrun & Hreg & _).
  exists w'. split; [exact Hrun|].
  intros p. rewrite Hreg. now apply assign_fold_elem.
Qed.
(** X19. The only lines [LoadData] logs are those of the observable rows
    that name a plugin the registry does not have: one line for each such
    row, in the order of the rows, with the url of the row and the first
    of its names that is missing. Plugin rows, archive rows and tag rows
    are never logged. *)
Theorem LoadData_logs_missing_only (w : World (K := K)) :
  exists w' : World,
    LoadData w = (Done tt, w') /\
    logged w' =
      logged w ++
      omap (fun x => missing_plugin_message x <$>
                       first_missing (registry w) (row_plugins x))
        (observable_rows (db w)).
Proof.
  unfold App.LoadData. rewrite bind_get.
  destruct (load_plugins_run (plugin_rows (db w)) w)
    as (w1 & Hrun1 & Hr1 & Hc1 & Hd1 & Hl1 & Ho1 & Hf1).
  rewrite (bind_Done _ _ _ _ _ Hrun1). rewrite bind_modify, bind_get.
  set (w2 := with_registry (reorder (map row_id (plugin_rows (db w)))) w1).
  assert (Hd2 : db w2 = db w) by exact Hd1.
  rewrite Hd2.
  pose proof (load_observables_log (observable_rows (db w)) w2) as Hlog.
  destruct (load_observables_spec (observable_rows (db w)) w2)
    as (w3 & Hrun3 & _).
  rewrite Hrun3 in Hlog. cbn [snd] in Hlog.
  rewrite (bind_Done _ _ _ _ _ Hrun3). rewrite bind_get, bind_modify, bind_get.
  rewrite load_tags_run. eexists. split; [reflexivity|].
  cbn [logged with_archive]. rewrite Hlog. subst w2.
  cbn [logged registry with_registry]. rewrite Hl1. f_equal.
  apply list_omap_ext, Forall2_same_length_lookup. split; [reflexivity|].
  intros i x y Hx Hy. assert (x = y) as <- by congruence. f_equal.
  apply first_missing_names. intros n.
  rewrite names_reorder, Hr1, assign_fold_names. reflexivity.
Qed.
End Load.

End LoadFacts.

(** ** More on the shutdown *)
Module StopFacts.
Import Js App ShutdownFacts.

Section Stop.
Context {K : Type} `{Countable K}.

(** X20. With a recording service whose [StopRecording] returns,
    [Shutdown] ends the process with code 0 or returns to wait, and never
    throws. It ends the process at once exactly when nothing is being
    recorded, and then stops nothing: the plugin manager is not stopped,
    the recorder is as it was, and the log has gained its two lines.
    Otherwise it stops the plugin manager, once, logs its first line only,
    and leaves one more handler that awaits as many completions as there
    were sessions. *)
Theorem Shutdown_outcome (w : World (K := K)) :
  match Shutdown w with
  | (Exited c, w') =>
      c = 0 /\ Recorder.Records (recorder w) = [] /\
      calls w' = calls w /\ recorder w' = recorder w /\
      awaiting w' = awaiting w /\
      logged w' =
        logged w ++ ["Shutting down. Waiting for recorder stops."; "Exit"]%string
  | (Done _, w') =>
      Recorder.Records (recorder w) <> [] /\
      calls w' = calls w ++ [pluginManager_Stop] /\
      logged w' =
        logged w ++ ["Shutting down. Waiting for recorder stops."%string] /\
      awaiting w' =
        awaiting w ++ [Z.of_nat (length (Recorder.Records (recorder w)))]
  | (Thrown _, _) => False
  end.
Proof.
  rewrite Shutdown_unfold. cbv zeta.
  destruct (Recorder.Records (recorder w)) as [|r rs] eqn:Hrec.
  - unfold Exit, bind, Log, modify, process_exit. cbn.
    repeat split; auto. cbn [logged with_logged]. now rewrite <- app_assoc.
  - replace (Z.of_nat (length (r :: rs)) =? 0) with false
      by (symmetry; apply Z.eqb_neq; cbn [length]; lia).
    match goal with |- context [forEach ?ls StopRecording ?w0] =>
      destruct (stop_all ls w0) as (w1 & Hrun & Ha & Hl & Hc & _)
    end.
    rewrite Hrun. cbn in *. repeat split; auto. congruence.
Qed.
End Stop.

End StopFacts.

(** ** The navigation guard *)
Module GuardFacts.
Import Js Router.

Section Guard.
Context {E : Type}.
Implicit Types (to : Route) (s : Stores E).

(** X21. The guard lets a navigation through to a route that asks for an
    access level, other than the dashboard, only once the application is
    initialised, and only if the access read first is enough, or, after the
    wait for an upgrade, the access read then is enough or the passphrase
    was accepted. *)
Theorem guard_lets_through to s (a : Z) :
  beforeEach to s = Some Proceed ->
  path to <> "/dashboard"%string ->
  meta_access to = Some a ->
  (exists u : unit, AwaitInitialization s = Resolved u) /\
  (a <= access_first s \/
   (exists u : unit, AwaitAccessUpgrade s = Resolved u) /\
   (a <= access_then s \/ RequestPassphrase s = Resolved true)).
Proof.
  unfold beforeEach. intros Hgo Hpath Hmeta. rewrite Hmeta in Hgo.
  destruct (String.eqb_spec (path to) "/dashboard") as [|_]; [contradiction|].
  cbn [le_access gt_access negb andb] in Hgo.
  destruct (AwaitInitialization s) as [u| |]; try discriminate.
  split; [eauto|].
  destruct (Z.leb_spec a (access_first s)) as [Hle|Hgt]; [now left|right].
  destruct (AwaitAccessUpgrade s) as [u'| |]; try discriminate.
  split; [eauto|].
  rewrite andb_true_r in Hgo.
  destruct (Z.gtb_spec a (access_then s)) as [Hgt'|Hle']; [right|left; lia].
  destruct (RequestPassphrase s) as [[|]| |]; try discriminate. reflexivity.
Qed.

(** X22. The guard redirects nowhere but to "/", never on the way to the
    dashboard, and only when a promise it awaits is rejected or the
    passphrase is refused. *)
Theorem guard_redirects_home to s (target : string) :
  beforeEach to s = Some (Redirect target) ->
  target = "/"%string /\ path to <> "/dashboard"%string /\
  ((exists e : E, AwaitInitialization s = Rejected e) \/
   (exists e : E, AwaitAccessUpgrade s = Rejected e) \/
   (exists e : E, RequestPassphrase s = Rejected e) \/
   RequestPassphrase s = Resolved false).
Proof.
  unfold beforeEach.
  destruct (String.eqb_spec (path to) "/dashboard") as [|Hpath]; [discriminate|].
  destruct (AwaitInitialization s) as [u|e|]; try discriminate;
    [|intros [= <-]; eauto 6].
  destruct (le_access _ _); [discriminate|].
  destruct (AwaitAccessUpgrade s) as [u'|e|]; try discriminate;
    [|intros [= <-]; eauto 6].
  destruct (gt_access _ _ && _); [|discriminate].
  destruct (RequestPassphrase s) as [[|]|e|]; try discriminate;
    intros [= <-]; eauto 8.
Qed.

(** X23. A route without an access level, other than the dashboard, is
    never asked for a passphrase and never let through at once: whatever
    the access, the guard waits for the initialisation and for the access
    upgrade, lets the navigation through when both resolve, and redirects
    to "/" when one is rejected. *)
Theorem guard_without_level to s :
  meta_access to = None ->
  path to <> "/dashboard"%string ->
  beforeEach to s =
    match AwaitInitialization s, AwaitAccessUpgrade s with
    | Resolved _, Resolved _ => Some Proceed
    | Rejected _, _ | Resolved _, Rejected _ => Some (Redirect "/")
    | Pending, _ | Resolved _, Pending => None
    end.
Proof.
  unfold beforeEach. intros -> Hpath.
  destruct (String.eqb_spec (path to) "/dashboard") as [|_]; [contradiction|].
  cbn [le_access gt_access andb].
  destruct (AwaitInitialization s), (AwaitAccessUpgrade s); reflexivity.
Qed.

(** X24. More access never blocks: a navigation the guard lets through is
    let through as well when the stores differ by a higher access only,
    at the first reading and after the wait. *)
Theorem guard_monotone to s s' :
  AwaitInitialization s' = AwaitInitialization s ->
  AwaitAccessUpgrade s' = AwaitAccessUpgrade s ->
  RequestPassphrase s' = RequestPassphrase s ->
  access_first s <= access_first s' ->
  access_then s <= access_then s' ->
  beforeEach to s = Some Proceed ->
  beforeEach to s' = Some Proceed.
Proof.
  unfold beforeEach. intros -> -> -> Hfirst Hthen.
  destruct (String.eqb (path to) "/dashboard"); [auto|].
  destruct (AwaitInitialization s) as [u| |]; try discriminate.
  destruct (meta_access to) as [a|]; cbn [le_access gt_access]; [|auto].
  destruct (Z.leb_spec a (access_first s)), (Z.leb_spec a (access_first s'));
    try lia; auto.
  destruct (AwaitAccessUpgrade s) as [u'| |]; try discriminate.
  destruct (Z.gtb_spec a (access_then s)), (Z.gtb_spec a (access_then s'));
    try lia; auto.
Qed.
End Guard.

End GuardFacts.

(** ** More on the dialog *)
Module ClaimantFacts.
Import Dialog.

(** X25. The dialog shows the claimants of the first observable whose uri
    is its target, whatever comes after it; opened on a target no
    observable has, it shows no claimant and has no active plugin. *)
Theorem Plugins_of_first_stream (observables : list Stream) (target : string) :
  (target ∉ map uri observables ->
   Plugins observables target = [] /\ ActivePlugin observables target = None) /\
  (forall (before : list Stream) (stream : Stream) (after : list Stream),
     observables = before ++ stream :: after ->
     uri stream = target -> target ∉ map uri before ->
     Plugins observables target = plugins stream).
Proof.
  unfold ActivePlugin, Plugins. split.
  - intros Hnot.
    assert (Hfind : List.find (fun o => String.eqb (uri o) target) observables
                    = None).
    { induction observables as [|o os IH]; cbn [List.find]; auto.
      destruct (String.eqb_spec (uri o) target) as [Heq|Hne].
      - exfalso. apply Hnot. cbn [map]. rewrite Heq. left.
      - apply IH. intros Hin. apply Hnot. now right. }
    now rewrite Hfind.
  - intros before stream after -> Huri Hnot.
    induction before as [|o os IH]; cbn [app List.find].
    + rewrite Huri, String.eqb_refl. reflexivity.
    + destruct (String.eqb_spec (uri o) target) as [Heq|Hne].
      * exfalso. apply Hnot. cbn [map]. rewrite Heq. left.
      * apply IH. intros Hin. apply Hnot. now right.
Qed.

End ClaimantFacts.

(** ** The properties above, at concrete inputs *)
Module MoreExamples.
Import Js Util.

(** "not a url" does not parse: the call throws. "https://site.com/user/"
    parses, and the text between the first slash of its path and the next
    one is "user". *)
Lemma UsernameFromUrl_segment_witness :
  UsernameFromUrl Samples.parse (lit "not a url") =
    Thrown (ERR_INVALID_URL (lit "not a url")) /\
  UsernameFromUrl Samples.parse (lit "https://site.com/user/") =
    Done (Some (lit "user")).
Proof.
  split.
  - apply (proj1 (NameFacts.UsernameFromUrl_segment Samples.parse
                    (lit "not a url"))).
    reflexivity.
  - apply (proj1 (proj2 (proj2 (NameFacts.UsernameFromUrl_segment Samples.parse
                                  (lit "https://site.com/user/"))
                           {| hostname := lit "site.com";
                              pathname := lit "/user/" |}
                           eq_refl))
             [] (lit "user") (lit "/")).
    + reflexivity.
    + apply not_elem_of_nil.
    + intros Hin. vm_compute in Hin.
      repeat (apply elem_of_cons in Hin as [Hin|Hin]; [discriminate|]).
      inversion Hin.
    + right. exists []. reflexivity.
Defined.

(** "mailto:user@site.com" has a path without a slash. *)
Lemma GenFilename_without_user_witness :
  GenFilename Samples.parse_opaque (lit "mailto:user@site.com")
    Samples.entropy_12abff Samples.instant =
  Done (lit "_undefined_02012020030405_12abff.mp4").
Proof.
  refine (proj2 (proj2 (NameFacts.GenFilename_without_user Samples.parse_opaque
                          (lit "mailto:user@site.com") Samples.entropy_12abff
                          Samples.instant)
                   {| hostname := []; pathname := lit "user@site.com" |}
                   eq_refl) _).
  intros Hin. vm_compute in Hin.
  repeat (apply elem_of_cons in Hin as [Hin|Hin]; [discriminate|]).
  inversion Hin.
Defined.

(** With strings of 2^29 - 24 characters at most, four bytes give eight
    digits; a negative count throws. *)
Lemma RandomHexString_shape_witness :
  (exists s : str,
     RandomHexString 536870888 Samples.entropy_12abff 4 = Done s /\
     Z.of_nat (length s) = 2 * 4 /\ forallb is_hex s = true) /\
  (exists e : exn,
     RandomHexString 536870888 Samples.entropy_12abff (-1) = Thrown e).
Proof.
  split.
  - apply (proj1 (NameFacts.RandomHexString_shape 536870888
                    Samples.entropy_12abff 4)). lia.
  - apply (proj2 (NameFacts.RandomHexString_shape 536870888
                    Samples.entropy_12abff (-1))).
    left. lia.
Defined.

(** The bytes 12, ab, ff and 00, 00, 00 give two names. *)
Lemma GenFilename_same_iff_bytes_witness :
  lit "site.com_user_02012020030405_12abff.mp4" =
  lit "site.com_user_02012020030405_000000.mp4" <->
  Samples.entropy_12abff 0%nat = Samples.entropy_zero 0%nat /\
  Samples.entropy_12abff 1%nat = Samples.entropy_zero 1%nat /\
  Samples.entropy_12abff 2%nat = Samples.entropy_zero 2%nat.
Proof.
  exact (NameFacts.GenFilename_same_iff_bytes Samples.parse
           (lit "https://site.com/user/")
           Samples.entropy_12abff Samples.entropy_zero Samples.instant
           _ _ eq_refl eq_refl).
Defined.

(** The clip of "site.com_user_02012020030405_12abff.mp4" with the bytes
    00, 00, 00. *)
Lemma GenClipFilename_replaces_witness :
  GenClipFilename
    (lit "site.com" ++ lit "_" ++ lit "user" ++ lit "_" ++
     lit "02012020030405" ++ lit "_" ++ lit "12abff" ++ lit ".mp4")
    Samples.entropy_zero =
  lit "site.com" ++ lit "_" ++ lit "user" ++ lit "_" ++
  lit "02012020030405" ++ lit "_" ++ unique_suffix Samples.entropy_zero ++
  lit ".mp4".
Proof.
  apply (RegexFacts.GenClipFilename_replaces (lit "site.com") (lit "user")
           (lit "02012020030405") (lit "12abff") "m"%char Samples.entropy_zero);
    try reflexivity.
  discriminate.
Defined.

(** The clip of the name of "https://site.com/user/". *)
Lemma GenClipFilename_of_GenFilename_witness :
  Done (E := exn)
    (GenClipFilename (lit "site.com_user_02012020030405_12abff.mp4")
       Samples.entropy_zero) =
  GenFilename Samples.parse (lit "https://site.com/user/")
    Samples.entropy_zero Samples.instant.
Proof.
  apply (ClipFacts.GenClipFilename_of_GenFilename Samples.parse
           (lit "https://site.com/user/")
           {| hostname := lit "site.com"; pathname := lit "/user/" |}
           (lit "user") (lit "/") "m"%char
           Samples.entropy_12abff Samples.entropy_zero Samples.instant);
    try reflexivity.
  - intros Hin. vm_compute in Hin.
    repeat (apply elem_of_cons in Hin as [Hin|Hin]; [discriminate|]).
    inversion Hin.
  - right. exists []. reflexivity.
  - discriminate.
  - vm_compute. repeat split; try lia; discriminate.
Defined.

(** A clip of a clip. *)
Lemma GenClipFilename_twice_witness :
  GenClipFilename
    (GenClipFilename
       (lit "site.com" ++ lit "_" ++ lit "user" ++ lit "_" ++
        lit "02012020030405" ++ lit "_" ++ lit "12abff" ++ lit ".mp4")
       Samples.entropy_12abff)
    Samples.entropy_zero =
  GenClipFilename
    (lit "site.com" ++ lit "_" ++ lit "user" ++ lit "_" ++
     lit "02012020030405" ++ lit "_" ++ lit "12abff" ++ lit ".mp4")
    Samples.entropy_zero.
Proof.
  apply (ClipFacts.GenClipFilename_twice (lit "site.com") (lit "user")
           (lit "02012020030405") (lit "12abff") "m"%char
           Samples.entropy_12abff Samples.entropy_zero);
    try reflexivity.
  discriminate.
Defined.

(** The name of "https://site.com/" has no user: its clip is the name. *)
Lemma GenClipFilename_userless_unchanged_witness :
  GenClipFilename (lit "site.com__02012020030405_12abff.mp4")
    Samples.entropy_zero =
  lit "site.com__02012020030405_12abff.mp4".
Proof.
  apply (ClipFacts.GenClipFilename_userless_unchanged Samples.parse
           (lit "https://site.com/")
           {| hostname := lit "site.com"; pathname := lit "/" |}
           [] Samples.entropy_12abff Samples.entropy_zero Samples.instant);
    try reflexivity.
  - now left.
  - intros Hin. vm_compute in Hin.
    repeat (apply elem_of_cons in Hin as [Hin|Hin]; [discriminate|]).
    inversion Hin.
  - vm_compute. repeat split; try lia; discriminate.
Defined.

(** The dangling entries of "/archive" when "c.mp4" is known: "a.mp4". *)
Lemma FindDanglingEntries_entries_witness :
  exists entries : list Entry,
    FindDanglingEntries Samples.stats Samples.folder Samples.join
      (lit "/archive") [lit "c.mp4"] = Resolved entries /\
    entries = [ {| entry_filename := lit "a.mp4"; entry_size := 10 |} ].
Proof.
  destruct (FileFacts.FindDanglingEntries_entries
              Samples.stats Samples.folder Samples.join
              (lit "/archive") [lit "c.mp4"]
              [lit "a.mp4"; lit "b.mp4"; lit "notes.txt"; lit "c.mp4";
               lit "d.mp4"])
    as (entries & Hrun & _).
  - reflexivity.
  - intros x _ _. unfold Samples.stats. repeat case_decide; discriminate.
  - exists entries. split; [exact Hrun|].
    vm_compute in Hrun. now injection Hrun as <-.
Defined.

(** The plugins of [stale_world] after [LoadData]: "dummy" has the id 7
    and is disabled, "camsoda" keeps its id 3. *)
Lemma LoadData_plugin_state_witness :
  exists w' : App.World (K := nat),
    App.LoadData Worlds.stale_world = (Done tt, w') /\
    {| App.id := 7; App.name := "dummy"; App.enabled := false |}
      ∈ App.registry w' /\
    {| App.id := 3; App.name := "camsoda"; App.enabled := true |}
      ∈ App.registry w'.
Proof.
  destruct (LoadFacts.LoadData_plugin_state Worlds.stale_world)
    as (w' & Hrun & Hreg).
  - cbn. repeat (apply NoDup_cons; split;
                 [intros Hin;
                  repeat (apply elem_of_cons in Hin as [Hin|Hin];
                          [discriminate|]);
                  inversion Hin|]).
    apply NoDup_nil_2.
  - exists w'. split; [exact Hrun|]. split; apply (proj2 (Hreg _)).
    + exists {| App.id := 4; App.name := "dummy"; App.enabled := true |}.
      split; [apply list_elem_of_In; cbn; auto 10|].
      split; [reflexivity|]. vm_compute. split; reflexivity.
    + exists {| App.id := 3; App.name := "camsoda"; App.enabled := true |}.
      split; [apply list_elem_of_In; cbn; auto 10|].
      split; [reflexivity|]. vm_compute. split; reflexivity.
Defined.

(** A viewer gets to the clip page on an accepted passphrase only. *)
Lemma guard_lets_through_witness :
  (exists u : unit, Router.AwaitInitialization Samples.accepted = Resolved u) /\
  (2 <= Router.access_first Samples.accepted \/
   (exists u : unit, Router.AwaitAccessUpgrade Samples.accepted = Resolved u) /\
   (2 <= Router.access_then Samples.accepted \/
    Router.RequestPassphrase Samples.accepted = Resolved true)).
Proof.
  apply (GuardFacts.guard_lets_through Samples.clip_route Samples.accepted 2);
    [reflexivity|discriminate|reflexivity].
Defined.

(** A viewer whose passphrase is refused is sent to "/". *)
Lemma guard_redirects_home_witness :
  "/"%string = "/"%string /\
  Router.path Samples.clip_route <> "/dashboard"%string /\
  ((exists e : string,
      Router.AwaitInitialization Samples.refused = Rejected e) \/
   (exists e : string,
      Router.AwaitAccessUpgrade Samples.refused = Rejected e) \/
   (exists e : string,
      Router.RequestPassphrase Samples.refused = Rejected e) \/
   Router.RequestPassphrase Samples.refused = Resolved false).
Proof.
  apply (GuardFacts.guard_redirects_home Samples.clip_route Samples.refused "/").
  reflexivity.
Defined.

(** The page of missing pages is let through after both waits. *)
Lemma guard_without_level_witness :
  Router.beforeEach Samples.missing_route Samples.refused =
  Some Router.Proceed.
Proof.
  apply (GuardFacts.guard_without_level Samples.missing_route Samples.refused);
    [reflexivity|discriminate].
Defined.

(** Upgraded to full access, the viewer is let through as before. *)
Lemma guard_monotone_witness :
  Router.beforeEach Samples.clip_route Samples.upgraded = Some Router.Proceed.
Proof.
  apply (GuardFacts.guard_monotone Samples.clip_route Samples.accepted
           Samples.upgraded); try reflexivity.
  - cbn. lia.
Defined.

End MoreExamples.
